(** * VoxKit: a shallow embedding of the core components

    The first part of the file is the model, one module per source file:
    - [AudioPipeline]                 src/core/audio-pipeline.ts
    - [Regex], [LeadExtractor]        src/core/lead-extractor.ts
    - [Types]                         src/types.ts
    - [ConversationManager], [Store]  src/core/conversation-manager.ts
    - [VoxAgent], [Orchestration]     src/voxagent.ts
    - [MetricsPlugin]                 src/plugins/metrics.ts
    - [LeadWebhookPlugin]             src/plugins/lead-webhook.ts
    The second part holds the properties, in modules named after the
    module they are about ([AudioPipelineFacts], ...).

    Conventions.  A method of a class becomes a function from the object's
    state to the new state, the returned value and the list of effects
    (emitted events, logger calls, timers) it performed, in program order.
    Listeners registered on the emitters belong to the environment: they
    are not run by the model, and are assumed neither to throw nor to call
    back into the object.  (The listeners that the agent registers on its
    own components are part of the program: [Orchestration] runs them.)
    [Date.now()] is an explicit argument. *)

From Stdlib Require Import String Ascii Strings.Byte.
From Stdlib Require Import ZArith List Bool Lia DecimalString.
From Stdlib Require Import Floats.PrimFloat Numbers.Cyclic.Int63.Uint63.
From Stdlib Require Import NArith.Nnat.
From Stdlib Require Import Floats.SpecFloat Floats.FloatOps Floats.FloatAxioms.
From Stdlib Require QArith.QArith_base QArith.Qround.
Import ListNotations.

Set Implicit Arguments.

(** * The model *)

(** ** Results of operations that may throw *)

Inductive result (A : Type) : Type :=
| Ok (a : A)
| Throw (err : string).

Arguments Ok {A} a.

Arguments Throw {A} err.

Definition bind {A B : Type} (r : result A) (f : A -> result B) : result B :=
  match r with
  | Ok a => f a
  | Throw e => Throw e
  end.

Notation "'let*' x ':=' r 'in' k" := (bind r (fun x => k))
  (at level 10, x pattern, r at level 100, k at level 200).

(** Logger levels of src/logger.ts. *)
Inductive level : Type := LDebug | LInfo | LWarn | LError.

(** ** JavaScript arrays as lists *)

Section JsArray.

Context {A : Type}.

(** [Array.prototype.slice(start)] for an integer [start]: a negative
    [start] counts from the end, and both ends are clamped.  [-0] is [0]. *)
Definition js_slice (start : Z) (l : list A) : list A :=
  let len := Z.of_nat (length l) in
  let k := if (start <? 0)%Z then Z.max (len + start) 0 else Z.min start len in
  skipn (Z.to_nat k) l.

(** The last [n] elements. *)
Definition lastn (n : nat) (l : list A) : list A :=
  skipn (length l - n) l.

End JsArray.

(** ** JavaScript numbers

    Integers (lengths, counters, times in milliseconds) are exact; they
    become binary64 floats where the source divides or compares them with
    a float. *)

(** An integer of magnitude below 2^63 as a float. *)
Definition float_of_Z (z : Z) : float :=
  if (z <? 0)%Z then (- of_uint63 (Uint63.of_Z (- z)))%float
  else of_uint63 (Uint63.of_Z z).

(** [Math.min] on two numbers. *)
Definition Math_min (x y : float) : float :=
  if is_nan x || is_nan y then nan
  else if (x <? y)%float then x
  else if (y <? x)%float then y
  else if get_sign x then x else y.

(** An integer in a template literal. *)
Definition decimal_of_Z (n : Z) : string :=
  NilEmpty.string_of_int (Z.to_int n).

(** ** AudioPipeline (src/core/audio-pipeline.ts) *)

Module AudioPipeline.

(** A [Uint8Array]. *)
Abbreviation chunk := (list byte).

Inductive AudioFormat : Type := pcm16 | g711_ulaw | g711_alaw.

Record AudioPipelineConfig : Type := {
  sampleRate : float;
  channels : Z;
  format : AudioFormat;
  bufferSize : Z;
  enableVAD : bool;
  vadThreshold : float;
  bufferDurationMs : float
}.

(** The constructor's argument, [Partial<AudioPipelineConfig>]. *)
Record PartialConfig : Type := {
  p_sampleRate : option float;
  p_channels : option Z;
  p_format : option AudioFormat;
  p_bufferSize : option Z;
  p_enableVAD : option bool;
  p_vadThreshold : option float;
  p_bufferDurationMs : option float
}.

Definition nullish {A : Type} (o : option A) (d : A) : A :=
  match o with Some a => a | None => d end.

Record AudioPipeline : Type := {
  config : AudioPipelineConfig;
  audioBuffer : list chunk;
  isStreaming : bool;
  sampleCount : Z
}.

Inductive event : Type :=
| EChunk (c : chunk)
| EBuffer (combined : chunk)
| EStarted
| EStopped.

Inductive effect : Type :=
| Emit (e : event)
| Log (l : level) (msg : string).

#[warnings="-inexact-float"]
Definition constructor (c : PartialConfig) : AudioPipeline :=
  {| config := {| sampleRate := nullish (p_sampleRate c) 24000%float;
                  channels := nullish (p_channels c) 1%Z;
                  format := nullish (p_format c) pcm16;
                  bufferSize := nullish (p_bufferSize c) 4096%Z;
                  enableVAD := nullish (p_enableVAD c) true;
                  vadThreshold := nullish (p_vadThreshold c) 0.01%float;
                  bufferDurationMs := nullish (p_bufferDurationMs c) 100%float |};
     audioBuffer := [];
     isStreaming := false;
     sampleCount := 0 |}.

(** [new Uint8Array(n)]: [n] zero bytes. *)
Definition new_Uint8Array (n : nat) : chunk := repeat x00 n.

(** [target.set(source, offset)]: copies [source] into [target] at
    [offset]; a source that does not fit is a RangeError. *)
Definition uint8_set (target source : chunk) (offset : nat) : result chunk :=
  if length target <? offset + length source
  then Throw "RangeError: offset is out of bounds"
  else Ok (firstn offset target ++ source
           ++ skipn (offset + length source) target).

(** [this.audioBuffer.reduce((sum, chunk) => sum + chunk.length, 0)] *)
Definition totalLength (buf : list chunk) : nat :=
  fold_left (fun sum c => sum + length c) buf 0.

(** The copy loop of [flushBuffer]: the state is [combined] and [offset]. *)
Fixpoint copy_loop (buf : list chunk) (combined : chunk) (offset : nat)
  : result chunk :=
  match buf with
  | [] => Ok combined
  | c :: rest =>
      let* combined' := uint8_set combined c offset in
      copy_loop rest combined' (offset + length c)
  end.

Definition cleared (p : AudioPipeline) : AudioPipeline :=
  {| config := config p; audioBuffer := []; isStreaming := isStreaming p;
     sampleCount := 0 |}.

Definition flushBuffer (p : AudioPipeline)
  : result (option chunk * AudioPipeline * list effect) :=
  match audioBuffer p with
  | [] => Ok (None, p, [])
  | _ :: _ =>
      let* combined :=
        copy_loop (audioBuffer p)
                  (new_Uint8Array (totalLength (audioBuffer p))) 0 in
      Ok (Some combined, cleared p, [Emit (EBuffer combined)])
  end.

(** [calculateBufferDuration]: binary64 arithmetic, as in JavaScript.  The
    sample counter is an exact integer below 2^53. *)
Definition calculateBufferDuration (p : AudioPipeline) : float :=
  let bytesPerSample := 2%float in
  let samples := (of_uint63 (Uint63.of_Z (sampleCount p)) / bytesPerSample)%float in
  ((samples / sampleRate (config p)) * 1000)%float.

Definition processAudioChunk (p : AudioPipeline) (c : chunk)
  : result (AudioPipeline * list effect) :=
  if negb (isStreaming p) then Ok (p, [])
  else
    let p1 := {| config := config p;
                 audioBuffer := audioBuffer p ++ [c];
                 isStreaming := isStreaming p;
                 sampleCount := sampleCount p + Z.of_nat (length c) |} in
    if (bufferDurationMs (config p1) <=? calculateBufferDuration p1)%float
    then
      let* (_, p2, effs) := flushBuffer p1 in
      Ok (p2, Emit (EChunk c) :: effs)
    else Ok (p1, [Emit (EChunk c)]).

Definition start (p : AudioPipeline) : AudioPipeline * list effect :=
  ({| config := config p; audioBuffer := []; isStreaming := true;
      sampleCount := 0 |},
   [Log LInfo "Audio pipeline started"; Emit EStarted]).

Definition stop (p : AudioPipeline) : result (AudioPipeline * list effect) :=
  let p1 := {| config := config p; audioBuffer := audioBuffer p;
               isStreaming := false; sampleCount := sampleCount p |} in
  let* (p2, effs) :=
    match audioBuffer p1 with
    | [] => Ok (p1, [])
    | _ :: _ => let* (_, p2, effs) := flushBuffer p1 in Ok (p2, effs)
    end in
  Ok (p2, effs ++ [Log LInfo "Audio pipeline stopped"; Emit EStopped]).

(** A run of [processAudioChunk] calls, in arrival order. *)
Fixpoint processChunks (p : AudioPipeline) (cs : list chunk)
  : result (AudioPipeline * list effect) :=
  match cs with
  | [] => Ok (p, [])
  | c :: rest =>
      let* (p1, e1) := processAudioChunk p c in
      let* (p2, e2) := processChunks p1 rest in
      Ok (p2, e1 ++ e2)
  end.

(** The payloads of the "buffer" events of a trace. *)
Fixpoint buffers (effs : list effect) : list chunk :=
  match effs with
  | [] => []
  | Emit (EBuffer b) :: rest => b :: buffers rest
  | _ :: rest => buffers rest
  end.

(** *** Examples *)

(** The pipeline of tests/core/audio-pipeline.test.ts. *)
Definition test_pipeline : AudioPipeline :=
  fst (start (constructor
    {| p_sampleRate := Some 24000%float; p_channels := Some 1%Z;
       p_format := Some pcm16; p_bufferSize := None; p_enableVAD := None;
       p_vadThreshold := None; p_bufferDurationMs := Some 50%float |})).

(** *** The other methods of the pipeline *)

Definition getIsStreaming (p : AudioPipeline) : bool := isStreaming p.

(** [getConfig()]: a copy of the configuration. *)
Definition getConfig (p : AudioPipeline) : AudioPipelineConfig := config p.

(** [convertFormat] only logs (at debug level) and returns its argument. *)
Definition convertFormat (p : AudioPipeline) (data : chunk)
  (targetFormat : string) : chunk * list effect :=
  (data, [Log LDebug ("Converting audio to format: " ++ targetFormat)%string]).

(** *** Base64, as [Buffer] encodes and decodes it

    [Buffer.from(bytes).toString('base64')] is the encoding of RFC 4648
    with padding.  [Buffer.from(text, 'base64')] reads the text from left
    to right: a character of the alphabet (or of the URL-safe one, where
    "-" and "_" stand for "+" and "/") gives six bits, "=" ends the
    decoding, any other character is skipped; every complete byte is
    kept.  It never throws. *)

Definition base64_alphabet : list ascii :=
  list_ascii_of_string
    "ABCDEFGHIJKLMNOPQRSTUVWXYZabcdefghijklmnopqrstuvwxyz0123456789+/".

Definition base64_char (n : N) : ascii :=
  nth (N.to_nat n) base64_alphabet "="%char.

Fixpoint base64_encode (bytes : list byte) : list ascii :=
  match bytes with
  | [] => []
  | [a] =>
      let a := Byte.to_N a in
      [base64_char (a / 4); base64_char (a mod 4 * 16); "="%char; "="%char]
  | [a; b] =>
      let a := Byte.to_N a in
      let b := Byte.to_N b in
      [base64_char (a / 4); base64_char (a mod 4 * 16 + b / 16);
       base64_char (b mod 16 * 4); "="%char]
  | a :: b :: c :: rest =>
      let a := Byte.to_N a in
      let b := Byte.to_N b in
      let c := Byte.to_N c in
      base64_char (a / 4) :: base64_char (a mod 4 * 16 + b / 16)
      :: base64_char (b mod 16 * 4 + c / 64) :: base64_char (c mod 64)
      :: base64_encode rest
  end%N.

(** The index of a character in the alphabet ([None]: not a legal
    character). *)
Fixpoint index_of (c : ascii) (l : list ascii) (i : N) : option N :=
  match l with
  | [] => None
  | x :: t => if Ascii.eqb c x then Some i else index_of c t (i + 1)%N
  end.

Definition unbase64 (c : ascii) : option N :=
  if Ascii.eqb c "-" then Some 62%N
  else if Ascii.eqb c "_" then Some 63%N
  else index_of c base64_alphabet 0.

(** The six-bit values read from a text, up to the first "=". *)
Fixpoint sextets (text : list ascii) : list N :=
  match text with
  | [] => []
  | c :: t =>
      match unbase64 c with
      | Some n => n :: sextets t
      | None => if Ascii.eqb c "=" then [] else sextets t
      end
  end.

Definition byte_of_N (n : N) : byte :=
  match Byte.of_N (n mod 256) with Some b => b | None => x00 end.

Fixpoint base64_bytes (values : list N) : list byte :=
  match values with
  | a :: b :: c :: d :: rest =>
      byte_of_N (a * 4 + b / 16) :: byte_of_N (b mod 16 * 16 + c / 4)
      :: byte_of_N (c mod 4 * 64 + d) :: base64_bytes rest
  | [a; b; c] =>
      [byte_of_N (a * 4 + b / 16); byte_of_N (b mod 16 * 16 + c / 4)]
  | [a; b] => [byte_of_N (a * 4 + b / 16)]
  | _ => []
  end%N.

Definition base64_decode (text : string) : chunk :=
  base64_bytes (sextets (list_ascii_of_string text)).

(** *** Audio in WebSocket messages *)

(** A value of type [unknown], as far as [typeof] tells values apart. *)
Inductive unknown : Type :=
| UString (s : string)
| UNumber (x : float)
| UBool (b : bool)
| UUndefined
| UObject.

(** [WSMessage] of src/types.ts. *)
Inductive WSMessageType : Type :=
| ws_audio | ws_text | ws_transcript | ws_response | ws_error | ws_ping
| ws_pong | ws_config.

Record WSMessage : Type := {
  ws_type : WSMessageType;
  ws_data : unknown;
  ws_timestamp : option Z;
  ws_id : option string
}.

(** [generateId]: [now] is [Date.now()] and [suffix] is
    [Math.random().toString(36).substr(2, 9)]. *)
Definition generateId (now : Z) (suffix : string) : string :=
  (decimal_of_Z now ++ "-" ++ suffix)%string.

(** [createAudioMessage]: the clock is read for the timestamp and again
    for the id. *)
Definition createAudioMessage (p : AudioPipeline) (audioData : chunk)
  (now1 now2 : Z) (suffix : string) : WSMessage :=
  {| ws_type := ws_audio;
     ws_data := UString (string_of_list_ascii (base64_encode audioData));
     ws_timestamp := Some now1;
     ws_id := Some (generateId now2 suffix) |}.

(** [parseAudioMessage]: decoding does not throw, so the [catch] branch is
    never taken. *)
Definition parseAudioMessage (p : AudioPipeline) (message : WSMessage)
  : option chunk :=
  match ws_type message, ws_data message with
  | ws_audio, UString s => Some (base64_decode s)
  | _, _ => None
  end.

(** *** Voice activity detection *)

(** A [Uint8Array] seen as a view: the bytes of its [ArrayBuffer], the
    offset of the view in it and the length of the view.  An array made by
    [new Uint8Array(n)], by [new Uint8Array(bytes)] or by [flushBuffer]
    covers its whole buffer ([array_of]). *)
Record Uint8Array : Type := {
  buffer : list byte;
  byteOffset : nat;
  view_length : nat
}.

Definition array_of (c : chunk) : Uint8Array :=
  {| buffer := c; byteOffset := 0; view_length := length c |}.

(** [view.getInt16(i, true)] on [new DataView(buffer)]: the 16-bit
    little-endian signed integer at byte [i] of the buffer; a RangeError
    when bytes [i] and [i + 1] are not both inside it. *)
Definition getInt16 (buf : list byte) (i : nat) : result Z :=
  match nth_error buf i, nth_error buf (S i) with
  | Some lo, Some hi =>
      let u := (Z.of_N (Byte.to_N lo) + 256 * Z.of_N (Byte.to_N hi))%Z in
      Ok (if (u <? 32768)%Z then u else (u - 65536)%Z)
  | _, _ => Throw "RangeError: Offset is outside the bounds of the DataView"
  end.

(** The loop [for (let i = 0; i < audioData.length; i += 2)]: [n] is the
    number of iterations left. *)
Fixpoint energy_loop (buf : list byte) (n i : nat) (energy : float)
  : result float :=
  match n with
  | 0 => Ok energy
  | S n' =>
      let* sample := getInt16 buf i in
      energy_loop buf n' (i + 2)
                  (energy + float_of_Z sample * float_of_Z sample)%float
  end.

Record VADResult : Type := {
  hasSpeech : bool;
  vad_confidence : float
}.

Definition applyVAD (p : AudioPipeline) (audioData : Uint8Array)
  : result VADResult :=
  if negb (enableVAD (config p))
  then Ok {| hasSpeech := true; vad_confidence := 1%float |}
  else
    (* Simple energy-based VAD *)
    let len := view_length audioData in
    let* energy := energy_loop (buffer audioData) (Nat.div2 (S len)) 0 0 in
    let energy :=
      PrimFloat.sqrt (energy / (of_uint63 (Uint63.of_Z (Z.of_nat len)) / 2))%float in
    let normalizedEnergy := (energy / 32768)%float in
    Ok {| hasSpeech := (vadThreshold (config p) <? normalizedEnergy)%float;
          vad_confidence :=
            Math_min (normalizedEnergy / (vadThreshold (config p) * 2))%float
                     1%float |}.

(** *** Vocabulary of the statements *)

(** A call of one of the methods that change the pipeline. *)
Inductive operation : Type :=
| Start
| Stop
| ProcessAudioChunk (c : chunk)
| FlushBuffer.

Definition perform (p : AudioPipeline) (o : operation)
  : result (AudioPipeline * list effect) :=
  match o with
  | Start => Ok (start p)
  | Stop => stop p
  | ProcessAudioChunk c => processAudioChunk p c
  | FlushBuffer => let* (_, p', effs) := flushBuffer p in Ok (p', effs)
  end.

Fixpoint perform_all (p : AudioPipeline) (os : list operation)
  : result (AudioPipeline * list effect) :=
  match os with
  | [] => Ok (p, [])
  | o :: rest =>
      let* (p1, e1) := perform p o in
      let* (p2, e2) := perform_all p1 rest in
      Ok (p2, e1 ++ e2)
  end.

(** The payloads of the "chunk" events of a trace. *)
Fixpoint chunks (effs : list effect) : list chunk :=
  match effs with
  | [] => []
  | Emit (EChunk c) :: rest => c :: chunks rest
  | _ :: rest => chunks rest
  end.

(** [sampleCount] is the number of buffered bytes, and nothing is buffered
    while the pipeline is not streaming. *)
Definition in_step (p : AudioPipeline) : Prop :=
  sampleCount p = Z.of_nat (length (concat (audioBuffer p))) /\
  (isStreaming p = false -> audioBuffer p = []).

End AudioPipeline.

(** ** Regular expressions of src/core/lead-extractor.ts

    A backtracking matcher in continuation-passing style with the
    priorities of ECMAScript: alternatives left to right, quantifiers
    greedy.  Texts are strings of code units below 256; the patterns of
    the extractor use ASCII atoms only, so case-insensitive matching is
    the ASCII one on such texts.  Every unbounded quantifier of the source
    patterns ranges over a single character class, which is the shape
    [Rep] has. *)

Module Regex.

Definition code (c : ascii) : nat := nat_of_ascii c.

Definition range (lo hi : ascii) (c : ascii) : bool :=
  (code lo <=? code c) && (code c <=? code hi).

Definition chr (a : ascii) (c : ascii) : bool := Ascii.eqb a c.

Definition one_of (s : string) (c : ascii) : bool :=
  existsb (Ascii.eqb c) (list_ascii_of_string s).

Definition union (p q : ascii -> bool) (c : ascii) : bool := p c || q c.

Definition neg (p : ascii -> bool) (c : ascii) : bool := negb (p c).

(** [\d], [\w] and [\s]. *)
Definition digit : ascii -> bool := range "0" "9".

Definition word : ascii -> bool :=
  union (range "a" "z") (union (range "A" "Z") (union digit (chr "_"))).

Definition space (c : ascii) : bool :=
  existsb (Nat.eqb (code c)) [9; 10; 11; 12; 13; 32; 160].

Definition upcase (c : ascii) : ascii :=
  if range "a" "z" c then ascii_of_nat (code c - 32) else c.

Definition downcase (c : ascii) : ascii :=
  if range "A" "Z" c then ascii_of_nat (code c + 32) else c.

(** A class or literal under the [i] flag. *)
Definition ci (p : ascii -> bool) (c : ascii) : bool :=
  p (upcase c) || p (downcase c).

Inductive regex : Type :=
| Eps
| Chr (p : ascii -> bool)
| Seq (a b : regex)
| Alt (a b : regex)
| Opt (a : regex)
| Rep (p : ascii -> bool) (lo : nat) (hi : option nat)
| Grp (a : regex)
| WordB
| Bol.

Declare Scope regex_scope.

Delimit Scope regex_scope with re.

Bind Scope regex_scope with regex.

Infix "⋅" := Seq (at level 40, left associativity) : regex_scope.

Infix "∣" := Alt (at level 50, left associativity) : regex_scope.

(** [p+] and [p{n}]. *)
Definition plus (p : ascii -> bool) : regex := Rep p 1 None.

Definition times (p : ascii -> bool) (n : nat) : regex := Rep p n (Some n).

(** A literal, with and without the [i] flag. *)
Fixpoint lit (s : string) : regex :=
  match s with
  | EmptyString => Eps
  | String c EmptyString => Chr (chr c)
  | String c t => Seq (Chr (chr c)) (lit t)
  end.

Fixpoint lit_ci (s : string) : regex :=
  match s with
  | EmptyString => Eps
  | String c EmptyString => Chr (ci (chr c))
  | String c t => Seq (Chr (ci (chr c))) (lit_ci t)
  end.

(** A position in the subject: its index, the code unit before it, what
    is left, and the text of capture group 1 (no source pattern has more
    than one group). *)
Record mstate : Type := {
  pos : nat;
  prev : option ascii;
  rest : list ascii;
  cap : option (list ascii)
}.

Definition is_word (o : option ascii) : bool :=
  match o with Some c => word c | None => false end.

Definition at_boundary (s : mstate) : bool :=
  xorb (is_word (prev s)) (is_word (hd_error (rest s))).

(** Greedy repetition of a class: as many as allowed first, then fewer. *)
Fixpoint rep (p : ascii -> bool) (lo : nat) (hi : option nat)
  (k : mstate -> option mstate)
  (rs : list ascii) (i : nat) (pv : option ascii) (cp : option (list ascii))
  {struct rs} : option mstate :=
  let here := {| pos := i; prev := pv; rest := rs; cap := cp |} in
  let stop := match lo with 0 => k here | S _ => None end in
  match hi with
  | Some 0 => stop
  | _ =>
      match rs with
      | c :: t =>
          if p c then
            match rep p (Nat.pred lo) (option_map Nat.pred hi) k
                      t (S i) (Some c) cp with
            | Some r => Some r
            | None => stop
            end
          else stop
      | [] => stop
      end
  end.

Fixpoint m (r : regex) (k : mstate -> option mstate) (s : mstate)
  : option mstate :=
  match r with
  | Eps => k s
  | Chr p =>
      match rest s with
      | c :: t =>
          if p c
          then k {| pos := S (pos s); prev := Some c; rest := t; cap := cap s |}
          else None
      | [] => None
      end
  | Seq a b => m a (m b k) s
  | Alt a b =>
      match m a k s with
      | Some r => Some r
      | None => m b k s
      end
  | Opt a =>
      match m a k s with
      | Some r => Some r
      | None => k s
      end
  | Rep p lo hi => rep p lo hi k (rest s) (pos s) (prev s) (cap s)
  | Grp a =>
      m a (fun s' =>
             k {| pos := pos s'; prev := prev s'; rest := rest s';
                  cap := Some (firstn (pos s' - pos s) (rest s)) |}) s
  | WordB => if at_boundary s then k s else None
  | Bol => match pos s with 0 => k s | S _ => None end
  end.

(** What [exec] returns: the index of the match, its text, the text of
    group 1 and the index after the match. *)
Record match_result : Type := {
  index : nat;
  matched : string;
  group1 : option string;
  endIndex : nat
}.

(** The search loop of RegExpBuiltinExec: the first index, from the
    current one on, at which the pattern matches. *)
Fixpoint search (r : regex) (rs : list ascii) (i : nat) (pv : option ascii)
  {struct rs} : option match_result :=
  match m r Some {| pos := i; prev := pv; rest := rs; cap := None |} with
  | Some e =>
      Some {| index := i;
              matched := string_of_list_ascii (firstn (pos e - i) rs);
              group1 := option_map string_of_list_ascii (cap e);
              endIndex := pos e |}
  | None =>
      match rs with
      | [] => None
      | c :: t => search r t (S i) (Some c)
      end
  end.

Definition exec (r : regex) (s : string) (lastIndex : nat)
  : option match_result :=
  let l := list_ascii_of_string s in
  if length l <? lastIndex then None
  else search r (skipn lastIndex l) lastIndex
              (match lastIndex with 0 => None | S j => nth_error l j end).

(** [s.match(r)] for [r] without the [g] flag: the first match. *)
Definition js_match (r : regex) (s : string) : option match_result :=
  exec r s 0.

(** [r.test(s)] for [r] with the [g] flag: the search starts at
    [lastIndex], which is left after the match, or at 0 on failure. *)
Definition test_global (r : regex) (lastIndex : nat) (s : string)
  : bool * nat :=
  match exec r s lastIndex with
  | Some res => (true, endIndex res)
  | None => (false, 0)
  end.

(** [s.match(r)] for [r] with the [g] flag: [lastIndex] is set to 0, the
    matches are collected left to right, and [lastIndex] is 0 at the end.
    The result is null when there is no match.  No more than
    [length s + 1] matches exist, as each one ends further right. *)
Fixpoint match_all (fuel : nat) (r : regex) (s : string) (lastIndex : nat)
  : list string :=
  match fuel with
  | 0 => []
  | S fuel' =>
      match exec r s lastIndex with
      | None => []
      | Some res =>
          matched res ::
          match_all fuel' r s
            (if endIndex res =? index res then S (endIndex res)
             else endIndex res)
      end
  end.

Definition js_match_global (r : regex) (s : string) : option (list string) :=
  match match_all (S (String.length s)) r s 0 with
  | [] => None
  | ms => Some ms
  end.

(** [s.replace(/[class]/g, '')]: every code unit of the class is removed. *)
Definition remove_all (p : ascii -> bool) (s : string) : string :=
  string_of_list_ascii (filter (neg p) (list_ascii_of_string s)).

(** [s.trim()] *)
Fixpoint drop_space (l : list ascii) : list ascii :=
  match l with
  | c :: t => if space c then drop_space t else l
  | [] => []
  end.

Definition trim (s : string) : string :=
  string_of_list_ascii
    (rev (drop_space (rev (drop_space (list_ascii_of_string s))))).

(** *** The words of a pattern

    [lang r w]: the text [w] has the shape of the pattern [r], anchors and
    word boundaries left aside. *)

Fixpoint lang (r : regex) (w : list ascii) : Prop :=
  match r with
  | Eps | WordB | Bol => w = []
  | Chr p => exists c, w = [c] /\ p c = true
  | Seq a b => exists u v, w = u ++ v /\ lang a u /\ lang b v
  | Alt a b => lang a w \/ lang b w
  | Opt a => w = [] \/ lang a w
  | Rep p lo hi =>
      lo <= length w /\
      match hi with Some h => length w <= h | None => True end /\
      forallb p w = true
  | Grp a => lang a w
  end.

(** [s'] is [s] after the text [w]. *)
Definition after (s : mstate) (w : list ascii) (s' : mstate) : Prop :=
  rest s = w ++ rest s' /\ pos s' = pos s + length w.

End Regex.

(** ** Shared types (src/types.ts) *)

Module Types.

Inductive role : Type := system | user | assistant | function.

Definition role_eqb (a b : role) : bool :=
  match a, b with
  | system, system | user, user | assistant, assistant
  | function, function => true
  | _, _ => false
  end.

(** The values stored in a [Record<string, unknown>]. *)
Inductive jsval : Type :=
| VUndefined
| VString (s : string)
| VNumber (x : float)
| VBool (b : bool).

(** An object used as a map: its own keys in insertion order. *)
Abbreviation record := (list (string * jsval)).

Record ConversationMessage : Type := {
  msg_role : role;
  content : string;
  timestamp : option Z;
  metadata : option record
}.

Record TranscriptSegment : Type := {
  seg_id : string;
  text : string;
  isFinal : bool;
  seg_timestamp : Z;
  speaker : option string;
  seg_confidence : option float
}.

Record Confidence : Type := {
  c_name : option float;
  c_email : option float;
  c_phone : option float
}.

Record LeadInfo : Type := {
  name : option string;
  email : option string;
  phone : option string;
  company : option string;
  notes : option string;
  confidence : Confidence
}.

Record ConversationState : Type := {
  id : string;
  messages : list ConversationMessage;
  isActive : bool;
  startedAt : Z;
  lastActivityAt : Z;
  state_metadata : option record
}.

(** Truthiness of an optional string: present and not empty. *)
Definition truthy (o : option string) : bool :=
  match o with
  | Some EmptyString | None => false
  | Some (String _ _) => true
  end.

End Types.

(** ** LeadExtractor (src/core/lead-extractor.ts) *)

Module LeadExtractor.

Import Regex Types.

Local Open Scope regex_scope.

(** *** The patterns *)

Definition alnum : ascii -> bool :=
  union (range "A" "Z") (union (range "a" "z") (range "0" "9")).

(** [/\b[A-Za-z0-9._%+-]+@[A-Za-z0-9.-]+\.[A-Z|a-z]{2,}\b/g] *)
Definition email_pattern : regex :=
  WordB ⋅ plus (union alnum (one_of "._%+-")) ⋅ Chr (chr "@")
  ⋅ plus (union alnum (one_of ".-")) ⋅ Chr (chr ".")
  ⋅ Rep (union (range "A" "Z") (union (chr "|") (range "a" "z"))) 2 None
  ⋅ WordB.

(** [[\s.-]] *)
Definition sep : ascii -> bool := union space (one_of ".-").

(** [/(\+?1?[\s.-]?\(?\d{3}\)?[\s.-]?\d{3}[\s.-]?\d{4})/g] *)
Definition phone_pattern : regex :=
  Grp (Opt (Chr (chr "+")) ⋅ Opt (Chr (chr "1")) ⋅ Opt (Chr sep)
       ⋅ Opt (Chr (chr "(")) ⋅ times digit 3 ⋅ Opt (Chr (chr ")"))
       ⋅ Opt (Chr sep) ⋅ times digit 3 ⋅ Opt (Chr sep) ⋅ times digit 4).

(** [[A-Z][a-z]+] under the [i] flag. *)
Definition capitalized : regex :=
  Chr (ci (range "A" "Z")) ⋅ plus (ci (range "a" "z")).

(** [([A-Z][a-z]+(?:\s+[A-Z][a-z]+)?)] under the [i] flag. *)
Definition full_name : regex :=
  Grp (capitalized ⋅ Opt (plus space ⋅ capitalized)).

Definition nameIndicators : list regex :=
  [ (* /my name(?:'s| is)\s+(...)/i *)
    lit_ci "my name" ⋅ (lit_ci "'s" ∣ lit_ci " is") ⋅ plus space ⋅ full_name;
    (* /i(?:'m| am)\s+(...)/i *)
    lit_ci "i" ⋅ (lit_ci "'m" ∣ lit_ci " am") ⋅ plus space ⋅ full_name;
    (* /this is\s+(...)/i *)
    lit_ci "this is" ⋅ plus space ⋅ full_name;
    (* /call me\s+(...)/i *)
    lit_ci "call me" ⋅ plus space ⋅ full_name;
    (* /i(?:'m| am) called\s+(...)/i *)
    lit_ci "i" ⋅ (lit_ci "'m" ∣ lit_ci " am") ⋅ lit_ci " called"
    ⋅ plus space ⋅ full_name ].

(** [/^(?:hi|hello|hey)\s+([A-Z][a-z]+)/i] *)
Definition greeting_pattern : regex :=
  Bol ⋅ (lit_ci "hi" ∣ lit_ci "hello" ∣ lit_ci "hey") ⋅ plus space
  ⋅ Grp capitalized.

(** [[^,.]] under the [i] flag. *)
Definition not_comma_dot : ascii -> bool := neg (ci (one_of ",.")).

Definition companyIndicators : list regex :=
  [ (* /work (?:at|for)\s+([A-Z][^,.]+)/i *)
    lit_ci "work " ⋅ (lit_ci "at" ∣ lit_ci "for") ⋅ plus space
    ⋅ Grp (Chr (ci (range "A" "Z")) ⋅ plus not_comma_dot);
    (* /company is\s+([A-Z][^,.]+)/i *)
    lit_ci "company is" ⋅ plus space
    ⋅ Grp (Chr (ci (range "A" "Z")) ⋅ plus not_comma_dot);
    (* /from\s+([A-Z][^,.]+(?:inc|llc|corp|company|co\.|ltd)\.?)/i *)
    lit_ci "from" ⋅ plus space
    ⋅ Grp (Chr (ci (range "A" "Z")) ⋅ plus not_comma_dot
           ⋅ (lit_ci "inc" ∣ lit_ci "llc" ∣ lit_ci "corp" ∣ lit_ci "company"
              ∣ lit_ci "co." ∣ lit_ci "ltd")
           ⋅ Opt (Chr (ci (chr ".")))) ].

(** *** The extractor *)

(** A [Partial<LeadInfo>] as an object literal: for each key, whether it is
    an own property ([Some v]) and its value ([v = None] is [undefined]).
    The [confidence] key is left out: nothing reads it back. *)
Record Updates : Type := {
  u_name : option (option string);
  u_email : option (option string);
  u_phone : option (option string);
  u_company : option (option string);
  u_notes : option (option string)
}.

Definition no_updates : Updates :=
  {| u_name := None; u_email := None; u_phone := None; u_company := None;
     u_notes := None |}.

(** Reading a key of [this.currentLead]: [None] is [undefined]. *)
Record CurrentLead : Type := {
  l_name : option string;
  l_email : option string;
  l_phone : option string;
  l_company : option string;
  l_notes : option string
}.

Definition empty_lead : CurrentLead :=
  {| l_name := None; l_email := None; l_phone := None; l_company := None;
     l_notes := None |}.

Record LeadExtractorConfig : Type := {
  minConfidence : float;
  extractOnEveryMessage : bool;
  extractOnConversationEnd : bool;
  customExtractors : list (string -> Updates)
}.

(** The state of an extractor.  [emailLastIndex] is the [lastIndex] of
    [this.patterns.email], a regular expression object with the [g] flag
    that [validateEmail] runs with [test].  The phone pattern is only
    used through [String.prototype.match], which does not depend on its
    [lastIndex] and leaves it at 0. *)
Record LeadExtractor : Type := {
  config : LeadExtractorConfig;
  currentLead : CurrentLead;
  emailLastIndex : nat
}.

Inductive effect : Type :=
| Emit_lead (lead : LeadInfo)
| Log (l : level) (msg : string).

#[warnings="-inexact-float"]
Definition default_config : LeadExtractorConfig :=
  {| minConfidence := 0.7%float; extractOnEveryMessage := true;
     extractOnConversationEnd := true; customExtractors := [] |}.

Definition constructor (c : LeadExtractorConfig) : LeadExtractor :=
  {| config := c; currentLead := empty_lead; emailLastIndex := 0 |}.

(** [{ ...target, ...source }] and [Object.assign(target, source)] on one
    key. *)
Definition assign {A : Type} (target : A) (source : option A) : A :=
  match source with Some v => v | None => target end.

Definition assign_updates (target source : Updates) : Updates :=
  {| u_name := assign (u_name target) (option_map Some (u_name source));
     u_email := assign (u_email target) (option_map Some (u_email source));
     u_phone := assign (u_phone target) (option_map Some (u_phone source));
     u_company := assign (u_company target) (option_map Some (u_company source));
     u_notes := assign (u_notes target) (option_map Some (u_notes source)) |}.

Definition merge (lead : CurrentLead) (u : Updates) : CurrentLead :=
  {| l_name := assign (l_name lead) (u_name u);
     l_email := assign (l_email lead) (u_email u);
     l_phone := assign (l_phone lead) (u_phone u);
     l_company := assign (l_company lead) (u_company u);
     l_notes := assign (l_notes lead) (u_notes u) |}.

(** The first pattern of the list that matches: group 1, trimmed. *)
Fixpoint first_capture (patterns : list regex) (text : string)
  : option string :=
  match patterns with
  | [] => None
  | p :: rest =>
      match js_match p text with
      | Some res => option_map trim (group1 res)
      | None => first_capture rest text
      end
  end.

Definition extractName (text : string) : option string :=
  match first_capture nameIndicators text with
  | Some n => Some n
  | None => first_capture [greeting_pattern] text
  end.

Definition extractCompany (text : string) : option string :=
  first_capture companyIndicators text.

Definition starts_with_1 (s : string) : bool :=
  match s with
  | String c _ => Ascii.eqb c "1"
  | EmptyString => false
  end.

Definition normalizePhone (phone : string) : string :=
  (* Remove non-numeric characters except + *)
  let digits := remove_all (neg (union digit (chr "+"))) phone in
  if (String.length digits =? 11) && starts_with_1 digits
  then ("+" ++ digits)%string
  else if String.length digits =? 10
  then ("+1" ++ digits)%string
  else digits.

Definition validateEmail (e : LeadExtractor) (email : string)
  : bool * LeadExtractor :=
  let '(ok, li) := test_global email_pattern (emailLastIndex e) email in
  (ok, {| config := config e; currentLead := currentLead e;
          emailLastIndex := li |}).

Definition validatePhone (phone : string) : bool :=
  let digits := remove_all (neg digit) phone in
  (10 <=? String.length digits) && (String.length digits <=? 15).

Definition value (o : option string) : string :=
  match o with Some s => s | None => EmptyString end.

#[warnings="-inexact-float"]
Definition buildLeadInfo (e : LeadExtractor) : LeadInfo * LeadExtractor :=
  let lead := currentLead e in
  let cname := if truthy (l_name lead) then Some 0.85%float else None in
  let '(cemail, e1) :=
    if truthy (l_email lead)
    then let '(ok, e1) := validateEmail e (value (l_email lead)) in
         (Some (if ok then 1.0%float else 0.5%float), e1)
    else (None, e) in
  let cphone :=
    if truthy (l_phone lead)
    then Some (if validatePhone (value (l_phone lead))
               then 1.0%float else 0.5%float)
    else None in
  ({| name := l_name lead; email := l_email lead; phone := l_phone lead;
      company := l_company lead; notes := l_notes lead;
      confidence := {| c_name := cname; c_email := cemail;
                       c_phone := cphone |} |},
   e1).

Definition hasMinimumInfo (lead : LeadInfo) : bool :=
  let score := (if truthy (name lead) then 1 else 0)
               + (if truthy (email lead) then 1 else 0)
               + (if truthy (phone lead) then 1 else 0) in
  1 <=? score.

(** The built-in extraction steps of [processMessage] and the debug line
    of each. *)
Definition builtin_updates (text : string) : Updates * list effect :=
  let emails := js_match_global email_pattern text in
  let '(u1, g1) :=
    match emails with
    | Some (first :: _) =>
        ({| u_name := None; u_email := Some (Some first); u_phone := None;
            u_company := None; u_notes := None |},
         [Log LDebug ("Extracted email: " ++ first)%string])
    | _ => (no_updates, [])
    end in
  let phones := js_match_global phone_pattern text in
  let '(u2, g2) :=
    match phones with
    | Some (first :: _) =>
        let p := normalizePhone first in
        ({| u_name := u_name u1; u_email := u_email u1;
            u_phone := Some (Some p); u_company := u_company u1;
            u_notes := u_notes u1 |},
         [Log LDebug ("Extracted phone: " ++ p)%string])
    | _ => (u1, [])
    end in
  let '(u3, g3) :=
    match extractName text with
    | Some (String c n) =>
        ({| u_name := Some (Some (String c n)); u_email := u_email u2;
            u_phone := u_phone u2; u_company := u_company u2;
            u_notes := u_notes u2 |},
         [Log LDebug ("Extracted name: " ++ String c n)%string])
    | _ => (u2, [])
    end in
  let '(u4, g4) :=
    match extractCompany text with
    | Some (String c n) =>
        ({| u_name := u_name u3; u_email := u_email u3;
            u_phone := u_phone u3; u_company := Some (Some (String c n));
            u_notes := u_notes u3 |},
         [Log LDebug ("Extracted company: " ++ String c n)%string])
    | _ => (u3, [])
    end in
  (u4, g1 ++ g2 ++ g3 ++ g4).

Definition processMessage (e : LeadExtractor) (message : ConversationMessage)
  : option LeadInfo * LeadExtractor * list effect :=
  if negb (role_eqb (msg_role message) user) then (None, e, [])
  else
    let text := content message in
    let '(updates, logs) := builtin_updates text in
    (* Apply custom extractors *)
    let updates :=
      fold_left (fun u extractor => assign_updates u (extractor text))
                (customExtractors (config e)) updates in
    (* Merge updates; the two global matches left lastIndex at 0 *)
    let e1 := {| config := config e;
                 currentLead := merge (currentLead e) updates;
                 emailLastIndex := 0 |} in
    let '(lead, e2) := buildLeadInfo e1 in
    if hasMinimumInfo lead && extractOnEveryMessage (config e)
    then (Some lead, e2, logs ++ [Emit_lead lead])
    else (None, e2, logs).

Definition reset (e : LeadExtractor) : LeadExtractor * list effect :=
  ({| config := config e; currentLead := empty_lead;
      emailLastIndex := emailLastIndex e |},
   [Log LDebug "Lead extractor reset"]).

(** The loop of [processConversation]. *)
Fixpoint replay (e : LeadExtractor) (msgs : list ConversationMessage)
  : LeadExtractor * list effect :=
  match msgs with
  | [] => (e, [])
  | message :: rest =>
      let '(_, e1, g1) := processMessage e message in
      let '(e2, g2) := replay e1 rest in
      (e2, g1 ++ g2)
  end.

Definition processConversation (e : LeadExtractor) (state : ConversationState)
  : option LeadInfo * LeadExtractor * list effect :=
  let '(e0, g0) := reset e in
  let '(e1, g1) := replay e0 (messages state) in
  let '(lead, e2) := buildLeadInfo e1 in
  if hasMinimumInfo lead
  then (Some lead, e2, g0 ++ g1 ++ [Emit_lead lead])
  else (None, e2, g0 ++ g1).

Definition getCurrentLead (e : LeadExtractor) : LeadInfo * LeadExtractor :=
  buildLeadInfo e.

Definition hasCompleteLead (e : LeadExtractor) : bool * LeadExtractor :=
  let '(lead, e1) := buildLeadInfo e in
  (truthy (name lead) && truthy (email lead) && truthy (phone lead), e1).

(** *** Vocabulary of the statements *)

Definition user_message (t : string) : ConversationMessage :=
  {| msg_role := user; content := t; timestamp := None; metadata := None |}.

Definition history (msgs : list ConversationMessage) : ConversationState :=
  {| id := "c1"; messages := msgs; isActive := false; startedAt := 0;
     lastActivityAt := 0; state_metadata := None |}.

(** Two extractors are alike when they agree on everything, or agree on
    the configuration and hold no field at all (they may then differ in
    the position left in the email pattern). *)
Definition alike (e e' : LeadExtractor) : Prop :=
  e = e' \/
  (config e = config e' /\ currentLead e = empty_lead
   /\ currentLead e' = empty_lead).

#[warnings="-inexact-float"]
Definition lead_NewName : LeadInfo :=
  {| name := Some "NewName"%string; email := None; phone := None; company := None;
     notes := None;
     confidence := {| c_name := Some 0.85%float; c_email := None;
                      c_phone := None |} |}.

(** The class kept by [normalizePhone]: [\d] and [+]. *)
Definition kept : ascii -> bool := union digit (chr "+").

(** The number of digits of a string, as [validatePhone] counts them. *)
Definition digit_count (s : string) : nat :=
  String.length (remove_all (neg digit) s).


(** *** Vocabulary of the statements, continued *)

Definition is_user (m : ConversationMessage) : bool :=
  role_eqb (msg_role m) user.

(** A conversation state with the user messages of its history only. *)
Definition user_messages_only (st : ConversationState) : ConversationState :=
  {| id := id st; messages := filter is_user (messages st);
     isActive := isActive st; startedAt := startedAt st;
     lastActivityAt := lastActivityAt st;
     state_metadata := state_metadata st |}.

(** The leads of the "lead" events of a trace. *)
Fixpoint emitted_leads (g : list effect) : list LeadInfo :=
  match g with
  | [] => []
  | Emit_lead lead :: rest => lead :: emitted_leads rest
  | _ :: rest => emitted_leads rest
  end.

(** Two extractors that hold the same fields and agree on
    [extractOnEveryMessage] and [customExtractors]: they may differ in
    [minConfidence] and [extractOnConversationEnd]. *)
Definition same_but_unused_settings (e e' : LeadExtractor) : Prop :=
  currentLead e = currentLead e' /\
  emailLastIndex e = emailLastIndex e' /\
  extractOnEveryMessage (config e) = extractOnEveryMessage (config e') /\
  customExtractors (config e) = customExtractors (config e').

(** A "+" followed by ten or eleven digits. *)
Definition plus_and_digits (s : string) : bool :=
  match s with
  | String "+" d =>
      forallb digit (list_ascii_of_string d)
      && ((String.length d =? 10) || (String.length d =? 11))
  | _ => false
  end.

(** The character classes of the email pattern. *)
Definition email_local : ascii -> bool := union alnum (one_of "._%+-").

Definition email_domain : ascii -> bool := union alnum (one_of ".-").

Definition email_tld : ascii -> bool :=
  union (range "A" "Z") (union (chr "|") (range "a" "z")).

Definition all_in (p : ascii -> bool) (s : string) : bool :=
  forallb p (list_ascii_of_string s).

(** Some contact field is populated. *)
Definition informed (lead : CurrentLead) : bool :=
  truthy (l_name lead) || truthy (l_email lead) || truthy (l_phone lead).

End LeadExtractor.

(** ** ConversationManager (src/core/conversation-manager.ts)

    The numbers of the configuration are integers here.  Values returned
    by the getters are values: what a caller can do through the references
    the getters really return is the matter of [Store] below. *)

Module ConversationManager.

Import Types.

Record ConversationManagerConfig : Type := {
  maxMessages : Z;
  maxConversationDuration : Z;
  silenceTimeoutMs : Z;
  enableMetadata : bool
}.

Record PartialConfig : Type := {
  p_maxMessages : option Z;
  p_maxConversationDuration : option Z;
  p_silenceTimeoutMs : option Z;
  p_enableMetadata : option bool
}.

(** [silenceTimer] tells whether the field holds a timer ([null]
    otherwise).  The callback of a timer does not assign the field, so the
    timer it holds may have fired already. *)
Record ConversationManager : Type := {
  state : ConversationState;
  config : ConversationManagerConfig;
  silenceTimer : bool
}.

Inductive event : Type :=
| EStarted (s : ConversationState)
| EEnded (s : ConversationState)
| EMessage (m : ConversationMessage)
| ETranscript (seg : TranscriptSegment)
| ECleared.

Inductive effect : Type :=
| Emit (e : event)
| Log (l : level) (msg : string)
| SetTimeout (ms : Z)
| ClearTimeout.

Definition nullish {A : Type} (o : option A) (d : A) : A :=
  match o with Some a => a | None => d end.

(** [createNewConversation]: [newId] is what [generateConversationId]
    returns and [now] is [Date.now()]. *)
Definition createNewConversation (newId : string) (now : Z)
  : ConversationState :=
  {| id := newId; messages := []; isActive := true; startedAt := now;
     lastActivityAt := now; state_metadata := Some [] |}.

Definition constructor (c : PartialConfig) (newId : string) (now : Z)
  : ConversationManager :=
  {| state := createNewConversation newId now;
     config := {| maxMessages := nullish (p_maxMessages c) 100%Z;
                  maxConversationDuration :=
                    nullish (p_maxConversationDuration c) 3600%Z;
                  silenceTimeoutMs := nullish (p_silenceTimeoutMs c) 30000%Z;
                  enableMetadata := nullish (p_enableMetadata c) true |};
     silenceTimer := false |}.

Definition set_state (m : ConversationManager) (s : ConversationState)
  : ConversationManager :=
  {| state := s; config := config m; silenceTimer := silenceTimer m |}.

Definition clearSilenceTimer (m : ConversationManager)
  : ConversationManager * list effect :=
  if silenceTimer m
  then ({| state := state m; config := config m; silenceTimer := false |},
        [ClearTimeout])
  else (m, []).

Definition resetSilenceTimer (m : ConversationManager)
  : ConversationManager * list effect :=
  let '(m1, g1) := clearSilenceTimer m in
  if (0 <? silenceTimeoutMs (config m1))%Z
  then ({| state := state m1; config := config m1; silenceTimer := true |},
        g1 ++ [SetTimeout (silenceTimeoutMs (config m1))])
  else (m1, g1).

Definition start (m : ConversationManager) (newId : string) (now : Z)
  : ConversationState * ConversationManager * list effect :=
  let m1 := set_state m (createNewConversation newId now) in
  let '(m2, g2) := resetSilenceTimer m1 in
  (state m2, m2,
   [Log LInfo ("Started new conversation: " ++ newId)%string;
    Emit (EStarted (state m1))] ++ g2).

(** [end()]; [end] is a keyword here. *)
Definition end_ (m : ConversationManager)
  : ConversationState * ConversationManager * list effect :=
  let s := state m in
  let m1 := set_state m
              {| id := id s; messages := messages s; isActive := false;
                 startedAt := startedAt s; lastActivityAt := lastActivityAt s;
                 state_metadata := state_metadata s |} in
  let '(m2, g2) := clearSilenceTimer m1 in
  (state m2, m2,
   g2 ++ [Log LInfo ("Ended conversation: " ++ id s)%string;
          Emit (EEnded (state m2))]).

Definition role_name (r : role) : string :=
  match r with
  | system => "system" | user => "user" | assistant => "assistant"
  | function => "function"
  end.

(** [addMessage]; [now1] and [now2] are its two readings of the clock. *)
Definition addMessage (m : ConversationManager) (r : role) (text : string)
  (meta : option record) (now1 now2 : Z)
  : ConversationManager * list effect :=
  if negb (isActive (state m))
  then (m, [Log LWarn "Attempted to add message to inactive conversation"])
  else
    let message :=
      {| msg_role := r; content := text; timestamp := Some now1;
         metadata := if enableMetadata (config m) then meta else None |} in
    let s := state m in
    let pushed := messages s ++ [message] in
    (* Trim messages if exceeding max *)
    let kept :=
      if (maxMessages (config m) <? Z.of_nat (length pushed))%Z
      then js_slice (- maxMessages (config m)) pushed
      else pushed in
    let m1 := set_state m
                {| id := id s; messages := kept; isActive := isActive s;
                   startedAt := startedAt s; lastActivityAt := now2;
                   state_metadata := state_metadata s |} in
    let '(m2, g2) := resetSilenceTimer m1 in
    (m2,
     [Emit (EMessage message)] ++ g2
     ++ [Log LDebug ("Added " ++ role_name r ++ " message: "
                     ++ String.substring 0 50 text ++ "...")%string]).

Definition opt_string (o : option string) : jsval :=
  match o with Some s => VString s | None => VUndefined end.

Definition opt_number (o : option float) : jsval :=
  match o with Some x => VNumber x | None => VUndefined end.

(** The object literal that [addTranscript] passes as metadata. *)
Definition transcript_metadata (segment : TranscriptSegment) : record :=
  [ ("transcriptId"%string, VString (seg_id segment));
    ("confidence"%string, opt_number (seg_confidence segment));
    ("speaker"%string, opt_string (speaker segment)) ].

Definition addTranscript (m : ConversationManager)
  (segment : TranscriptSegment) (now1 now2 : Z)
  : ConversationManager * list effect :=
  if negb (isActive (state m)) then (m, [])
  else
    let '(m1, g1) :=
      if isFinal segment
      then addMessage m user (text segment)
                      (Some (transcript_metadata segment)) now1 now2
      else (m, []) in
    (m1, g1 ++ [Emit (ETranscript segment)]).

Definition getState (m : ConversationManager) : ConversationState := state m.

Definition getMessages (m : ConversationManager) : list ConversationMessage :=
  messages (state m).

Definition getContextMessages (m : ConversationManager)
  (systemPrompt : option string) : list (string * string) :=
  (if truthy systemPrompt
   then [("system"%string, LeadExtractor.value systemPrompt)] else [])
  ++ map (fun x => (role_name (msg_role x), content x)) (messages (state m)).

Definition getLastMessages (m : ConversationManager) (count : Z)
  : list ConversationMessage :=
  js_slice (- count) (messages (state m)).

Definition clear (m : ConversationManager)
  : ConversationManager * list effect :=
  let s := state m in
  (set_state m
     {| id := id s; messages := []; isActive := isActive s;
        startedAt := startedAt s; lastActivityAt := lastActivityAt s;
        state_metadata := Some [] |},
   [Log LInfo "Conversation history cleared"; Emit ECleared]).

(** The "message" events of a trace. *)
Fixpoint emitted_messages (g : list effect) : list ConversationMessage :=
  match g with
  | [] => []
  | Emit (EMessage x) :: rest => x :: emitted_messages rest
  | _ :: rest => emitted_messages rest
  end.

(** One [addMessage] call: its arguments and its two clock readings. *)
Record call : Type := {
  c_role : role;
  c_content : string;
  c_metadata : option record;
  c_now1 : Z;
  c_now2 : Z
}.

Definition addCall (m : ConversationManager) (c : call)
  : ConversationManager * list effect :=
  addMessage m (c_role c) (c_content c) (c_metadata c) (c_now1 c) (c_now2 c).

(** The message a call stores when the conversation is active. *)
Definition message_of (cfg : ConversationManagerConfig) (c : call)
  : ConversationMessage :=
  {| msg_role := c_role c; content := c_content c;
     timestamp := Some (c_now1 c);
     metadata := if enableMetadata cfg then c_metadata c else None |}.

Fixpoint addCalls (m : ConversationManager) (cs : list call)
  : ConversationManager * list effect :=
  match cs with
  | [] => (m, [])
  | c :: rest =>
      let '(m1, g1) := addCall m c in
      let '(m2, g2) := addCalls m1 rest in
      (m2, g1 ++ g2)
  end.

(** *** Vocabulary of the statements *)

(** What [addMessage] keeps of the history after the push. *)
Definition trim (max : Z) (pushed : list ConversationMessage)
  : list ConversationMessage :=
  if (max <? Z.of_nat (length pushed))%Z then js_slice (- max) pushed
  else pushed.

(** *** Examples *)

Definition decimal (n : nat) : string :=
  NilEmpty.string_of_uint (Nat.to_uint n).

(** [addMessage('user', `Message ${i}`)] *)
Definition numbered (i : nat) : call :=
  {| c_role := user; c_content := ("Message " ++ decimal i)%string;
     c_metadata := None; c_now1 := Z.of_nat i; c_now2 := Z.of_nat i |}.

(** [new ConversationManager({ maxMessages, silenceTimeoutMs: 0 })] after
    [start()]. *)
Definition started (max : Z) (withMetadata : bool) : ConversationManager :=
  snd (fst (start (constructor
                     {| p_maxMessages := Some max;
                        p_maxConversationDuration := None;
                        p_silenceTimeoutMs := Some 0%Z;
                        p_enableMetadata := Some withMetadata |}
                     "conv-0" 0)
                  "conv-1" 0)).

(** C6 as written: a final segment becomes a message that carries the
    segment's id, confidence and speaker as metadata. *)
Definition final_segment_carries_metadata : Prop :=
  forall (m : ConversationManager) (seg : TranscriptSegment) (now1 now2 : Z),
    isActive (state m) = true ->
    isFinal seg = true ->
    exists msg,
      In msg (getMessages (fst (addTranscript m seg now1 now2))) /\
      msg_role msg = user /\ content msg = text seg /\
      metadata msg = Some (transcript_metadata seg).

Definition segment_1 (final : bool) : TranscriptSegment :=
  {| seg_id := "seg-1"; text := "I need help"; isFinal := final;
     seg_timestamp := 7; speaker := None; seg_confidence := None |}.

(** *** The other methods of the manager *)

(** [isValid()]; [now] is [Date.now()].  Times are integers below 2^53,
    so that their difference is exact; the division is the binary64 one. *)
Definition isValid (m : ConversationManager) (now : Z) : bool :=
  if negb (isActive (state m)) then false
  else
    let duration :=
      (float_of_Z (now - startedAt (state m)) / 1000)%float in
    if (float_of_Z (maxConversationDuration (config m))
        <? duration)%float
    then false
    else true.

(** Defining a property of an object: an own key keeps its place and gets
    the new value, a new key comes last.  (Keys that look like array
    indices are enumerated first by JavaScript whatever the order of
    insertion; the order of the keys matters to nothing here.) *)
Fixpoint set_key (k : string) (v : jsval) (r : record) : record :=
  match r with
  | [] => [(k, v)]
  | (k', v') :: rest =>
      if String.eqb k k' then (k, v) :: rest else (k', v') :: set_key k v rest
  end.

(** [{ ...target, ...source }]: the properties of [source] are defined,
    in order, on a copy of [target]. *)
Definition spread (target source : record) : record :=
  fold_left (fun acc kv => set_key (fst kv) (snd kv) acc) source target.

(** The own properties of an object that may be [undefined]. *)
Definition own (o : option record) : record :=
  match o with Some r => r | None => [] end.

(** Reading the property [k]: [None] when the object has no such key. *)
Definition get (r : record) (k : string) : option jsval :=
  option_map snd (find (fun kv => String.eqb k (fst kv)) r).

Definition updateMetadata (m : ConversationManager) (md : record)
  : ConversationManager :=
  if enableMetadata (config m)
  then
    let s := state m in
    set_state m
      {| id := id s; messages := messages s; isActive := isActive s;
         startedAt := startedAt s; lastActivityAt := lastActivityAt s;
         state_metadata :=
           Some (spread (own (state_metadata s)) md) |}
  else m.

(** *** Runs of calls *)

(** A call of one of the methods that change the manager, with the
    values it reads from the environment. *)
Inductive operation : Type :=
| Start (newId : string) (now : Z)
| End_
| AddMessage (c : call)
| AddTranscript (segment : TranscriptSegment) (now1 now2 : Z)
| Clear
| UpdateMetadata (md : record).

Definition perform (m : ConversationManager) (o : operation)
  : ConversationManager * list effect :=
  match o with
  | Start newId now => let '(_, m', g) := start m newId now in (m', g)
  | End_ => let '(_, m', g) := end_ m in (m', g)
  | AddMessage c => addCall m c
  | AddTranscript segment now1 now2 => addTranscript m segment now1 now2
  | Clear => clear m
  | UpdateMetadata md => (updateMetadata m md, [])
  end.

Fixpoint perform_all (m : ConversationManager) (os : list operation)
  : ConversationManager * list effect :=
  match os with
  | [] => (m, [])
  | o :: rest =>
      let '(m1, g1) := perform m o in
      let '(m2, g2) := perform_all m1 rest in
      (m2, g1 ++ g2)
  end.

(** Reading a trace against the field [silenceTimer]: [held] tells
    whether the field holds a timer.  Setting a timer while the field
    holds one, or clearing when it holds none, is a fault ([None]). *)
Fixpoint timer_after (held : bool) (g : list effect) : option bool :=
  match g with
  | [] => Some held
  | SetTimeout _ :: rest => if held then None else timer_after true rest
  | ClearTimeout :: rest => if held then timer_after false rest else None
  | _ :: rest => timer_after held rest
  end.

(** The delays of the timers set in a trace. *)
Fixpoint timeouts (g : list effect) : list Z :=
  match g with
  | [] => []
  | SetTimeout ms :: rest => ms :: timeouts rest
  | _ :: rest => timeouts rest
  end.

(** The events of a trace. *)
Fixpoint events (g : list effect) : list event :=
  match g with
  | [] => []
  | Emit e :: rest => e :: events rest
  | _ :: rest => events rest
  end.

Definition is_start (o : operation) : bool :=
  match o with Start _ _ => true | _ => false end.

Definition is_end (o : operation) : bool :=
  match o with End_ => true | _ => false end.

Definition is_clear (o : operation) : bool :=
  match o with Clear => true | _ => false end.

(** The manager that [new VoxAgent(...)] builds, once started at [now]. *)
Definition default_started (now : Z) : ConversationManager :=
  snd (fst (start (constructor
                     {| p_maxMessages := None;
                        p_maxConversationDuration := None;
                        p_silenceTimeoutMs := None;
                        p_enableMetadata := None |}
                     "conv-0" 0)
                  "conv-1" now)).

(** What a call does to the field: the trace is a correct use of the
    field from what it held before, it ends with what the manager records,
    and the only delay ever used is [silenceTimeoutMs]. *)
Definition timed (m m' : ConversationManager) (g : list effect) : Prop :=
  timer_after (silenceTimer m) g = Some (silenceTimer m') /\
  config m' = config m /\
  (forall ms, In ms (timeouts g) ->
              ms = silenceTimeoutMs (config m) /\ (0 < ms)%Z).

(** *** The silence timer expiring

    The callback that [resetSilenceTimer] gives to [setTimeout] is run by
    the runtime when the timer expires, between two calls of the methods:
    it warns and emits "silenceTimeout" with the state.  It does not
    assign [silenceTimer]: the field goes on holding the timer that has
    fired, and the next [clearSilenceTimer] calls [clearTimeout] on it,
    which does nothing then. *)

(** What happens in a run: an effect of a method or of the callback, or
    the "silenceTimeout" event, which only the callback emits. *)
Inductive happening : Type :=
| Effect (g : effect)
| SilenceTimeout (s : ConversationState).

Definition onSilenceTimeout (m : ConversationManager)
  : ConversationManager * list happening :=
  (m, [Effect (Log LWarn "Conversation silence timeout reached");
       SilenceTimeout (state m)]).

(** A step of a run: a call of a method, or the timer expiring. *)
Inductive step : Type :=
| Call (o : operation)
| Expire.

Definition is_expire (s : step) : bool :=
  match s with Expire => true | Call _ => false end.

(** Whether a timer is live (set, and neither cleared nor fired) after
    the effects of a call.  Setting a timer while another is live is a
    fault ([None]).  [clearTimeout] is given the timer in the field, which
    is the one set last: it leaves no timer live, whether that one was
    live or had fired. *)
Fixpoint live_after (live : bool) (g : list effect) : option bool :=
  match g with
  | [] => Some live
  | SetTimeout _ :: rest => if live then None else live_after true rest
  | ClearTimeout :: rest => live_after false rest
  | _ :: rest => live_after live rest
  end.

(** The outcome of a run: the manager, whether a timer is live and what
    happened; or the run is one the runtime cannot produce, a timer
    expiring when none is live; or two timers were live at once. *)
Inductive run_result : Type :=
| Ran (m : ConversationManager) (live : bool) (trace : list happening)
| Unschedulable
| TwoTimers.

Fixpoint run (m : ConversationManager) (live : bool) (steps : list step)
  : run_result :=
  match steps with
  | [] => Ran m live []
  | Call o :: rest =>
      let '(m1, g) := perform m o in
      match live_after live g with
      | None => TwoTimers
      | Some live1 =>
          match run m1 live1 rest with
          | Ran m2 live2 t => Ran m2 live2 (map Effect g ++ t)
          | other => other
          end
      end
  | Expire :: rest =>
      if live
      then
        let '(m1, g) := onSilenceTimeout m in
        match run m1 false rest with
        | Ran m2 live2 t => Ran m2 live2 (g ++ t)
        | other => other
        end
      else Unschedulable
  end.

(** The states with which "silenceTimeout" was emitted, and the delays of
    the timers set, in a run. *)
Fixpoint silence_timeouts (t : list happening) : list ConversationState :=
  match t with
  | [] => []
  | SilenceTimeout s :: rest => s :: silence_timeouts rest
  | Effect _ :: rest => silence_timeouts rest
  end.

Fixpoint delays (t : list happening) : list Z :=
  match t with
  | [] => []
  | Effect (SetTimeout ms) :: rest => ms :: delays rest
  | _ :: rest => delays rest
  end.

End ConversationManager.

(** ** The references behind the getters of ConversationManager

    [getState], [getMessages] and [getLastMessages] return objects; what a
    caller can reach through them depends on which objects are shared with
    the manager.  Objects live in a store and are named by their address;
    a spread or a [slice] allocates a new object whose fields or elements
    are the same addresses as the original's. *)

Module Store.

Import Types.

Abbreviation address := nat.

Inductive object : Type :=
| OArray (elements : list address)
| OMessage (r : role) (text : string) (time : option Z)
           (meta : option address)
| ORecord (fields : record)
| OState (sid : string) (msgs : address) (active : bool)
         (started last : Z) (meta : option address).

Abbreviation store := (list object).

Definition lookup (h : store) (a : address) : option object := nth_error h a.

(** A new object gets the next address. *)
Definition alloc (h : store) (o : object) : address * store :=
  (length h, h ++ [o]).

(** Overwriting the object at an address: any assignment to a property or
    element of that object, or call of one of its mutating methods. *)
Fixpoint write (h : store) (a : address) (o : object) : store :=
  match h, a with
  | [], _ => []
  | _ :: rest, 0 => o :: rest
  | x :: rest, S a' => x :: write rest a' o
  end.

(** The manager: [this.state] is a reference. *)
Record ConversationManager : Type := {
  this_state : address;
  config : ConversationManager.ConversationManagerConfig
}.

(** [{ ...this.state }] *)
Definition getState (h : store) (m : ConversationManager)
  : option (address * store) :=
  match lookup h (this_state m) with
  | Some (OState sid msgs active started last meta) =>
      Some (alloc h (OState sid msgs active started last meta))
  | _ => None
  end.

Definition state_messages (h : store) (m : ConversationManager)
  : option (list address) :=
  match lookup h (this_state m) with
  | Some (OState _ msgs _ _ _ _) =>
      match lookup h msgs with
      | Some (OArray elements) => Some elements
      | _ => None
      end
  | _ => None
  end.

(** [[...this.state.messages]] *)
Definition getMessages (h : store) (m : ConversationManager)
  : option (address * store) :=
  match state_messages h m with
  | Some elements => Some (alloc h (OArray elements))
  | None => None
  end.

(** [this.state.messages.slice(-count)] *)
Definition getLastMessages (h : store) (m : ConversationManager) (count : Z)
  : option (address * store) :=
  match state_messages h m with
  | Some elements => Some (alloc h (OArray (js_slice (- count) elements)))
  | None => None
  end.

(** *** What the manager holds, read through its references *)

Definition read_record (h : store) (meta : option address)
  : option (option record) :=
  match meta with
  | None => Some None
  | Some a =>
      match lookup h a with
      | Some (ORecord fields) => Some (Some fields)
      | _ => None
      end
  end.

Definition read_message (h : store) (a : address)
  : option ConversationMessage :=
  match lookup h a with
  | Some (OMessage r text time meta) =>
      match read_record h meta with
      | Some md => Some {| msg_role := r; content := text; timestamp := time;
                           metadata := md |}
      | None => None
      end
  | _ => None
  end.

Fixpoint read_messages (h : store) (elements : list address)
  : option (list ConversationMessage) :=
  match elements with
  | [] => Some []
  | a :: rest =>
      match read_message h a, read_messages h rest with
      | Some x, Some xs => Some (x :: xs)
      | _, _ => None
      end
  end.

Definition read_state (h : store) (a : address) : option ConversationState :=
  match lookup h a with
  | Some (OState sid msgs active started last meta) =>
      match lookup h msgs with
      | Some (OArray elements) =>
          match read_messages h elements, read_record h meta with
          | Some xs, Some md =>
              Some {| id := sid; messages := xs; isActive := active;
                      startedAt := started; lastActivityAt := last;
                      state_metadata := md |}
          | _, _ => None
          end
      | _ => None
      end
  | _ => None
  end.

(** The internal state of the manager, as any later getter shows it. *)
Definition internal (h : store) (m : ConversationManager)
  : option ConversationState :=
  read_state h (this_state m).

(** The addresses an object refers to, and what can be reached from an
    address through such references. *)
Definition refers (o : object) : list address :=
  match o with
  | OArray elements => elements
  | OMessage _ _ _ (Some a) => [a]
  | OState _ msgs _ _ _ (Some a) => [msgs; a]
  | OState _ msgs _ _ _ None => [msgs]
  | _ => []
  end.

Inductive reachable (h : store) : address -> address -> Prop :=
| reach_here (a : address) : reachable h a a
| reach_step (a b c : address) (o : object) :
    lookup h a = Some o -> In b (refers o) -> reachable h b c ->
    reachable h a c.

(** *** Building stores with the manager's own operations *)

(** [createNewConversation]: the array literal, the metadata literal and
    the state object are three new objects. *)
Definition createNewConversation (h : store) (newId : string) (now : Z)
  : address * store :=
  let '(arr, h1) := alloc h (OArray []) in
  let '(md, h2) := alloc h1 (ORecord []) in
  alloc h2 (OState newId arr true now now (Some md)).

Definition constructor (h : store)
  (cfg : ConversationManager.ConversationManagerConfig)
  (newId : string) (now : Z) : ConversationManager * store :=
  let '(s, h1) := createNewConversation h newId now in
  ({| this_state := s; config := cfg |}, h1).

(** [addMessage] on the store: the message is a new object, [push] changes
    the array in place, and trimming installs the new array that [slice]
    returns.  The events and log lines are those of
    [ConversationManager.addMessage]. *)
Definition addMessage (h : store) (m : ConversationManager) (r : role)
  (text : string) (meta : option address) (now1 now2 : Z) : store :=
  match lookup h (this_state m) with
  | Some (OState sid msgs active started last smeta) =>
      if negb active then h
      else
        let '(msg, h1) :=
          alloc h (OMessage r text (Some now1)
                     (if ConversationManager.enableMetadata (config m)
                      then meta else None)) in
        match lookup h1 msgs with
        | Some (OArray elements) =>
            let pushed := elements ++ [msg] in
            let h2 := write h1 msgs (OArray pushed) in
            let h3 := write h2 (this_state m)
                        (OState sid msgs active started now2 smeta) in
            if (ConversationManager.maxMessages (config m)
                <? Z.of_nat (length pushed))%Z
            then
              let '(arr, h4) :=
                alloc h3 (OArray (js_slice
                            (- ConversationManager.maxMessages (config m))
                            pushed)) in
              write h4 (this_state m)
                    (OState sid arr active started now2 smeta)
            else h3
        | _ => h1
        end
  | _ => h
  end.

Inductive getter : Type :=
| GetState
| GetMessages
| GetLastMessages (count : Z).

Definition call (g : getter) (h : store) (m : ConversationManager)
  : option (address * store) :=
  match g with
  | GetState => getState h m
  | GetMessages => getMessages h m
  | GetLastMessages count => getLastMessages h m count
  end.

(** A mutation keeps the kind of the object it changes. *)
Definition same_kind (o o' : object) : bool :=
  match o, o' with
  | OArray _, OArray _ | OMessage _ _ _ _, OMessage _ _ _ _
  | ORecord _, ORecord _ | OState _ _ _ _ _ _, OState _ _ _ _ _ _ => true
  | _, _ => false
  end.

(** *** Vocabulary of the statements *)

Definition is_container (o : object) : bool :=
  match o with
  | OArray _ | OState _ _ _ _ _ _ => true
  | _ => false
  end.

Definition first_manager : ConversationManager * store :=
  constructor []
    {| ConversationManager.maxMessages := 100;
       ConversationManager.maxConversationDuration := 3600;
       ConversationManager.silenceTimeoutMs := 0;
       ConversationManager.enableMetadata := true |}
    "conv-1" 0.

(** C9 as written: whatever object reachable from the returned reference
    the caller changes, the internal state of the manager stays as it
    was. *)
Definition defensive_copies : Prop :=
  forall (h : store) (m : ConversationManager) (g : getter)
         (v : ConversationState) (r : address) (h' : store),
    internal h m = Some v ->
    call g h m = Some (r, h') ->
    forall (a : address) (old new : object),
      reachable h' r a ->
      lookup h' a = Some old -> same_kind old new = true ->
      internal (write h' a new) m = Some v.

(** A conversation with one message, built by the constructor and
    [addMessage]. *)
Definition example_manager : ConversationManager * store :=
  let '(m, h) :=
    constructor []
      {| ConversationManager.maxMessages := 100;
         ConversationManager.maxConversationDuration := 3600;
         ConversationManager.silenceTimeoutMs := 0;
         ConversationManager.enableMetadata := true |}
      "conv-1" 0 in
  (m, addMessage h m user "Hello" None 1 1).

End Store.

(** ** VoxAgent: connection and error handling (src/voxagent.ts)

    The agent is an [EventEmitter].  Emitting "error" on an emitter that
    has no listener for "error" throws the error instead of returning;
    [errorListeners] counts the listeners registered with
    [agent.on('error', ...)].  The callback [config.onError] is not such a
    listener.  A call of the provider is represented by its outcome. *)

Module VoxAgent.

Import Types.

Record VoxAgent : Type := {
  isConnected : bool;
  reconnectAttempts : Z;
  maxReconnectAttempts : Z;
  reconnectDelay : Z;
  systemPrompt : option string;
  hasOnError : bool;
  hasOnConnect : bool;
  errorListeners : nat;
  conversationManager : ConversationManager.ConversationManager;
  conversation : ConversationState
}.

Inductive event : Type :=
| EError (err context : string)
| EConnect (connected : bool).

Inductive effect : Type :=
| Emit (e : event)
| Log (l : level) (msg : string)
| OnError (err context : string)
| OnConnect (connected : bool)
| Manager (g : ConversationManager.effect)
| SetTimeout (ms : Z).

(** A step: the agent afterwards, what it did, and the error it threw. *)
Record outcome : Type := {
  agent : VoxAgent;
  trace : list effect;
  thrown : option string
}.

Definition with_attempts (a : VoxAgent) (n : Z) : VoxAgent :=
  {| isConnected := isConnected a; reconnectAttempts := n;
     maxReconnectAttempts := maxReconnectAttempts a;
     reconnectDelay := reconnectDelay a; systemPrompt := systemPrompt a;
     hasOnError := hasOnError a; hasOnConnect := hasOnConnect a;
     errorListeners := errorListeners a;
     conversationManager := conversationManager a;
     conversation := conversation a |}.

(** The agent as its constructor leaves it. *)
Definition constructor (prompt : option string) (onError onConnect : bool)
  (listeners : nat) (newId : string) (now : Z) : VoxAgent :=
  let cm := ConversationManager.constructor
              {| ConversationManager.p_maxMessages := None;
                 ConversationManager.p_maxConversationDuration := Some 3600%Z;
                 ConversationManager.p_silenceTimeoutMs := Some 30000%Z;
                 ConversationManager.p_enableMetadata := None |}
              newId now in
  {| isConnected := false; reconnectAttempts := 0; maxReconnectAttempts := 5;
     reconnectDelay := 1000; systemPrompt := prompt; hasOnError := onError;
     hasOnConnect := onConnect; errorListeners := listeners;
     conversationManager := cm;
     conversation := ConversationManager.getState cm |}.

Definition decimalZ (n : Z) : string :=
  NilEmpty.string_of_int (Z.to_int n).

Definition handleError (a : VoxAgent) (err context : string) : outcome :=
  let g1 := [Log LError ("Error in " ++ context ++ ":")%string] in
  match errorListeners a with
  | 0 => {| agent := a; trace := g1; thrown := Some err |}
  | S _ =>
      let g2 := g1 ++ [Emit (EError err context)]
                ++ (if hasOnError a then [OnError err context] else []) in
      (* Attempt reconnection if appropriate *)
      if isConnected a
         && (reconnectAttempts a <? maxReconnectAttempts a)%Z
      then
        let n := (reconnectAttempts a + 1)%Z in
        {| agent := with_attempts a n;
           trace := g2 ++ [Log LInfo ("Attempting reconnection "
                                      ++ decimalZ n ++ "/"
                                      ++ decimalZ (maxReconnectAttempts a))
                                     %string;
                           SetTimeout (reconnectDelay a * n)];
           thrown := None |}
      else {| agent := a; trace := g2; thrown := None |}
  end.

(** What [provider.initialize()] and [provider.connect()] did. *)
Inductive provider_outcome : Type :=
| InitializeFails (err : string)
| ConnectFails (err : string)
| Connected.

Definition connected (a : VoxAgent) (newId : string) (now : Z) : outcome :=
  let '(_, cm1, g1) :=
    ConversationManager.start (conversationManager a) newId now in
  let snapshot := ConversationManager.getState cm1 in
  let '(cm2, g2) :=
    if truthy (systemPrompt a)
    then ConversationManager.addMessage cm1 system
           (LeadExtractor.value (systemPrompt a)) None now now
    else (cm1, []) in
  {| agent := {| isConnected := true; reconnectAttempts := 0;
                 maxReconnectAttempts := maxReconnectAttempts a;
                 reconnectDelay := reconnectDelay a;
                 systemPrompt := systemPrompt a;
                 hasOnError := hasOnError a; hasOnConnect := hasOnConnect a;
                 errorListeners := errorListeners a;
                 conversationManager := cm2; conversation := snapshot |};
     trace := [Log LInfo "Initializing AI provider...";
               Log LInfo "Connecting to AI provider..."]
              ++ map Manager (g1 ++ g2)
              ++ (if hasOnConnect a then [OnConnect true] else [])
              ++ [Emit (EConnect true); Log LInfo "Connected to AI provider"];
     thrown := None |}.

(** [connect()]: a failure of the provider goes through [handleError] and
    is thrown again; when [handleError] itself throws, what it throws is
    that same error. *)
Definition connect (a : VoxAgent) (p : provider_outcome) (newId : string)
  (now : Z) : outcome :=
  match p with
  | InitializeFails err =>
      let r := handleError a err "connect" in
      {| agent := agent r;
         trace := Log LInfo "Initializing AI provider..." :: trace r;
         thrown := Some err |}
  | ConnectFails err =>
      let r := handleError a err "connect" in
      {| agent := agent r;
         trace := Log LInfo "Initializing AI provider..."
                  :: Log LInfo "Connecting to AI provider..." :: trace r;
         thrown := Some err |}
  | Connected => connected a newId now
  end.

(** The callback of the reconnection timer:
    [this.connect().catch(err => this.logger.error(...))]. *)
Definition reconnect (a : VoxAgent) (p : provider_outcome) (newId : string)
  (now : Z) : outcome :=
  let r := connect a p newId now in
  {| agent := agent r;
     trace := trace r ++ match thrown r with
                         | Some _ => [Log LError "Reconnection failed"]
                         | None => []
                         end;
     thrown := None |}.

(** The delays of the timers set in a trace. *)
Fixpoint timers (g : list effect) : list Z :=
  match g with
  | [] => []
  | SetTimeout ms :: rest => ms :: timers rest
  | _ :: rest => timers rest
  end.

(** A run of failures after a successful connection: an error reported
    while connected, then each reconnection attempt failing in turn. *)
Inductive failure : Type :=
| Reported (err context : string)
| ReconnectFailed (p : provider_outcome) (newId : string) (now : Z).

Definition fail (a : VoxAgent) (f : failure) : outcome :=
  match f with
  | Reported err context => handleError a err context
  | ReconnectFailed p newId now => reconnect a p newId now
  end.

Definition is_failure (f : failure) : bool :=
  match f with
  | ReconnectFailed Connected _ _ => false
  | _ => true
  end.

Fixpoint fails (a : VoxAgent) (fs : list failure) : VoxAgent * list effect :=
  match fs with
  | [] => (a, [])
  | f :: rest =>
      let r := fail a f in
      let '(a', g) := fails (agent r) rest in
      (a', trace r ++ g)
  end.

(** *** Vocabulary of the statements *)

(** The delays [d * (n + 1)], ..., [d * (n + k)]. *)
Fixpoint delays (d n : Z) (k : nat) : list Z :=
  match k with
  | 0 => []
  | S k' => (d * (n + 1))%Z :: delays d (n + 1) k'
  end.

(** An agent as in the README: [onError] in the configuration, and
    [listeners] listeners for "error"; then connected. *)
Definition connected_agent (listeners : nat) : VoxAgent :=
  agent (connect (constructor None true false listeners "conv-0" 0)
                 Connected "conv-1" 1).

Definition six_failures : list failure :=
  Reported "socket closed" "provider"
  :: map (fun i => ReconnectFailed (ConnectFails "unreachable") "conv-2"
                                   (Z.of_nat i))
         (seq 1 5).

End VoxAgent.

(** ** MetricsPlugin (src/plugins/metrics.ts)

    The counters of a session.  [finalize], which formats and prints the
    summary and posts the metrics, is left out. *)

Module MetricsPlugin.

Import Types.

Record MetricsPluginConfig : Type := {
  reportUrl : string;
  printSummary : bool
}.

Record PartialConfig : Type := {
  p_reportUrl : option string;
  p_printSummary : option bool
}.

Record SessionMetrics : Type := {
  sessionId : string;
  startedAt : Z;
  endedAt : option Z;
  durationMs : option Z;
  turnCount : Z;
  userTurns : Z;
  assistantTurns : Z;
  leadCaptured : bool;
  estimatedInputTokens : Z;
  estimatedOutputTokens : Z
}.

Record MetricsPlugin : Type := {
  config : MetricsPluginConfig;
  metrics : SessionMetrics
}.

(** [createMetrics]: the clock is read for the id and again for the
    start. *)
Definition createMetrics (now1 now2 : Z) : SessionMetrics :=
  {| sessionId := ("sess-" ++ decimal_of_Z now1)%string;
     startedAt := now2;
     endedAt := None;
     durationMs := None;
     turnCount := 0;
     userTurns := 0;
     assistantTurns := 0;
     leadCaptured := false;
     estimatedInputTokens := 0;
     estimatedOutputTokens := 0 |}.

Definition constructor (c : PartialConfig) (now1 now2 : Z) : MetricsPlugin :=
  {| config := {| reportUrl := match p_reportUrl c with
                               | Some u => u
                               | None => EmptyString
                               end;
                  printSummary := match p_printSummary c with
                                  | Some b => b
                                  | None => true
                                  end |};
     metrics := createMetrics now1 now2 |}.

(** [initialize(agent)] starts the counters afresh (and registers
    [finalize] for the agent's "disconnect" event). *)
Definition initialize (p : MetricsPlugin) (now1 now2 : Z) : MetricsPlugin :=
  {| config := config p; metrics := createMetrics now1 now2 |}.

(** [Math.ceil(content.length / 4)]: the quotient of a length by 4 is
    exact. *)
Definition tokens (content : string) : Z :=
  Qround.Qceiling (QArith_base.Qmake (Z.of_nat (String.length content)) 4).

Definition onMessage (p : MetricsPlugin) (message : ConversationMessage)
  : MetricsPlugin :=
  let m := metrics p in
  let turns := (turnCount m + 1)%Z in
  {| config := config p;
     metrics :=
       match msg_role message with
       | user =>
           {| sessionId := sessionId m; startedAt := startedAt m;
              endedAt := endedAt m; durationMs := durationMs m;
              turnCount := turns;
              userTurns := userTurns m + 1;
              assistantTurns := assistantTurns m;
              leadCaptured := leadCaptured m;
              estimatedInputTokens :=
                estimatedInputTokens m + tokens (content message);
              estimatedOutputTokens := estimatedOutputTokens m |}
       | assistant =>
           {| sessionId := sessionId m; startedAt := startedAt m;
              endedAt := endedAt m; durationMs := durationMs m;
              turnCount := turns;
              userTurns := userTurns m;
              assistantTurns := assistantTurns m + 1;
              leadCaptured := leadCaptured m;
              estimatedInputTokens := estimatedInputTokens m;
              estimatedOutputTokens :=
                estimatedOutputTokens m + tokens (content message) |}
       | _ =>
           {| sessionId := sessionId m; startedAt := startedAt m;
              endedAt := endedAt m; durationMs := durationMs m;
              turnCount := turns;
              userTurns := userTurns m;
              assistantTurns := assistantTurns m;
              leadCaptured := leadCaptured m;
              estimatedInputTokens := estimatedInputTokens m;
              estimatedOutputTokens := estimatedOutputTokens m |}
       end%Z |}.

Definition onLead (p : MetricsPlugin) (lead : LeadInfo) : MetricsPlugin :=
  let m := metrics p in
  {| config := config p;
     metrics :=
       {| sessionId := sessionId m; startedAt := startedAt m;
          endedAt := endedAt m; durationMs := durationMs m;
          turnCount := turnCount m; userTurns := userTurns m;
          assistantTurns := assistantTurns m;
          leadCaptured := true;
          estimatedInputTokens := estimatedInputTokens m;
          estimatedOutputTokens := estimatedOutputTokens m |} |}.

(** [getMetrics()]: a copy of the counters. *)
Definition getMetrics (p : MetricsPlugin) : SessionMetrics := metrics p.

(** *** Vocabulary of the statements *)

(** A call of one of the hooks. *)
Inductive hook : Type :=
| OnMessage (message : ConversationMessage)
| OnLead (lead : LeadInfo).

Definition call (p : MetricsPlugin) (h : hook) : MetricsPlugin :=
  match h with
  | OnMessage message => onMessage p message
  | OnLead lead => onLead p lead
  end.

Definition messages_of (hs : list hook) : list ConversationMessage :=
  flat_map (fun h => match h with OnMessage m => [m] | OnLead _ => [] end) hs.

Definition with_role (r : role) (ms : list ConversationMessage)
  : list ConversationMessage :=
  filter (fun m => role_eqb (msg_role m) r) ms.

(** The number of code units of the messages. *)
Definition characters (ms : list ConversationMessage) : Z :=
  fold_right (fun m n => (Z.of_nat (String.length (content m)) + n)%Z) 0%Z ms.

Definition is_OnLead (h : hook) : bool :=
  match h with OnLead _ => true | OnMessage _ => false end.

End MetricsPlugin.

(** ** LeadWebhookPlugin (src/plugins/lead-webhook.ts)

    [seen] is the set of keys, in the order in which they were added.  A
    request is made by [fetch]; what [fetch] does is given by its outcome.
    The requests of [sendWebhook] and its retries run later, on the event
    loop: their effects are listed, in order, with the [onLead] call that
    causes them.  The body of a request holds the lead and the time of the
    attempt. *)

Module LeadWebhookPlugin.

Import Types.

Abbreviation headers := (list (string * string)).

Record LeadWebhookConfig : Type := {
  url : string;
  secret : string;
  config_headers : headers;
  retries : Z
}.

Record PartialConfig : Type := {
  p_url : string;
  p_secret : option string;
  p_headers : option headers;
  p_retries : option Z
}.

Record LeadWebhookPlugin : Type := {
  config : LeadWebhookConfig;
  seen : list string
}.

Inductive fetch_outcome : Type :=
| Responded (ok : bool) (status : Z)
| Rejected (err : string).

Inductive effect : Type :=
| Fetch (to : string) (hs : headers) (lead : LeadInfo)
| Log (l : level) (msg : string)
| SetTimeout (ms : Z).

Definition constructor (c : PartialConfig) : LeadWebhookPlugin :=
  {| config := {| url := p_url c;
                  secret := match p_secret c with
                            | Some s => s
                            | None => EmptyString
                            end;
                  config_headers := match p_headers c with
                                    | Some h => h
                                    | None => []
                                    end;
                  retries := match p_retries c with
                             | Some n => n
                             | None => 3%Z
                             end |};
     seen := [] |}.

(** Defining a header on an object. *)
Fixpoint set_header (k v : string) (hs : headers) : headers :=
  match hs with
  | [] => [(k, v)]
  | (k', v') :: rest =>
      if String.eqb k k' then (k, v) :: rest
      else (k', v') :: set_header k v rest
  end.

Definition request_headers (cfg : LeadWebhookConfig) : headers :=
  let hs := fold_left (fun acc kv => set_header (fst kv) (snd kv) acc)
                      (config_headers cfg)
                      [("Content-Type", "application/json")]%string in
  match secret cfg with
  | EmptyString => hs
  | _ => set_header "Authorization" ("Bearer " ++ secret cfg)%string hs
  end.

(** [sendWebhook(lead, attempt)], given the outcomes of this request and
    of the later ones.  With no outcome left the request is still
    pending. *)
Fixpoint sendWebhook (cfg : LeadWebhookConfig) (lead : LeadInfo)
  (attempt : Z) (outcomes : list fetch_outcome) : list effect :=
  match outcomes with
  | [] => [Fetch (url cfg) (request_headers cfg) lead]
  | outcome :: later =>
      Fetch (url cfg) (request_headers cfg) lead ::
      match outcome with
      | Responded true _ =>
          [Log LInfo ("Lead posted (attempt " ++ decimal_of_Z attempt ++ ")")
                     %string]
      | _ =>
          Log LError ("Webhook failed (attempt " ++ decimal_of_Z attempt
                      ++ "):")%string ::
          if (attempt <? retries cfg)%Z
          then SetTimeout (1000 * 2 ^ (attempt - 1))%Z
               :: sendWebhook cfg lead (attempt + 1) later
          else []
      end
  end.

(** [`${lead.email ?? ''}:${lead.phone ?? ''}`] *)
Definition key (lead : LeadInfo) : string :=
  (LeadExtractor.value (email lead) ++ ":" ++ LeadExtractor.value (phone lead))
  %string.

Definition has (set : list string) (k : string) : bool :=
  existsb (String.eqb k) set.

Definition onLead (p : LeadWebhookPlugin) (lead : LeadInfo)
  (outcomes : list fetch_outcome) : LeadWebhookPlugin * list effect :=
  (* Deduplicate by email+phone combo *)
  if has (seen p) (key lead) then (p, [])
  else ({| config := config p; seen := seen p ++ [key lead] |},
        sendWebhook (config p) lead 1 outcomes).

(** *** Vocabulary of the statements *)

(** A run of [onLead] calls: the plugin afterwards and the effects of
    each call. *)
Fixpoint onLeads (p : LeadWebhookPlugin)
  (calls : list (LeadInfo * list fetch_outcome))
  : LeadWebhookPlugin * list (list effect) :=
  match calls with
  | [] => (p, [])
  | (lead, outcomes) :: rest =>
      let '(p1, g1) := onLead p lead outcomes in
      let '(p2, gs) := onLeads p1 rest in
      (p2, g1 :: gs)
  end.

Definition is_failure (o : fetch_outcome) : bool :=
  match o with Responded true _ => false | _ => true end.

(** The requests and the delays of a trace. *)
Fixpoint requests (g : list effect) : list LeadInfo :=
  match g with
  | [] => []
  | Fetch _ _ lead :: rest => lead :: requests rest
  | _ :: rest => requests rest
  end.

Fixpoint timeouts (g : list effect) : list Z :=
  match g with
  | [] => []
  | SetTimeout ms :: rest => ms :: timeouts rest
  | _ :: rest => timeouts rest
  end.

(** A lead with the given email and phone and nothing else. *)
Definition contact (e p : option string) : LeadInfo :=
  {| name := None; email := e; phone := p; company := None; notes := None;
     confidence := {| c_name := None; c_email := None; c_phone := None |} |}.

(** The text holds no ":". *)
Definition no_colon (s : string) : bool :=
  forallb (fun c => negb (Ascii.eqb c ":")) (list_ascii_of_string s).

(** The delays before attempts [attempt + 1], ..., [attempt + n]. *)
Fixpoint backoff (attempt : Z) (n : nat) : list Z :=
  match n with
  | 0 => []
  | S n' => (1000 * 2 ^ (attempt - 1))%Z :: backoff (attempt + 1) n'
  end.

End LeadWebhookPlugin.

(** ** VoxAgent: the event handlers, [sendText] and [disconnect]
       (src/voxagent.ts)

    [setupEventHandlers] registers the agent's own listeners on the
    conversation manager and on the lead extractor.  These run inside the
    [emit] call: the effects of a handler come in the trace right after
    the event that runs it.  The handlers change the lead extractor only,
    so a trace of the conversation manager can be replayed to them in
    order ([dispatch]).  Plugins and the callbacks of the configuration
    belong to the environment: a call to one of them is an effect. *)

Module Orchestration.

Import Types.

(** A plugin as the agent sees it: its name and which optional hooks it
    defines. *)
Record Plugin : Type := {
  plugin_name : string;
  definesOnMessage : bool;
  definesOnLead : bool
}.

(** The agent: the fields of [VoxAgent.VoxAgent] and the rest of the
    object. *)
Record Agent : Type := {
  core : VoxAgent.VoxAgent;
  leadExtractor : LeadExtractor.LeadExtractor;
  enableLeadExtraction : bool;
  hasOnLead : bool;
  hasOnTranscript : bool;
  hasOnResponse : bool;
  plugins : list Plugin
}.

Inductive event : Type :=
| ELead (lead : LeadInfo)
| ETranscript (text : string) (segment : TranscriptSegment)
| EResponse (text : string)
| EDisconnect.

Inductive effect : Type :=
| Core (g : VoxAgent.effect)
| Extractor (g : LeadExtractor.effect)
| Emit (e : event)
| OnLead (lead : LeadInfo)
| OnTranscript (text : string) (segment : TranscriptSegment)
| OnResponse (text : string)
| PluginOnMessage (plugin : string) (message : ConversationMessage)
| PluginOnLead (plugin : string) (lead : LeadInfo)
| PluginInitialize (plugin : string)
| ProviderSendText (text : string)
| ProviderDisconnect.

Record outcome : Type := {
  agent : Agent;
  trace : list effect;
  thrown : option string
}.

Definition with_core (a : Agent) (c : VoxAgent.VoxAgent) : Agent :=
  {| core := c; leadExtractor := leadExtractor a;
     enableLeadExtraction := enableLeadExtraction a;
     hasOnLead := hasOnLead a; hasOnTranscript := hasOnTranscript a;
     hasOnResponse := hasOnResponse a; plugins := plugins a |}.

Definition with_extractor (a : Agent) (e : LeadExtractor.LeadExtractor)
  : Agent :=
  {| core := core a; leadExtractor := e;
     enableLeadExtraction := enableLeadExtraction a;
     hasOnLead := hasOnLead a; hasOnTranscript := hasOnTranscript a;
     hasOnResponse := hasOnResponse a; plugins := plugins a |}.

Definition set_manager (v : VoxAgent.VoxAgent)
  (cm : ConversationManager.ConversationManager) : VoxAgent.VoxAgent :=
  {| VoxAgent.isConnected := VoxAgent.isConnected v;
     VoxAgent.reconnectAttempts := VoxAgent.reconnectAttempts v;
     VoxAgent.maxReconnectAttempts := VoxAgent.maxReconnectAttempts v;
     VoxAgent.reconnectDelay := VoxAgent.reconnectDelay v;
     VoxAgent.systemPrompt := VoxAgent.systemPrompt v;
     VoxAgent.hasOnError := VoxAgent.hasOnError v;
     VoxAgent.hasOnConnect := VoxAgent.hasOnConnect v;
     VoxAgent.errorListeners := VoxAgent.errorListeners v;
     VoxAgent.conversationManager := cm;
     VoxAgent.conversation := VoxAgent.conversation v |}.

Definition set_isConnected (v : VoxAgent.VoxAgent) (b : bool)
  : VoxAgent.VoxAgent :=
  {| VoxAgent.isConnected := b;
     VoxAgent.reconnectAttempts := VoxAgent.reconnectAttempts v;
     VoxAgent.maxReconnectAttempts := VoxAgent.maxReconnectAttempts v;
     VoxAgent.reconnectDelay := VoxAgent.reconnectDelay v;
     VoxAgent.systemPrompt := VoxAgent.systemPrompt v;
     VoxAgent.hasOnError := VoxAgent.hasOnError v;
     VoxAgent.hasOnConnect := VoxAgent.hasOnConnect v;
     VoxAgent.errorListeners := VoxAgent.errorListeners v;
     VoxAgent.conversationManager := VoxAgent.conversationManager v;
     VoxAgent.conversation := VoxAgent.conversation v |}.

(** The agent as its constructor leaves it; [extraction] tells whether
    [config.enableLeadExtraction] is truthy (it is [true] by default). *)
Definition constructor (prompt : option string)
  (onError onConnect onLead onTranscript onResponse extraction : bool)
  (listeners : nat) (newId : string) (now : Z) : Agent :=
  {| core := VoxAgent.constructor prompt onError onConnect listeners newId now;
     leadExtractor := LeadExtractor.constructor LeadExtractor.default_config;
     enableLeadExtraction := extraction;
     hasOnLead := onLead; hasOnTranscript := onTranscript;
     hasOnResponse := onResponse; plugins := [] |}.

(** [this.emit('lead', lead, this.conversation)] and
    [this.config.onLead?.(lead, this.conversation)] *)
Definition notifyLead (a : Agent) (lead : LeadInfo) : list effect :=
  Emit (ELead lead) :: (if hasOnLead a then [OnLead lead] else []).

(** The listener for the "lead" event of the lead extractor. *)
Definition onExtractorLead (a : Agent) (lead : LeadInfo) : list effect :=
  notifyLead a lead
  ++ flat_map (fun p => if definesOnLead p
                        then [PluginOnLead (plugin_name p) lead] else [])
              (plugins a).

(** A trace of the lead extractor, with the listener run at each "lead"
    event. *)
Fixpoint forward (a : Agent) (g : list LeadExtractor.effect) : list effect :=
  match g with
  | [] => []
  | x :: rest =>
      Extractor x
      :: match x with
         | LeadExtractor.Emit_lead lead => onExtractorLead a lead
         | LeadExtractor.Log _ _ => []
         end
      ++ forward a rest
  end.

(** The listener for the "message" event of the conversation manager. *)
Definition onManagerMessage (a : Agent) (message : ConversationMessage)
  : Agent * list effect :=
  let '(a1, g1) :=
    if enableLeadExtraction a && role_eqb (msg_role message) user
    then
      let '(lead, e1, g) :=
        LeadExtractor.processMessage (leadExtractor a) message in
      (with_extractor a e1,
       forward a g
       ++ match lead with Some l => notifyLead a l | None => [] end)
    else (a, []) in
  (* Notify plugins *)
  (a1,
   g1 ++ flat_map (fun p => if definesOnMessage p
                            then [PluginOnMessage (plugin_name p) message]
                            else [])
                  (plugins a)).

(** A trace of the agent's core, with the listener run at each "message"
    event of the conversation manager. *)
Fixpoint dispatch (a : Agent) (g : list VoxAgent.effect)
  : Agent * list effect :=
  match g with
  | [] => (a, [])
  | x :: rest =>
      let '(a1, g1) :=
        match x with
        | VoxAgent.Manager
            (ConversationManager.Emit (ConversationManager.EMessage message)) =>
            onManagerMessage a message
        | _ => (a, [])
        end in
      let '(a2, g2) := dispatch a1 rest in
      (a2, Core x :: g1 ++ g2)
  end.

(** A call of the conversation manager made by the agent. *)
Definition manager_call (a : Agent)
  (r : ConversationManager.ConversationManager
       * list ConversationManager.effect) : Agent * list effect :=
  dispatch (with_core a (set_manager (core a) (fst r)))
           (map VoxAgent.Manager (snd r)).

(** The callbacks given to the provider. *)
Definition onProviderTranscript (a : Agent) (segment : TranscriptSegment)
  (now1 now2 : Z) : Agent * list effect :=
  let '(a1, g1) :=
    manager_call a (ConversationManager.addTranscript
                      (VoxAgent.conversationManager (core a))
                      segment now1 now2) in
  (a1,
   g1 ++ [Emit (ETranscript (text segment) segment)]
   ++ (if hasOnTranscript a then [OnTranscript (text segment) segment]
       else [])).

Definition onProviderResponse (a : Agent) (response_text : string)
  (now1 now2 : Z) : Agent * list effect :=
  let '(a1, g1) :=
    manager_call a (ConversationManager.addMessage
                      (VoxAgent.conversationManager (core a))
                      assistant response_text None now1 now2) in
  (a1,
   g1 ++ [Emit (EResponse response_text)]
   ++ (if hasOnResponse a then [OnResponse response_text] else [])).

Definition onProviderError (a : Agent) (err : string) : outcome :=
  let r := VoxAgent.handleError (core a) err "provider" in
  {| agent := with_core a (VoxAgent.agent r);
     trace := map Core (VoxAgent.trace r);
     thrown := VoxAgent.thrown r |}.

(** [connect()], with the agent's listeners. *)
Definition connect (a : Agent) (p : VoxAgent.provider_outcome)
  (newId : string) (now : Z) : outcome :=
  let r := VoxAgent.connect (core a) p newId now in
  let '(a1, g) := dispatch (with_core a (VoxAgent.agent r))
                           (VoxAgent.trace r) in
  {| agent := a1; trace := g; thrown := VoxAgent.thrown r |}.

(** What [provider.sendText()] and [provider.disconnect()] did. *)
Inductive call_outcome : Type :=
| Resolved
| Fails (err : string).

Definition sendText (a : Agent) (text : string) (now1 now2 : Z)
  (p : call_outcome) : outcome :=
  if negb (VoxAgent.isConnected (core a))
  then {| agent := a; trace := []; thrown := Some "Agent not connected"%string |}
  else
    let '(a1, g1) :=
      manager_call a (ConversationManager.addMessage
                        (VoxAgent.conversationManager (core a))
                        user text None now1 now2) in
    {| agent := a1;
       trace := g1 ++ [ProviderSendText text];
       thrown := match p with Resolved => None | Fails err => Some err end |}.

(** [disconnect()]: an error of the provider goes through [handleError]
    and is thrown again. *)
Definition disconnect (a : Agent) (p : call_outcome) : outcome :=
  (* Extract final lead before disconnecting *)
  let '(a1, g1) :=
    if enableLeadExtraction a
    then
      let '(finalLead, e1, g) :=
        LeadExtractor.processConversation
          (leadExtractor a)
          (ConversationManager.getState
             (VoxAgent.conversationManager (core a))) in
      (with_extractor a e1,
       forward a g
       ++ match finalLead with Some l => notifyLead a l | None => [] end)
    else (a, []) in
  match p with
  | Fails err =>
      let r := VoxAgent.handleError (core a1) err "disconnect" in
      {| agent := with_core a1 (VoxAgent.agent r);
         trace := g1 ++ [ProviderDisconnect] ++ map Core (VoxAgent.trace r);
         thrown := Some err |}
  | Resolved =>
      let '(_, cm, g2) :=
        ConversationManager.end_ (VoxAgent.conversationManager (core a1)) in
      {| agent := with_core a1
                    (set_isConnected (set_manager (core a1) cm) false);
         trace := g1 ++ [ProviderDisconnect]
                  ++ map (fun x => Core (VoxAgent.Manager x)) g2
                  ++ (if VoxAgent.hasOnConnect (core a1)
                      then [Core (VoxAgent.OnConnect false)] else [])
                  ++ [Emit EDisconnect;
                      Core (VoxAgent.Log LInfo "Disconnected from AI provider")];
         thrown := None |}
  end.

(** [use(plugin)] *)
Definition use (a : Agent) (p : Plugin) : Agent * list effect :=
  ({| core := core a; leadExtractor := leadExtractor a;
      enableLeadExtraction := enableLeadExtraction a;
      hasOnLead := hasOnLead a; hasOnTranscript := hasOnTranscript a;
      hasOnResponse := hasOnResponse a; plugins := plugins a ++ [p] |},
   [PluginInitialize (plugin_name p);
    Core (VoxAgent.Log LInfo ("Plugin loaded: " ++ plugin_name p)%string)]).

(** [getCurrentLead()] *)
Definition getCurrentLead (a : Agent) : LeadInfo * Agent :=
  let '(lead, e1) := LeadExtractor.getCurrentLead (leadExtractor a) in
  (lead, with_extractor a e1).

(** *** Vocabulary of the statements *)

(** The leads announced by the agent's "lead" event, those passed to
    [config.onLead], and the calls of the [onLead] hook of the plugins. *)
Fixpoint lead_events (g : list effect) : list LeadInfo :=
  match g with
  | [] => []
  | Emit (ELead lead) :: rest => lead :: lead_events rest
  | _ :: rest => lead_events rest
  end.

Fixpoint onLead_calls (g : list effect) : list LeadInfo :=
  match g with
  | [] => []
  | OnLead lead :: rest => lead :: onLead_calls rest
  | _ :: rest => onLead_calls rest
  end.

Fixpoint plugin_leads (g : list effect) : list (string * LeadInfo) :=
  match g with
  | [] => []
  | PluginOnLead name lead :: rest => (name, lead) :: plugin_leads rest
  | _ :: rest => plugin_leads rest
  end.

(** The timers set by the agent's core in a trace. *)
Fixpoint core_trace (g : list effect) : list VoxAgent.effect :=
  match g with
  | [] => []
  | Core x :: rest => x :: core_trace rest
  | _ :: rest => core_trace rest
  end.

(** The plugins that define [onLead], each with the lead it is given. *)
Definition told (a : Agent) (lead : LeadInfo) : list (string * LeadInfo) :=
  map (fun p => (plugin_name p, lead)) (filter definesOnLead (plugins a)).

(** The agent of the README with a listener for "error", [onLead]
    configured and one plugin that defines both hooks, connected at time
    1000; and the same agent after the user gave an email address. *)
Definition example_agent : Agent :=
  let a0 := constructor (Some "You are a helpful assistant."%string)
              false false true false false true 1 "conv-0" 0 in
  let a1 := fst (use a0 {| plugin_name := "metrics";
                           definesOnMessage := true;
                           definesOnLead := true |}) in
  agent (connect a1 VoxAgent.Connected "conv-1" 1000).

Definition example_agent_with_lead : Agent :=
  agent (sendText example_agent "Email me at bob@example.com" 2000 2000
                  Resolved).

End Orchestration.

(** * Properties *)

(** ** JavaScript arrays *)

Section JsArrayFacts.

Context {A : Type}.

Lemma js_slice_neg (n : Z) (l : list A) :
  (0 < n)%Z -> js_slice (- n) l = lastn (Z.to_nat n) l.
Proof.
  intros Hn. unfold js_slice, lastn.
  destruct (Z.ltb_spec (- n) 0) as [_|H]; [|lia].
  f_equal. lia.
Qed.

Lemma js_slice_zero (l : list A) : js_slice 0 l = l.
Proof.
  unfold js_slice. cbn [Z.ltb Z.compare].
  rewrite Z.min_l by lia. reflexivity.
Qed.

Lemma lastn_length (n : nat) (l : list A) :
  length (lastn n l) = Nat.min n (length l).
Proof. unfold lastn. rewrite length_skipn. lia. Qed.

Lemma lastn_all (n : nat) (l : list A) : length l <= n -> lastn n l = l.
Proof.
  intros H. unfold lastn. replace (length l - n) with 0 by lia. reflexivity.
Qed.

Lemma lastn_app (n : nat) (l1 l2 : list A) :
  length l2 <= n -> lastn n (l1 ++ l2) = lastn (n - length l2) l1 ++ l2.
Proof.
  intros H. unfold lastn. rewrite length_app, skipn_app.
  replace (length l1 + length l2 - n) with (length l1 - (n - length l2)) by lia.
  replace (length l1 - (n - length l2) - length l1) with 0 by lia.
  reflexivity.
Qed.

Lemma lastn_lastn (n m : nat) (l : list A) :
  n <= m -> lastn n (lastn m l) = lastn n l.
Proof.
  intros H. unfold lastn. rewrite length_skipn, skipn_skipn. f_equal. lia.
Qed.

End JsArrayFacts.

(** ** Properties of AudioPipeline *)

Module AudioPipelineFacts.

Import AudioPipeline.

(** *** Facts about the copy loop *)

Lemma totalLength_acc (buf : list chunk) (n : nat) :
  fold_left (fun sum c => sum + length c) buf n = n + length (concat buf).
Proof.
  revert n. induction buf as [|c rest IH]; intros n; simpl.
  - lia.
  - rewrite IH, length_app. lia.
Qed.

Lemma totalLength_concat (buf : list chunk) :
  totalLength buf = length (concat buf).
Proof. unfold totalLength. now rewrite totalLength_acc. Qed.

Lemma uint8_set_fits (pre tail c : chunk) :
  length c <= length tail ->
  uint8_set (pre ++ tail) c (length pre)
  = Ok ((pre ++ c) ++ skipn (length c) tail).
Proof.
  intros Hfit. unfold uint8_set.
  destruct (Nat.ltb_spec (length (pre ++ tail)) (length pre + length c)) as [H|_].
  - rewrite length_app in H. lia.
  - f_equal. rewrite firstn_app, firstn_all, Nat.sub_diag, firstn_O, app_nil_r.
    rewrite skipn_app, skipn_all2 by lia.
    replace (length pre + length c - length pre) with (length c) by lia.
    now rewrite <- app_assoc.
Qed.

Lemma copy_loop_spec (buf : list chunk) :
  forall pre tail : chunk,
    length tail = length (concat buf) ->
    copy_loop buf (pre ++ tail) (length pre) = Ok (pre ++ concat buf).
Proof.
  induction buf as [|c rest IH]; intros pre tail Hlen; simpl in *.
  - destruct tail; [reflexivity | discriminate].
  - rewrite length_app in Hlen.
    rewrite uint8_set_fits by lia. simpl.
    rewrite <- length_app, IH.
    + now rewrite <- app_assoc.
    + rewrite length_skipn. lia.
Qed.

Lemma flushBuffer_spec (p : AudioPipeline) :
  flushBuffer p =
  match audioBuffer p with
  | [] => Ok (None, p, [])
  | _ :: _ =>
      Ok (Some (concat (audioBuffer p)), cleared p,
          [Emit (EBuffer (concat (audioBuffer p)))])
  end.
Proof.
  unfold flushBuffer. destruct (audioBuffer p) as [|c rest] eqn:E; [reflexivity|].
  unfold new_Uint8Array.
  pose proof (copy_loop_spec (c :: rest) []
                (repeat x00 (totalLength (c :: rest)))) as H.
  simpl app in H. simpl length in H. rewrite H; [reflexivity|].
  now rewrite repeat_length, totalLength_concat.
Qed.

Lemma flushBuffer_cleared (p : AudioPipeline) :
  flushBuffer (cleared p) = Ok (None, cleared p, []).
Proof. reflexivity. Qed.

(** One chunk while streaming: it is appended, and the buffer is either
    kept or flushed whole. *)
Lemma processAudioChunk_streaming (p : AudioPipeline) (c : chunk) :
  isStreaming p = true ->
  exists p' effs,
    processAudioChunk p c = Ok (p', effs) /\
    isStreaming p' = true /\
    ((audioBuffer p' = audioBuffer p ++ [c] /\ buffers effs = []) \/
     (audioBuffer p' = [] /\ buffers effs = [concat (audioBuffer p ++ [c])])).
Proof.
  intros Hs. unfold processAudioChunk. rewrite Hs. simpl negb. cbv iota.
  match goal with |- context [if ?b then _ else _] => destruct b end.
  - rewrite flushBuffer_spec. simpl audioBuffer.
    destruct (audioBuffer p ++ [c]) as [|x xs] eqn:E.
    + now destruct (audioBuffer p).
    + simpl. eexists _, _. split; [reflexivity|]. split; [reflexivity|].
      right. rewrite <- E. split; reflexivity.
  - eexists _, _. split; [reflexivity|]. split; [reflexivity|].
    left. split; reflexivity.
Qed.

Lemma buffers_app (e1 e2 : list effect) :
  buffers (e1 ++ e2) = buffers e1 ++ buffers e2.
Proof.
  induction e1 as [|e e1 IH]; [reflexivity|].
  destruct e as [[]|]; simpl; now rewrite ?IH.
Qed.

Lemma processChunks_streaming (cs : list chunk) :
  forall p : AudioPipeline,
    isStreaming p = true ->
    exists p' effs,
      processChunks p cs = Ok (p', effs) /\
      isStreaming p' = true /\
      concat (buffers effs) ++ concat (audioBuffer p')
      = concat (audioBuffer p ++ cs) /\
      (exists k, audioBuffer p' = skipn k (audioBuffer p ++ cs)) /\
      (buffers effs = [] -> audioBuffer p' = audioBuffer p ++ cs).
Proof.
  induction cs as [|c rest IH]; intros p Hs; simpl.
  - exists p, []. rewrite app_nil_r. repeat split; auto.
    exists 0. reflexivity.
  - destruct (processAudioChunk_streaming p c Hs)
      as (p1 & e1 & E1 & Hs1 & Hcase).
    destruct (IH p1 Hs1) as (p2 & e2 & E2 & Hs2 & Hcat & [k Hk] & Hno).
    rewrite E1. simpl. rewrite E2. simpl.
    exists p2, (e1 ++ e2). split; [reflexivity|]. split; [exact Hs2|].
    rewrite buffers_app, concat_app.
    replace (audioBuffer p ++ c :: rest)
      with ((audioBuffer p ++ [c]) ++ rest) by now rewrite <- app_assoc.
    destruct Hcase as [[Hb He]|[Hb He]]; rewrite Hb in *; rewrite He.
    + simpl. repeat split; auto. now exists k.
    + simpl in *. rewrite app_nil_r. repeat split.
      * rewrite (concat_app (audioBuffer p ++ [c]) rest), <- Hcat.
        now rewrite app_assoc.
      * exists (length (audioBuffer p ++ [c]) + k).
        rewrite Hk, skipn_app.
        rewrite (skipn_all2 (audioBuffer p ++ [c])) by lia. simpl.
        f_equal. lia.
      * intros H. discriminate H.
Qed.

(** C1.  While the pipeline is streaming, whatever run of chunks is passed
    to [processAudioChunk], the call never throws; the chunks still held
    in the buffer are a tail of the arrivals, in arrival order (all of
    them when no automatic flush fired), and no byte is lost between the
    "buffer" events already emitted and the buffer.  [flushBuffer] then
    returns exactly the concatenation of the held chunks and clears the
    buffer, and it returns null when the buffer is empty, in particular
    when called again right after a flush. *)
Theorem flushBuffer_returns_concatenation :
  forall (p : AudioPipeline) (cs : list chunk),
    isStreaming p = true ->
    exists p' effs,
      processChunks p cs = Ok (p', effs) /\
      (exists k, audioBuffer p' = skipn k (audioBuffer p ++ cs)) /\
      (buffers effs = [] -> audioBuffer p' = audioBuffer p ++ cs) /\
      concat (buffers effs) ++ concat (audioBuffer p')
      = concat (audioBuffer p ++ cs) /\
      flushBuffer p' =
        match audioBuffer p' with
        | [] => Ok (None, p', [])
        | _ :: _ =>
            Ok (Some (concat (audioBuffer p')), cleared p',
                [Emit (EBuffer (concat (audioBuffer p')))])
        end /\
      audioBuffer (cleared p') = [] /\
      (forall r q effs', flushBuffer p' = Ok (r, q, effs') ->
                         flushBuffer q = Ok (None, q, [])).
Proof.
  intros p cs Hs.
  destruct (processChunks_streaming cs p Hs)
    as (p' & effs & E & _ & Hcat & Hk & Hno).
  exists p', effs. repeat split; auto.
  - apply flushBuffer_spec.
  - intros r q effs'. rewrite flushBuffer_spec.
    destruct (audioBuffer p') eqn:Eb; intros H; inversion H; subst.
    + unfold flushBuffer. now rewrite Eb.
    + apply flushBuffer_cleared.
Qed.

Lemma flushBuffer_returns_concatenation_witness :
  isStreaming test_pipeline = true /\
  exists p' effs,
    processChunks test_pipeline [[x01; x02; x03]; [x04; x05; x06]]
    = Ok (p', effs) /\
    flushBuffer p'
    = Ok (Some [x01; x02; x03; x04; x05; x06], cleared p',
          [Emit (EBuffer [x01; x02; x03; x04; x05; x06])]).
Proof.
  split; [reflexivity|].
  destruct (flushBuffer_returns_concatenation test_pipeline
              [[x01; x02; x03]; [x04; x05; x06]] eq_refl)
    as (p' & effs & E & _ & Hall & _ & Hflush & _).
  exists p', effs. split; [exact E|].
  vm_compute in E. inversion E; subst. exact Hflush.
Defined.

(** *** Every operation keeps the byte counter and the buffer in step *)

Lemma in_step_cleared (p : AudioPipeline) : in_step (cleared p).
Proof. split; reflexivity. Qed.

Lemma perform_in_step (p : AudioPipeline) (o : operation) :
  in_step p ->
  exists p' effs, perform p o = Ok (p', effs) /\ in_step p'.
Proof.
  intros Hp. pose proof Hp as [Hc Hs]. destruct o as [| |c|]; simpl.
  - eexists _, _. split; [reflexivity|]. split; [reflexivity | discriminate].
  - unfold stop. cbn [audioBuffer].
    destruct (audioBuffer p) as [|c0 buf] eqn:E.
    + cbn. eexists _, _. split; [reflexivity|].
      split; cbn; [exact Hc | reflexivity].
    + rewrite flushBuffer_spec. cbn.
      eexists _, _. split; [reflexivity|]. split; reflexivity.
  - unfold processAudioChunk. destruct (isStreaming p) eqn:S; cbn.
    + match goal with
      | |- context [if ?b then _ else _] => destruct b
      end.
      * rewrite flushBuffer_spec. cbn [audioBuffer].
        destruct (audioBuffer p ++ [c]) eqn:E;
          [now destruct (audioBuffer p)|].
        cbn. eexists _, _. split; [reflexivity|]. split; reflexivity.
      * eexists _, _. split; [reflexivity|]. split; cbn.
        -- rewrite concat_app, length_app. cbn. rewrite app_nil_r. lia.
        -- discriminate.
    + eexists _, _. split; [reflexivity | exact Hp].
  - rewrite flushBuffer_spec. destruct (audioBuffer p) eqn:E; cbn.
    + eexists _, _. split; [reflexivity | exact Hp].
    + eexists _, _. split; [reflexivity|]. apply in_step_cleared.
Qed.

(** Whatever is called and in whatever order, from construction on: no
    call throws, [sampleCount] is the number of bytes held in the buffer,
    and the buffer is empty whenever the pipeline is not streaming. *)
Theorem operations_keep_count_and_buffer_in_step :
  forall (c : PartialConfig) (os : list operation),
    exists p effs,
      perform_all (constructor c) os = Ok (p, effs) /\
      sampleCount p = Z.of_nat (length (concat (audioBuffer p))) /\
      (getIsStreaming p = false -> audioBuffer p = []).
Proof.
  intros c os.
  assert (H0 : in_step (constructor c)) by (split; reflexivity).
  revert H0. generalize (constructor c).
  induction os as [|o os IH]; intros p Hp.
  - exists p, []. split; [reflexivity | exact Hp].
  - destruct (perform_in_step o Hp) as (p1 & e1 & E1 & H1).
    destruct (IH p1 H1) as (p2 & e2 & E2 & H2).
    exists p2, (e1 ++ e2). split; [|exact H2].
    cbn. rewrite E1. cbn. rewrite E2. reflexivity.
Qed.

(** *** A streaming session loses no audio *)

Lemma chunks_app (e1 e2 : list effect) :
  chunks (e1 ++ e2) = chunks e1 ++ chunks e2.
Proof.
  induction e1 as [|[[]|] e1 IH]; simpl; auto. now rewrite IH.
Qed.

Lemma processAudioChunk_chunks (p p' : AudioPipeline) (c : chunk)
  (effs : list effect) :
  isStreaming p = true ->
  processAudioChunk p c = Ok (p', effs) -> chunks effs = [c].
Proof.
  intros S. unfold processAudioChunk. rewrite S. cbn.
  match goal with |- context [if ?b then _ else _] => destruct b end.
  - rewrite flushBuffer_spec. cbn [audioBuffer].
    destruct (audioBuffer p ++ [c]) eqn:E; cbn; intros [= <- <-]; reflexivity.
  - intros [= <- <-]. reflexivity.
Qed.

Lemma processChunks_chunks (cs : list chunk) :
  forall (p p' : AudioPipeline) (effs : list effect),
    isStreaming p = true ->
    processChunks p cs = Ok (p', effs) -> chunks effs = cs.
Proof.
  induction cs as [|c cs IH]; intros p p' effs S; cbn.
  - now intros [= <- <-].
  - destruct (processAudioChunk_streaming p c S) as (p1 & e1 & E1 & S1 & _).
    rewrite E1. cbn.
    destruct (processChunks p1 cs) as [[p2 e2]|] eqn:E2; cbn; [|discriminate].
    intros [= <- <-]. rewrite chunks_app.
    rewrite (processAudioChunk_chunks p c S E1), (IH _ _ _ S1 E2).
    reflexivity.
Qed.

Lemma processChunks_stopped (cs : list chunk) (p : AudioPipeline) :
  isStreaming p = false -> processChunks p cs = Ok (p, []).
Proof.
  intros S. induction cs as [|c cs IH]; cbn; [reflexivity|].
  unfold processAudioChunk. rewrite S. cbn. rewrite IH. reflexivity.
Qed.

(** Between [start()] and [stop()], whatever chunks arrive: every chunk is
    announced by one "chunk" event, in order; the payloads of the "buffer"
    events, put end to end, are exactly the bytes of the chunks, in order;
    [stop()] leaves the buffer empty; and chunks that arrive after
    [stop()] are dropped without any event. *)
Theorem streaming_session_conserves_audio :
  forall (p : AudioPipeline) (cs late : list chunk),
    exists p1 g1 p2 g2,
      processChunks (fst (start p)) cs = Ok (p1, g1) /\
      stop p1 = Ok (p2, g2) /\
      chunks (g1 ++ g2) = cs /\
      concat (buffers (g1 ++ g2)) = concat cs /\
      audioBuffer p2 = [] /\
      getIsStreaming p2 = false /\
      processChunks p2 late = Ok (p2, []).
Proof.
  intros p cs late.
  destruct (@processChunks_streaming cs (fst (start p)) eq_refl)
    as (p1 & g1 & E1 & S1 & Hcat & _ & _).
  cbn [start fst audioBuffer app] in Hcat.
  assert (Hstop : exists p2 g2,
             stop p1 = Ok (p2, g2) /\ chunks g2 = [] /\
             buffers g2 = match audioBuffer p1 with
                          | [] => []
                          | _ :: _ => [concat (audioBuffer p1)]
                          end /\
             audioBuffer p2 = [] /\ isStreaming p2 = false).
  { unfold stop. cbn [audioBuffer].
    destruct (audioBuffer p1) as [|c0 buf] eqn:E.
    - cbn. eexists _, _. split; [reflexivity|]. cbn. auto.
    - rewrite flushBuffer_spec. cbn.
      eexists _, _. split; [reflexivity|]. cbn. auto. }
  destruct Hstop as (p2 & g2 & E2 & C2 & B2 & A2 & S2).
  exists p1, g1, p2, g2. repeat split; auto.
  - rewrite chunks_app, C2, app_nil_r.
    exact (@processChunks_chunks cs (fst (start p)) p1 g1 eq_refl E1).
  - rewrite buffers_app, concat_app, B2, <- Hcat. f_equal.
    destruct (audioBuffer p1); cbn; [reflexivity | now rewrite app_nil_r].
  - now apply processChunks_stopped.
Qed.

(** *** Base64 round trip *)

Lemma unbase64_char (n : N) :
  (n < 64)%N -> unbase64 (base64_char n) = Some n.
Proof.
  intros H.
  assert (A : forallb (fun k => match unbase64 (base64_char (N.of_nat k)) with
                                | Some v => N.eqb v (N.of_nat k)
                                | None => false
                                end) (seq 0 64) = true) by (vm_compute; reflexivity).
  rewrite forallb_forall in A.
  specialize (A (N.to_nat n)). rewrite N2Nat.id in A.
  destruct (unbase64 (base64_char n)) as [v|].
  - f_equal. apply N.eqb_eq. apply A. apply in_seq. lia.
  - assert (F : false = true) by (apply A; apply in_seq; lia).
    discriminate F.
Qed.

Lemma sextets_char (n : N) (t : list ascii) :
  (n < 64)%N -> sextets (base64_char n :: t) = n :: sextets t.
Proof. intros H. cbn [sextets]. now rewrite unbase64_char. Qed.

Lemma sextets_padding (t : list ascii) : sextets ("="%char :: t) = [].
Proof. reflexivity. Qed.

Lemma byte_of_to_N (b : byte) (n : N) :
  (n mod 256 = Byte.to_N b)%N -> byte_of_N n = b.
Proof. unfold byte_of_N. intros ->. now rewrite Byte.of_to_N. Qed.

Ltac byte_arith :=
  match goal with
  | |- context [Byte.to_N ?a] =>
      let H := fresh in
      pose proof (Byte.to_N_bounded a) as H;
      generalize dependent (Byte.to_N a); intros
  end.

Lemma base64_round_trip (bytes : list byte) :
  base64_bytes (sextets (base64_encode bytes)) = bytes.
Proof.
  assert (G : forall n (l : list byte), length l <= n ->
                base64_bytes (sextets (base64_encode l)) = l).
  { induction n as [|n IH]; intros l Hl.
    - destruct l; [reflexivity | cbn in Hl; lia].
    - destruct l as [|a [|b [|c rest]]]; [reflexivity | | |].
      + cbn [base64_encode].
        rewrite !sextets_char, sextets_padding
          by (repeat byte_arith; zify; Z.to_euclidean_division_equations; lia).
        cbn [base64_bytes]. f_equal. apply byte_of_to_N.
        repeat byte_arith. zify. Z.to_euclidean_division_equations. lia.
      + cbn [base64_encode].
        rewrite !sextets_char, sextets_padding
          by (repeat byte_arith; zify; Z.to_euclidean_division_equations; lia).
        cbn [base64_bytes].
        f_equal; [|f_equal]; apply byte_of_to_N; repeat byte_arith; zify;
          Z.to_euclidean_division_equations; lia.
      + cbn [base64_encode].
        rewrite !sextets_char
          by (repeat byte_arith; zify; Z.to_euclidean_division_equations; lia).
        cbn [base64_bytes]. rewrite IH by (cbn in Hl; lia).
        f_equal; [|f_equal; [|f_equal]]; apply byte_of_to_N;
          repeat byte_arith; zify; Z.to_euclidean_division_equations; lia. }
  apply (G (length bytes)). lia.
Qed.

Lemma base64_encode_length (bytes : list byte) :
  length (base64_encode bytes) = 4 * ((length bytes + 2) / 3).
Proof.
  assert (G : forall n (l : list byte), length l <= n ->
                length (base64_encode l) = 4 * ((length l + 2) / 3)).
  { induction n as [|n IH]; intros l Hl.
    - destruct l; [reflexivity | cbn in Hl; lia].
    - destruct l as [|a [|b [|c rest]]]; [reflexivity..|].
      cbn [base64_encode length]. rewrite IH by (cbn in Hl; lia).
      replace (S (S (S (length rest))) + 2) with ((length rest + 2) + 1 * 3)
        by lia.
      rewrite Nat.div_add by lia. lia. }
  apply (G (length bytes)). lia.
Qed.

(** A message made by [createAudioMessage] is of type "audio" and holds
    a string of [4 * ceil(n / 3)] characters for [n] bytes of audio;
    [parseAudioMessage], on any pipeline, gives those bytes back.  A message
    of another type, or whose data is not a string, gives null. *)
Theorem audio_message_round_trip :
  forall (p q : AudioPipeline) (audioData : chunk) (now1 now2 : Z)
         (suffix : string),
    let message := createAudioMessage p audioData now1 now2 suffix in
    ws_type message = ws_audio /\
    (exists s, ws_data message = UString s /\
               String.length s = 4 * ((length audioData + 2) / 3)) /\
    parseAudioMessage q message = Some audioData /\
    forall other : WSMessage,
      (ws_type other <> ws_audio \/ forall s, ws_data other <> UString s) ->
      parseAudioMessage q other = None.
Proof.
  intros p q audioData now1 now2 suffix message. repeat split.
  - eexists. split; [reflexivity|].
    clear. induction (base64_encode audioData) as [|c l IH] eqn:E in audioData |- *.
    + rewrite <- base64_encode_length, E. reflexivity.
    + rewrite <- base64_encode_length, E. cbn. f_equal.
      clear. induction l; cbn; congruence.
  - unfold message, createAudioMessage, parseAudioMessage, base64_decode.
    cbn. rewrite list_ascii_of_string_of_list_ascii.
    now rewrite base64_round_trip.
  - intros other [H|H]; unfold parseAudioMessage.
    + destruct (ws_type other); try reflexivity. now elim H.
    + destruct (ws_type other); try reflexivity.
      destruct (ws_data other) eqn:E; try reflexivity. now elim (H s).
Qed.

(** *** Voice activity detection *)

Lemma SFcompare_nan_r (x : spec_float) : SFcompare x S754_nan = None.
Proof. now destruct x. Qed.

Lemma ltb_leb (x y : float) : (x <? y)%float = true -> (x <=? y)%float = true.
Proof.
  rewrite ltb_spec, leb_spec. unfold SFltb, SFleb.
  now destruct (SFcompare (Prim2SF x) (Prim2SF y)) as [[]|].
Qed.

Lemma SFcompare_antisym (x y : spec_float) :
  SFcompare y x = option_map CompOpp (SFcompare x y).
Proof.
  destruct x as [sx|sx| |sx mx ex], y as [sy|sy| |sy my ey]; cbn;
    try reflexivity; try (now destruct sx); try (now destruct sy);
    try (now destruct sx, sy).
  destruct sx, sy; cbn; try reflexivity.
  - rewrite (Z.compare_antisym ex ey).
    destruct (ex ?= ey)%Z; cbn; try reflexivity.
    f_equal. f_equal. exact (eq_sym (Pos.compare_cont_antisym mx my Eq)).
  - rewrite (Z.compare_antisym ex ey).
    destruct (ex ?= ey)%Z; cbn; try reflexivity.
    f_equal. exact (eq_sym (Pos.compare_cont_antisym mx my Eq)).
Qed.

Lemma not_ltb_leb (x y : float) :
  is_nan x = false -> is_nan y = false ->
  (x <? y)%float = false -> (y <? x)%float = false ->
  (x <=? y)%float = true.
Proof.
  unfold is_nan. rewrite !eqb_spec, !ltb_spec, leb_spec.
  unfold SFeqb, SFltb, SFleb. intros Hx Hy H1 H2.
  rewrite (SFcompare_antisym (Prim2SF x) (Prim2SF y)) in H2.
  destruct (SFcompare (Prim2SF x) (Prim2SF y)) as [[]|] eqn:E; auto.
  exfalso.
  destruct (Prim2SF x) as [sx|sx| |sx mx ex], (Prim2SF y) as [sy|sy| |sy my ey];
    cbn in *; discriminate.
Qed.

Lemma Math_min_le (x y : float) :
  is_nan (Math_min x y) = true \/ (Math_min x y <=? y)%float = true.
Proof.
  unfold Math_min.
  destruct (is_nan x) eqn:Nx; [now left|].
  destruct (is_nan y) eqn:Ny; [now left|]. cbn [orb]. right.
  destruct (x <? y)%float eqn:L1; [now apply ltb_leb|].
  assert (Hyy : (y <=? y)%float = true).
  { revert Ny. unfold is_nan. rewrite eqb_spec, leb_spec.
    unfold SFeqb, SFleb. now destruct (SFcompare _ _) as [[]|]. }
  destruct (y <? x)%float eqn:L2; [exact Hyy|].
  destruct (get_sign x); [now apply not_ltb_leb | exact Hyy].
Qed.

Lemma div_nan_l (x : float) : (nan / x)%float = nan.
Proof. apply Prim2SF_inj. rewrite div_spec. reflexivity. Qed.

Lemma ltb_nan_r (x : float) : (x <? nan)%float = false.
Proof.
  rewrite ltb_spec. unfold SFltb.
  change (Prim2SF nan) with S754_nan. now rewrite SFcompare_nan_r.
Qed.

Lemma getInt16_inside (buf : list byte) (i : nat) :
  S i < length buf -> exists z, getInt16 buf i = Ok z.
Proof.
  intros H. unfold getInt16.
  destruct (nth_error buf i) eqn:E1;
    [|apply nth_error_None in E1; lia].
  destruct (nth_error buf (S i)) eqn:E2;
    [|apply nth_error_None in E2; lia].
  eexists. reflexivity.
Qed.

Lemma energy_loop_inside (buf : list byte) (n : nat) :
  forall (i : nat) (energy : float),
    i + 2 * n <= length buf ->
    exists e, energy_loop buf n i energy = Ok e.
Proof.
  induction n as [|n IH]; intros i energy H; cbn.
  - eexists. reflexivity.
  - destruct (@getInt16_inside buf i ltac:(lia)) as (z & ->). cbn.
    apply IH. lia.
Qed.

Lemma getInt16_outside (buf : list byte) (i : nat) :
  length buf < i + 2 -> exists err, getInt16 buf i = Throw err.
Proof.
  intros H. unfold getInt16.
  assert (E : nth_error buf (S i) = None) by (apply nth_error_None; lia).
  rewrite E. destruct (nth_error buf i); eexists; reflexivity.
Qed.

Lemma energy_loop_outside (buf : list byte) (n : nat) :
  forall (i : nat) (energy : float),
    length buf < i + 2 * S n ->
    exists err, energy_loop buf (S n) i energy = Throw err.
Proof.
  induction n as [|n IH]; intros i energy H.
  - destruct (@getInt16_outside buf i ltac:(lia)) as (err & E).
    exists err. cbn. now rewrite E.
  - cbn [energy_loop]. destruct (getInt16 buf i) as [z|err]; cbn [bind].
    + apply IH. lia.
    + exists err. reflexivity.
Qed.

Lemma div2_S_even (n : nat) : Nat.even n = true -> 2 * Nat.div2 (S n) = n.
Proof.
  intros H. apply Nat.even_spec in H. destruct H as [k ->].
  rewrite Nat.div2_succ_double. reflexivity.
Qed.

Lemma div2_S_odd (n : nat) : Nat.odd n = true -> 2 * Nat.div2 (S n) = S n.
Proof.
  intros H. apply Nat.odd_spec in H. destruct H as [k ->].
  replace (S (2 * k + 1)) with (2 * (S k)) by lia.
  rewrite Nat.div2_double. reflexivity.
Qed.

Lemma applyVAD_confidence (p : AudioPipeline) (view : Uint8Array)
  (r : VADResult) :
  applyVAD p view = Ok r ->
  is_nan (vad_confidence r) = true \/ (vad_confidence r <=? 1)%float = true.
Proof.
  unfold applyVAD.
  destruct (enableVAD (config p)); cbn [negb].
  - destruct (energy_loop _ _ _ _); cbn; [|discriminate].
    intros [= <-]. apply Math_min_le.
  - intros [= <-]. right. reflexivity.
Qed.

(** With detection disabled [applyVAD] answers "speech, confidence 1"
    without looking at the audio.  With detection enabled, on an array that
    covers its whole buffer: an odd number of bytes is a RangeError, thrown
    by the read of the last sample; an even number of bytes never throws;
    and the empty array gives "no speech" with a confidence that is not a
    number, whatever the threshold.  Whenever [applyVAD] returns, the
    confidence it reports is at most 1, or is not a number. *)
Theorem applyVAD_edge_cases :
  forall (p : AudioPipeline) (audio : chunk),
    (enableVAD (config p) = false ->
     forall view : Uint8Array,
       applyVAD p view = Ok {| hasSpeech := true; vad_confidence := 1 |}) /\
    (enableVAD (config p) = true ->
     (Nat.odd (length audio) = true ->
      exists err, applyVAD p (array_of audio) = Throw err) /\
     (Nat.even (length audio) = true ->
      exists r, applyVAD p (array_of audio) = Ok r) /\
     applyVAD p (array_of [])
     = Ok {| hasSpeech := false; vad_confidence := nan |}) /\
    (forall (view : Uint8Array) (r : VADResult),
       applyVAD p view = Ok r ->
       is_nan (vad_confidence r) = true
       \/ (vad_confidence r <=? 1)%float = true).
Proof.
  intros p audio.
  split; [|split; [|apply applyVAD_confidence]];
    intros E; unfold applyVAD; rewrite E; cbn [negb].
  - reflexivity.
  - cbn [array_of view_length buffer]. repeat split.
    + intros Hodd. pose proof (div2_S_odd _ Hodd) as D.
      destruct (Nat.div2 (S (length audio))) as [|n] eqn:Ediv; [lia|].
      destruct (@energy_loop_outside audio n 0 0%float) as (err & ->); [lia|].
      exists err. reflexivity.
    + intros Heven.
      destruct (@energy_loop_inside audio (Nat.div2 (S (length audio))) 0
                  0%float) as (e & ->).
      { rewrite (div2_S_even _ Heven). lia. }
      eexists. reflexivity.
    + cbn. 
      change (PrimFloat.sqrt (0 / (of_uint63 (Uint63.of_Z 0) / 2)) / 32768)%float
        with nan.
      rewrite ltb_nan_r, div_nan_l. reflexivity.
Qed.

Lemma applyVAD_edge_cases_witness :
  let p := constructor {| p_sampleRate := None; p_channels := None;
                          p_format := None; p_bufferSize := None;
                          p_enableVAD := None; p_vadThreshold := None;
                          p_bufferDurationMs := None |} in
  let loud := array_of [x00; x40; x00; xc0] in
  (exists err, applyVAD p (array_of [x00; x40; x00]) = Throw err) /\
  exists r,
    applyVAD p loud = Ok r /\ hasSpeech r = true /\
    (is_nan (vad_confidence r) = true \/ (vad_confidence r <=? 1)%float = true).
Proof.
  intros p loud. split.
  - exact (proj1 (proj1 (proj2 (applyVAD_edge_cases p [x00; x40; x00]))
                    eq_refl) eq_refl).
  - eexists. split; [vm_compute; reflexivity|].
    split; [reflexivity|].
    apply (proj2 (proj2 (applyVAD_edge_cases p [])) loud).
    vm_compute. reflexivity.
Defined.

End AudioPipelineFacts.

(** ** Properties of the regular expression matcher *)

Module RegexFacts.

Import Regex.

(** *** The matcher only accepts words of the pattern *)

Lemma after_refl (s : mstate) : after s [] s.
Proof. split; simpl; [reflexivity | lia]. Qed.

Lemma after_trans (s1 s2 s3 : mstate) (u v : list ascii) :
  after s1 u s2 -> after s2 v s3 -> after s1 (u ++ v) s3.
Proof.
  intros [R1 P1] [R2 P2]. split.
  - now rewrite R1, R2, app_assoc.
  - rewrite length_app. lia.
Qed.

Lemma rep_sound (p : ascii -> bool) (k : mstate -> option mstate) :
  forall (rs : list ascii) (lo : nat) (hi : option nat) (i : nat)
         (pv : option ascii) (cp : option (list ascii)) (e : mstate),
    rep p lo hi k rs i pv cp = Some e ->
    exists w s',
      lang (Rep p lo hi) w /\
      after {| pos := i; prev := pv; rest := rs; cap := cp |} w s' /\
      k s' = Some e.
Proof.
  assert (Hstop : forall rs lo hi i pv cp e,
    match lo with
    | 0 => k {| pos := i; prev := pv; rest := rs; cap := cp |}
    | S _ => None
    end = Some e ->
    exists w s',
      lang (Rep p lo hi) w /\
      after {| pos := i; prev := pv; rest := rs; cap := cp |} w s' /\
      k s' = Some e).
  { intros rs lo hi i pv cp e H. destruct lo; [|discriminate].
    exists [], {| pos := i; prev := pv; rest := rs; cap := cp |}.
    split; [|split; [apply after_refl | exact H]].
    simpl. destruct hi; repeat split; lia. }
  induction rs as [|c t IH]; intros lo hi i pv cp e H.
  - apply Hstop. simpl in H. destruct hi as [[|h]|]; exact H.
  - assert (Htake : forall e0,
      p c = true -> hi <> Some 0 ->
      (exists w s',
         lang (Rep p (Nat.pred lo) (option_map Nat.pred hi)) w /\
         after {| pos := S i; prev := Some c; rest := t; cap := cp |} w s' /\
         k s' = Some e0) ->
      exists w s',
        lang (Rep p lo hi) w /\
        after {| pos := i; prev := pv; rest := c :: t; cap := cp |} w s' /\
        k s' = Some e0).
    { intros e0 Hp Hhi (w & s' & (Hlo & Hhi' & Hall) & [Hrest Hpos] & Hk).
      exists (c :: w), s'. simpl in *. repeat split.
      - lia.
      - destruct hi as [[|h]|]; simpl in *; [congruence | lia | exact I].
      - now rewrite Hp, Hall.
      - now rewrite Hrest.
      - simpl in *. lia.
      - exact Hk. }
    simpl in H.
    destruct hi as [[|h]|].
    + apply Hstop. exact H.
    + destruct (p c) eqn:Hp; [|apply Hstop; exact H].
      destruct (rep p (Nat.pred lo) (option_map Nat.pred (Some (S h))) k t
                    (S i) (Some c) cp) eqn:Hr.
      * inversion H; subst. apply IH in Hr.
        apply Htake; [reflexivity | discriminate | exact Hr].
      * apply Hstop. exact H.
    + destruct (p c) eqn:Hp; [|apply Hstop; exact H].
      destruct (rep p (Nat.pred lo) (option_map Nat.pred None) k t
                    (S i) (Some c) cp) eqn:Hr.
      * inversion H; subst. apply IH in Hr.
        apply Htake; [reflexivity | discriminate | exact Hr].
      * apply Hstop. exact H.
Qed.

Lemma m_sound (r : regex) :
  forall (k : mstate -> option mstate) (s e : mstate),
    m r k s = Some e ->
    exists w s', lang r w /\ after s w s' /\ k s' = Some e.
Proof.
  induction r as [|p|a IHa b IHb|a IHa b IHb|a IHa|p lo hi|a IHa| |];
    intros k s e H; simpl in H.
  - exists [], s. repeat split; [apply after_refl | exact H].
  - destruct (rest s) as [|c t] eqn:Hrest; [discriminate|].
    destruct (p c) eqn:Hp; [|discriminate].
    eexists [c], _. split; [exists c; auto|]. split; [|exact H].
    split; simpl; [exact Hrest | lia].
  - apply IHa in H. destruct H as (u & s1 & Hu & A1 & H).
    apply IHb in H. destruct H as (v & s2 & Hv & A2 & H).
    exists (u ++ v), s2. split; [exists u, v; auto|].
    split; [eapply after_trans; eassumption | exact H].
  - destruct (m a k s) eqn:Ha.
    + inversion H; subst. apply IHa in Ha.
      destruct Ha as (w & s' & Hw & A & Hk).
      exists w, s'. simpl. auto.
    + apply IHb in H. destruct H as (w & s' & Hw & A & Hk).
      exists w, s'. simpl. auto.
  - destruct (m a k s) eqn:Ha.
    + inversion H; subst. apply IHa in Ha.
      destruct Ha as (w & s' & Hw & A & Hk).
      exists w, s'. simpl. auto.
    + exists [], s. simpl. split; [now left|].
      split; [apply after_refl | exact H].
  - apply rep_sound in H. destruct H as (w & s' & Hw & A & Hk).
    exists w, s'. split; [exact Hw|]. split; [|exact Hk].
    destruct s; exact A.
  - apply IHa in H. destruct H as (w & s' & Hw & [A1 A2] & Hk).
    eexists w, _. split; [exact Hw|]. split; [|exact Hk].
    split; simpl; assumption.
  - destruct (at_boundary s); [|discriminate].
    exists [], s. repeat split; [apply after_refl | exact H].
  - destruct (pos s); [|discriminate].
    exists [], s. repeat split; [apply after_refl | exact H].
Qed.

Lemma search_sound (r : regex) :
  forall (rs : list ascii) (i : nat) (pv : option ascii) (res : match_result),
    search r rs i pv = Some res ->
    exists w, lang r w /\ matched res = string_of_list_ascii w /\
              i <= index res /\ endIndex res = index res + length w.
Proof.
  induction rs as [|c t IH]; intros i pv res H; simpl in H.
  - destruct (m r Some _) as [e|] eqn:Hm; [|discriminate].
    apply m_sound in Hm. destruct Hm as (w & s' & Hw & [A1 A2] & Hk).
    inversion Hk; subst s'. inversion H; subst res. simpl in *.
    exists w. repeat split; auto.
    rewrite A2. replace (i + length w - i) with (length w) by lia.
    symmetry in A1. apply app_eq_nil in A1. destruct A1 as [-> _].
    reflexivity.
  - destruct (m r Some _) as [e|] eqn:Hm.
    + apply m_sound in Hm. destruct Hm as (w & s' & Hw & [A1 A2] & Hk).
      inversion Hk; subst s'. inversion H; subst res. simpl in *.
      exists w. repeat split; auto.
      rewrite A2, A1. replace (i + length w - i) with (length w) by lia.
      now rewrite firstn_app, firstn_all, Nat.sub_diag, firstn_O, app_nil_r.
    + apply IH in H. destruct H as (w & Hw & Hm' & Hi & He).
      exists w. repeat split; auto. lia.
Qed.

Lemma exec_sound (r : regex) (s : string) (lastIndex : nat)
  (res : match_result) :
  exec r s lastIndex = Some res ->
  exists w, lang r w /\ matched res = string_of_list_ascii w /\
            lastIndex <= index res /\ endIndex res = index res + length w.
Proof.
  unfold exec. destruct (_ <? _); [discriminate|]. apply search_sound.
Qed.

(** The first element of a global match is the first match from index 0. *)
Lemma js_match_global_first (r : regex) (s first : string)
  (others : list string) :
  js_match_global r s = Some (first :: others) ->
  exists res, exec r s 0 = Some res /\ matched res = first.
Proof.
  unfold js_match_global. simpl.
  destruct (exec r s 0) as [res|]; [|discriminate].
  intros H. inversion H. now exists res.
Qed.

Lemma js_match_global_none (r : regex) (s : string) :
  js_match_global r s = None <-> exec r s 0 = None.
Proof.
  unfold js_match_global. simpl.
  destruct (exec r s 0) as [res|]; split; intros H; try discriminate; auto.
Qed.

Lemma length_string_of_list_ascii (l : list ascii) :
  String.length (string_of_list_ascii l) = length l.
Proof. induction l; simpl; congruence. Qed.

Lemma string_of_list_ascii_app (a b : list ascii) :
  string_of_list_ascii (a ++ b)
  = (string_of_list_ascii a ++ string_of_list_ascii b)%string.
Proof. induction a; simpl; congruence. Qed.

(** The fuel of [js_match_global] is enough: more fuel finds no more
    matches, since every match moves [lastIndex] to the right and the
    search fails once [lastIndex] is past the end. *)
Lemma exec_past_end (r : regex) (s : string) (lastIndex : nat) :
  String.length s < lastIndex -> exec r s lastIndex = None.
Proof.
  intros H. unfold exec.
  replace (length (list_ascii_of_string s)) with (String.length s).
  - destruct (Nat.ltb_spec (String.length s) lastIndex); [reflexivity | lia].
  - rewrite <- (string_of_list_ascii_of_string s) at 1.
    apply length_string_of_list_ascii.
Qed.

Lemma match_all_enough_fuel (r : regex) (s : string) :
  forall fuel lastIndex : nat,
    String.length s + 1 - lastIndex <= fuel ->
    match_all (S fuel) r s lastIndex = match_all fuel r s lastIndex.
Proof.
  induction fuel as [|fuel IH]; intros lastIndex H.
  - simpl. rewrite exec_past_end by lia. reflexivity.
  - change (match_all (S (S fuel)) r s lastIndex)
      with (match exec r s lastIndex with
            | None => []
            | Some res =>
                matched res ::
                match_all (S fuel) r s
                  (if endIndex res =? index res then S (endIndex res)
                   else endIndex res)
            end).
    change (match_all (S fuel) r s lastIndex)
      with (match exec r s lastIndex with
            | None => []
            | Some res =>
                matched res ::
                match_all fuel r s
                  (if endIndex res =? index res then S (endIndex res)
                   else endIndex res)
            end).
    destruct (exec r s lastIndex) as [res|] eqn:E; [|reflexivity].
    destruct (exec_sound _ _ _ E) as (w & _ & _ & Hi & He).
    f_equal. apply IH.
    destruct (Nat.eqb_spec (endIndex res) (index res)); lia.
Qed.

Lemma remove_all_of_list (p : ascii -> bool) (w : list ascii) :
  remove_all (neg p) (string_of_list_ascii w)
  = string_of_list_ascii (filter p w).
Proof.
  unfold remove_all. rewrite list_ascii_of_string_of_list_ascii.
  f_equal. apply filter_ext. intros c. unfold neg. apply negb_involutive.
Qed.

End RegexFacts.

(** ** Properties of LeadExtractor *)

Module LeadExtractorFacts.

Import Regex RegexFacts Types LeadExtractor.
Local Open Scope regex_scope.

(** *** What the extractor's results depend on *)

Lemma processMessage_not_user (e : LeadExtractor) (m : ConversationMessage) :
  msg_role m <> user -> processMessage e m = (None, e, []).
Proof.
  intros H. unfold processMessage.
  destruct (msg_role m); try reflexivity. now elim H.
Qed.

Lemma processMessage_user (e e' : LeadExtractor) (m : ConversationMessage) :
  msg_role m = user ->
  config e = config e' -> currentLead e = currentLead e' ->
  processMessage e m = processMessage e' m.
Proof.
  intros Hr Hc Hl. unfold processMessage. now rewrite Hr, Hc, Hl.
Qed.

Lemma processMessage_alike (e e' : LeadExtractor) (m : ConversationMessage) :
  alike e e' ->
  alike (snd (fst (processMessage e m))) (snd (fst (processMessage e' m))) /\
  snd (processMessage e m) = snd (processMessage e' m).
Proof.
  intros [->|(Hc & Hl & Hl')]; [split; [now left | reflexivity]|].
  destruct (role_eqb (msg_role m) user) eqn:Hr.
  - assert (msg_role m = user) as Hu by (destruct (msg_role m); easy).
    rewrite (processMessage_user e e' m Hu Hc) by congruence.
    split; [now left | reflexivity].
  - assert (msg_role m <> user) as Hu by (destruct (msg_role m); easy).
    rewrite !processMessage_not_user by assumption. simpl.
    split; [right; auto | reflexivity].
Qed.

Lemma replay_alike (msgs : list ConversationMessage) :
  forall e e' : LeadExtractor,
    alike e e' ->
    alike (fst (replay e msgs)) (fst (replay e' msgs)) /\
    snd (replay e msgs) = snd (replay e' msgs).
Proof.
  induction msgs as [|m rest IH]; intros e e' H; simpl.
  - split; [exact H | reflexivity].
  - destruct (processMessage_alike m H) as [H1 H2].
    destruct (processMessage e m) as [[o1 e1] g1].
    destruct (processMessage e' m) as [[o1' e1'] g1'].
    simpl in H1, H2. subst g1'.
    destruct (IH e1 e1' H1) as [H3 H4].
    destruct (replay e1 rest) as [e2 g2].
    destruct (replay e1' rest) as [e2' g2']. simpl in *.
    split; [exact H3 | now rewrite H4].
Qed.

Lemma buildLeadInfo_currentLead (e : LeadExtractor) :
  currentLead (snd (buildLeadInfo e)) = currentLead e /\
  config (snd (buildLeadInfo e)) = config e.
Proof.
  unfold buildLeadInfo, validateEmail.
  destruct (truthy (l_email (currentLead e))); [|split; reflexivity].
  destruct (test_global _ _ _). split; reflexivity.
Qed.

Lemma buildLeadInfo_fields (e : LeadExtractor) :
  let lead := fst (buildLeadInfo e) in
  name lead = l_name (currentLead e) /\
  email lead = l_email (currentLead e) /\
  phone lead = l_phone (currentLead e) /\
  company lead = l_company (currentLead e) /\
  notes lead = l_notes (currentLead e).
Proof.
  unfold buildLeadInfo, validateEmail.
  destruct (truthy (l_email (currentLead e))); [|repeat split].
  destruct (test_global _ _ _). repeat split.
Qed.

Lemma buildLeadInfo_alike (e e' : LeadExtractor) :
  alike e e' -> fst (buildLeadInfo e) = fst (buildLeadInfo e').
Proof.
  intros [->|(Hc & Hl & Hl')]; [reflexivity|].
  unfold buildLeadInfo. now rewrite Hl, Hl'.
Qed.

Lemma hasMinimumInfo_false (lead : LeadInfo) :
  hasMinimumInfo lead = false <->
  truthy (name lead) = false /\ truthy (email lead) = false
  /\ truthy (phone lead) = false.
Proof.
  unfold hasMinimumInfo.
  destruct (truthy (name lead)), (truthy (email lead)), (truthy (phone lead));
    simpl; intuition congruence.
Qed.

Lemma replay_fold (msgs : list ConversationMessage) (e : LeadExtractor) :
  fst (replay e msgs)
  = fold_left (fun x m => snd (fst (processMessage x m))) msgs e.
Proof.
  revert e. induction msgs as [|m rest IH]; intros e; simpl; [reflexivity|].
  rewrite <- IH.
  destruct (processMessage e m) as [[o e1] g1]. simpl.
  now destruct (replay e1 rest).
Qed.

Lemma processConversation_eq (e : LeadExtractor) (st : ConversationState) :
  let e1 := fst (replay (fst (reset e)) (messages st)) in
  let lead := fst (buildLeadInfo e1) in
  let r := processConversation e st in
  fst (fst r) = (if hasMinimumInfo lead then Some lead else None) /\
  snd (fst r) = snd (buildLeadInfo e1) /\
  snd r = snd (reset e) ++ snd (replay (fst (reset e)) (messages st))
          ++ (if hasMinimumInfo lead then [Emit_lead lead] else []).
Proof.
  unfold processConversation.
  destruct (reset e) as [e0 g0]. simpl fst. simpl snd.
  destruct (replay e0 (messages st)) as [e1 g1]. simpl fst. simpl snd.
  destruct (buildLeadInfo e1) as [lead e2]. simpl fst. simpl snd.
  destruct (hasMinimumInfo lead); simpl; repeat split.
  now rewrite app_nil_r.
Qed.

(** C3.  [processConversation] resets the accumulated fields and replays
    the messages of the given state in order through [processMessage]; the
    lead it returns, the events it emits and the fields it leaves
    accumulated are the same for any two extractors of the same
    configuration, whatever they had accumulated before.  It returns null
    exactly when none of name, email and phone is populated at the end.
    After "My name is OldName", replaying a history that only holds
    "My name is NewName" returns a lead named "NewName". *)
Theorem processConversation_discards_prior_state :
  forall (e e' : LeadExtractor) (st : ConversationState),
    config e = config e' ->
    let r := processConversation e st in
    let r' := processConversation e' st in
    let final := snd (fst r) in
    fst (fst r) = fst (fst r') /\
    snd r = snd r' /\
    currentLead final = currentLead (snd (fst r')) /\
    currentLead final
    = currentLead
        (fold_left (fun x m => snd (fst (processMessage x m))) (messages st)
                   (fst (reset e))) /\
    (fst (fst r) = None <->
     truthy (l_name (currentLead final)) = false /\
     truthy (l_email (currentLead final)) = false /\
     truthy (l_phone (currentLead final)) = false) /\
    (forall lead, fst (fst r) = Some lead ->
                  lead = fst (buildLeadInfo
                                (fst (replay (fst (reset e)) (messages st))))) /\
    fst (fst (processConversation
                (snd (fst (processMessage (constructor default_config)
                                          (user_message "My name is OldName"))))
                (history [user_message "My name is NewName"])))
    = Some lead_NewName.
Proof.
  intros e e' st Hc r r' final.
  assert (alike (fst (reset e)) (fst (reset e'))) as H0
    by (right; simpl; auto).
  destruct (replay_alike (messages st) H0) as [H1 H2].
  pose proof (buildLeadInfo_alike H1) as H3.
  destruct (processConversation_eq e st) as (R1 & R2 & R3).
  destruct (processConversation_eq e' st) as (R1' & R2' & R3').
  fold r in R1, R2, R3. fold r' in R1', R2', R3'. fold final in R2.
  set (e1 := fst (replay (fst (reset e)) (messages st))) in *.
  set (e1' := fst (replay (fst (reset e')) (messages st))) in *.
  pose proof (buildLeadInfo_currentLead e1) as [Hl1 _].
  pose proof (buildLeadInfo_currentLead e1') as [Hl1' _].
  pose proof (buildLeadInfo_fields e1) as (Fn & Fe & Fp & _).
  pose proof (hasMinimumInfo_false (fst (buildLeadInfo e1))) as Hmin.
  rewrite Fn, Fe, Fp in Hmin.
  assert (currentLead e1 = currentLead e1') as Hcl
    by (destruct H1 as [->|(_ & -> & ->)]; reflexivity).
  rewrite R1, R1', R3, R3', R2', R2, Hl1, Hl1', <- H3, <- H2.
  repeat split; try assumption; try reflexivity.
  - unfold e1. apply f_equal, replay_fold.
  - destruct (hasMinimumInfo (fst (buildLeadInfo e1))); [discriminate|].
    now apply Hmin.
  - destruct (hasMinimumInfo (fst (buildLeadInfo e1))); [discriminate|].
    now apply Hmin.
  - destruct (hasMinimumInfo (fst (buildLeadInfo e1))); [discriminate|].
    now apply Hmin.
  - intros H. apply Hmin in H. now rewrite H.
  - intros lead.
    destruct (hasMinimumInfo (fst (buildLeadInfo e1))); congruence.
Qed.

Lemma processConversation_discards_prior_state_witness :
  config (snd (fst (processMessage (constructor default_config)
                                   (user_message "My email is a@b.io"))))
  = config (constructor default_config) /\
  fst (fst (processConversation
              (snd (fst (processMessage (constructor default_config)
                                        (user_message "My email is a@b.io"))))
              (history [])))
  = fst (fst (processConversation (constructor default_config) (history []))).
Proof.
  split; [reflexivity|].
  exact (proj1 (processConversation_discards_prior_state
                  (snd (fst (processMessage (constructor default_config)
                               (user_message "My email is a@b.io"))))
                  (constructor default_config) (history []) eq_refl)).
Defined.

(** *** The shape of a phone match *)

Lemma chr_eq (a c : ascii) : chr a c = true -> c = a.
Proof. unfold chr. intros H. apply Ascii.eqb_eq in H. now subst. Qed.

Lemma sep_dropped (c : ascii) :
  sep c = true -> digit c = false /\ kept c = false.
Proof.
  destruct c as [b0 b1 b2 b3 b4 b5 b6 b7].
  destruct b0, b1, b2, b3, b4, b5, b6, b7; vm_compute;
    intros H; try discriminate H; split; reflexivity.
Qed.

Lemma digit_kept (c : ascii) : digit c = true -> kept c = true.
Proof. unfold kept, union. now intros ->. Qed.

Lemma filter_all {A : Type} (p : A -> bool) (l : list A) :
  forallb p l = true -> filter p l = l.
Proof.
  induction l as [|x l IH]; simpl; [reflexivity|].
  intros H. apply andb_prop in H. destruct H as [-> H]. now rewrite IH.
Qed.

Lemma forallb_filter {A : Type} (p : A -> bool) (l : list A) :
  forallb p (filter p l) = true.
Proof.
  induction l as [|x l IH]; simpl; [reflexivity|].
  destruct (p x) eqn:E; simpl; now rewrite ?E, ?IH.
Qed.

Lemma forallb_digit_kept (l : list ascii) :
  forallb digit l = true -> forallb kept l = true.
Proof.
  induction l as [|x l IH]; simpl; [reflexivity|].
  intros H. apply andb_prop in H. destruct H as [Hx H].
  now rewrite (digit_kept _ Hx), IH.
Qed.

(** An optional single character of a class. *)
Lemma lang_opt_chr (p : ascii -> bool) (w : list ascii) :
  lang (Opt (Chr p)) w -> w = [] \/ exists c, w = [c] /\ p c = true.
Proof. simpl. tauto. Qed.

Lemma lang_times (p : ascii -> bool) (n : nat) (w : list ascii) :
  lang (times p n) w -> length w = n /\ forallb p w = true.
Proof. simpl. intros (H1 & H2 & H3). split; [lia | exact H3]. Qed.

(** Of a text matched by the phone pattern, [normalizePhone] keeps an
    optional leading "+" followed by the digits, and there are ten digits,
    or eleven of which the first is "1". *)
Lemma phone_shape (w : list ascii) :
  lang phone_pattern w ->
  exists pl d,
    filter kept w = pl ++ d /\ filter digit w = d /\
    (pl = [] \/ pl = ["+"%char]) /\
    forallb digit d = true /\
    (length d = 10 \/ length d = 11 /\ hd_error d = Some "1"%char).
Proof.
  unfold phone_pattern. cbn [lang].
  intros (w9 & d3 & -> & (w8 & a7 & -> & (w7 & d2 & -> & (w6 & a6 & -> &
          (w5 & a5 & -> & (w4 & d1 & -> & (w3 & a4 & -> & (w2 & a3 & -> &
          (a1 & a2 & -> & H1 & H2) & H3) & H4) & Hd1) & H5) & H6) & Hd2)
          & H7) & Hd3).
  apply lang_times in Hd1, Hd2, Hd3.
  destruct Hd1 as [L1 D1], Hd2 as [L2 D2], Hd3 as [L3 D3].
  exists a1, (a2 ++ d1 ++ d2 ++ d3).
  assert (Hsep : forall a, a = [] \/ (exists c, a = [c] /\ sep c = true) ->
                 filter kept a = [] /\ filter digit a = []).
  { intros a [->|(c & -> & Hc)]; [split; reflexivity|].
    destruct (sep_dropped c Hc) as [Hd Hk]. simpl. now rewrite Hd, Hk. }
  assert (Hpar : forall a x, x = "("%char \/ x = ")"%char ->
                 a = [] \/ (exists c, a = [c] /\ chr x c = true) ->
                 filter kept a = [] /\ filter digit a = []).
  { intros a x Hx [->|(c & -> & Hc)]; [split; reflexivity|].
    apply chr_eq in Hc. subst c.
    destruct Hx as [-> | ->]; split; reflexivity. }
  apply lang_opt_chr in H1, H2, H3, H4, H5, H6, H7.
  destruct (Hsep a3 H3) as [K3 G3]. destruct (Hsep a6 H6) as [K6 G6].
  destruct (Hsep a7 H7) as [K7 G7].
  destruct (Hpar a4 "("%char (or_introl eq_refl) H4) as [K4 G4].
  destruct (Hpar a5 ")"%char (or_intror eq_refl) H5) as [K5 G5].
  assert (filter kept a1 = a1 /\ filter digit a1 = [] /\
          (a1 = [] \/ a1 = ["+"%char])) as (K1 & G1 & S1).
  { destruct H1 as [->|(c & -> & Hc)]; [repeat split; now left|].
    apply chr_eq in Hc. subst c. repeat split. now right. }
  assert (filter kept a2 = a2 /\ filter digit a2 = a2 /\
          (a2 = [] \/ a2 = ["1"%char])) as (K2 & G2 & S2).
  { destruct H2 as [->|(c & -> & Hc)]; [repeat split; now left|].
    apply chr_eq in Hc. subst c. repeat split. now right. }
  rewrite !filter_app, K1, K2, K3, K4, K5, K6, K7, G1, G2, G3, G4, G5, G6, G7.
  rewrite !(filter_all kept) by now apply forallb_digit_kept.
  rewrite !(filter_all digit) by assumption.
  rewrite !app_nil_r. simpl app. rewrite <- !app_assoc.
  repeat split; auto.
  - rewrite !forallb_app, D1, D2, D3.
    destruct S2 as [->| ->]; reflexivity.
  - rewrite !length_app, L1, L2, L3.
    destruct S2 as [->| ->]; simpl; [left; lia | right; split; [lia | reflexivity]].
Qed.

Lemma starts_with_1_of_list (l : list ascii) :
  starts_with_1 (string_of_list_ascii l)
  = match l with c :: _ => Ascii.eqb c "1" | [] => false end.
Proof. now destruct l. Qed.

Lemma digit_count_of_list (l : list ascii) :
  digit_count (string_of_list_ascii l) = length (filter digit l).
Proof.
  unfold digit_count.
  now rewrite remove_all_of_list, length_string_of_list_ascii.
Qed.

(** [normalizePhone] on a text of the shape [phone_shape] describes. *)
Lemma normalizePhone_shape (w pl d : list ascii) :
  filter kept w = pl ++ d ->
  pl = [] \/ pl = ["+"%char] ->
  forallb digit d = true ->
  length d = 10 \/ length d = 11 /\ hd_error d = Some "1"%char ->
  normalizePhone (string_of_list_ascii w)
  = string_of_list_ascii
      ("+"%char :: (if (length d =? 10) && (length pl =? 0)
                    then ["1"%char] else []) ++ d).
Proof.
  intros Hk Hpl Hd Hlen. unfold normalizePhone. fold kept.
  rewrite remove_all_of_list, Hk, length_string_of_list_ascii,
    starts_with_1_of_list, length_app.
  destruct Hpl as [-> | ->]; simpl length; simpl app.
  - destruct Hlen as [L | [L Hhd]]; rewrite L; simpl.
    + reflexivity.
    + destruct d as [|c d']; [discriminate|]. inversion Hhd; subst c.
      reflexivity.
  - destruct Hlen as [L | [L Hhd]]; rewrite L; reflexivity.
Qed.

Lemma fold_custom_phone (text : string) (xs : list (string -> Updates)) :
  forall u : Updates,
    (forall x, In x xs -> u_phone (x text) = None) ->
    u_phone (fold_left (fun u x => assign_updates u (x text)) xs u)
    = u_phone u.
Proof.
  induction xs as [|x xs IH]; intros u H; simpl; [reflexivity|].
  rewrite IH by (intros y Hy; apply H; now right).
  simpl. now rewrite (H x (or_introl eq_refl)).
Qed.

Lemma builtin_updates_phone (text : string) :
  u_phone (fst (builtin_updates text))
  = match js_match_global phone_pattern text with
    | Some (first :: _) => Some (Some (normalizePhone first))
    | _ => None
    end.
Proof.
  unfold builtin_updates.
  destruct (js_match_global email_pattern text) as [[|? ?]|];
    destruct (js_match_global phone_pattern text) as [[|? ?]|];
    destruct (extractName text) as [[|? ?]|];
    destruct (extractCompany text) as [[|? ?]|]; reflexivity.
Qed.

Lemma processMessage_currentLead (e : LeadExtractor)
  (message : ConversationMessage) :
  msg_role message = user ->
  currentLead (snd (fst (processMessage e message)))
  = merge (currentLead e)
      (fold_left (fun u x => assign_updates u (x (content message)))
                 (customExtractors (config e))
                 (fst (builtin_updates (content message)))).
Proof.
  intros Hr. unfold processMessage. rewrite Hr. simpl negb. cbv iota.
  destruct (builtin_updates (content message)) as [u logs]. simpl fst.
  match goal with
  | |- context [buildLeadInfo ?x] =>
      pose proof (buildLeadInfo_currentLead x) as [H _];
      destruct (buildLeadInfo x) as [lead e2]
  end.
  simpl in H. destruct (_ && _); simpl; exact H.
Qed.

(** What [processMessage] does with the first match of the phone pattern,
    with no custom extractor supplying a phone of its own.  Of the match
    only its digits and a leading "+" remain ([stripped]); there are ten
    digits, or eleven of which the first is "1".  [normalizePhone] goes by
    the length of [stripped], in which a "+" counts: length 11 and a first
    character "1" give a leading "+", length 10 gives "+1", and any other
    [stripped] (it then starts with "+") is kept as it is.  The result
    always has ten or eleven digits.  "My number is 4155551234" gives
    "+14155551234", and "I live in zip code 94043" gives no phone at all. *)
Theorem phone_first_match_normalized :
  forall (e : LeadExtractor) (message : ConversationMessage)
         (first : string) (others : list string),
    msg_role message = user ->
    (forall x, In x (customExtractors (config e)) ->
               u_phone (x (content message)) = None) ->
    js_match_global phone_pattern (content message) = Some (first :: others) ->
    let stripped := remove_all (neg kept) first in
    let digits := remove_all (neg digit) first in
    let p := normalizePhone first in
    l_phone (currentLead (snd (fst (processMessage e message)))) = Some p /\
    (stripped = digits \/ stripped = ("+" ++ digits)%string) /\
    (String.length digits = 10 \/
     String.length digits = 11 /\ starts_with_1 digits = true) /\
    p = (if (String.length stripped =? 11) && starts_with_1 stripped
         then ("+" ++ stripped)%string
         else if String.length stripped =? 10
              then ("+1" ++ stripped)%string
              else stripped) /\
    (stripped = digits -> String.length digits = 10 ->
     p = ("+1" ++ digits)%string) /\
    (stripped = digits -> String.length digits = 11 ->
     p = ("+" ++ digits)%string) /\
    (stripped = ("+" ++ digits)%string -> p = stripped) /\
    10 <= digit_count p <= 11 /\
    l_phone (currentLead (snd (fst (processMessage
               (constructor default_config)
               (user_message "My number is 4155551234")))))
    = Some "+14155551234"%string /\
    l_phone (currentLead (snd (fst (processMessage
               (constructor default_config)
               (user_message "I live in zip code 94043")))))
    = None.
Proof.
  intros e message first others Hr Hcustom Hmatch stripped digits p.
  destruct (js_match_global_first _ _ Hmatch) as (res & Hexec & Hfirst).
  destruct (exec_sound _ _ _ Hexec) as (w & Hw & Hm & _).
  destruct (phone_shape Hw) as (pl & d & Hk & Hg & Hpl & Hd & Hlen).
  assert (first = string_of_list_ascii w) as Hf by congruence.
  assert (stripped = string_of_list_ascii (pl ++ d)) as Hs.
  { unfold stripped. now rewrite Hf, remove_all_of_list, Hk. }
  assert (digits = string_of_list_ascii d) as Hdg.
  { unfold digits. now rewrite Hf, remove_all_of_list, Hg. }
  assert (p = string_of_list_ascii
                ("+"%char :: (if (length d =? 10) && (length pl =? 0)
                              then ["1"%char] else []) ++ d)) as Hp.
  { unfold p. rewrite Hf. now apply normalizePhone_shape. }
  assert (String.length digits = length d) as Ld
    by now rewrite Hdg, length_string_of_list_ascii.
  assert (starts_with_1 digits = true <-> hd_error d = Some "1"%char) as H1.
  { rewrite Hdg, starts_with_1_of_list. destruct d as [|c d']; simpl.
    - split; discriminate.
    - split; intros H.
      + apply Ascii.eqb_eq in H. now subst.
      + inversion H. apply Ascii.eqb_refl. }
  split.
  { rewrite processMessage_currentLead by exact Hr. simpl.
    rewrite fold_custom_phone by exact Hcustom.
    now rewrite builtin_updates_phone, Hmatch. }
  split.
  { rewrite Hs, Hdg. destruct Hpl as [-> | ->]; [now left | now right]. }
  split.
  { rewrite Ld. destruct Hlen as [L | [L Hhd]]; [now left | right].
    split; [exact L | now apply H1]. }
  split; [reflexivity|].
  split.
  { intros Heq L. rewrite Hp, Hdg. rewrite Ld in L. rewrite L.
    assert (pl = []) as ->.
    { destruct Hpl as [-> | ->]; [reflexivity|].
      rewrite Hs, Hdg in Heq.
      apply (f_equal String.length) in Heq. simpl in Heq. lia. }
    reflexivity. }
  split.
  { intros Heq L. rewrite Hp, Hdg. rewrite Ld in L. rewrite L.
    reflexivity. }
  split.
  { intros Heq. rewrite Hp, Hs.
    assert (pl = ["+"%char]) as ->.
    { destruct Hpl as [-> | ->]; [|reflexivity].
      rewrite Hs, Hdg in Heq.
      apply (f_equal String.length) in Heq. simpl in Heq. lia. }
    simpl. now rewrite andb_false_r. }
  split.
  { rewrite Hp, digit_count_of_list.
    change (filter digit ("+"%char :: ?l)) with (filter digit l).
    rewrite filter_app, (filter_all digit d Hd), length_app.
    destruct Hlen as [L | [L _]]; rewrite L;
      destruct (length pl =? 0); simpl; lia. }
  split; reflexivity.
Qed.

Lemma phone_first_match_normalized_witness :
  msg_role (user_message "Call me at 555-867-5309") = user /\
  js_match_global phone_pattern "Call me at 555-867-5309"
  = Some [" 555-867-5309"%string] /\
  l_phone (currentLead (snd (fst (processMessage
             (constructor default_config)
             (user_message "Call me at 555-867-5309")))))
  = Some (normalizePhone " 555-867-5309").
Proof.
  split; [reflexivity|]. split; [reflexivity|].
  exact (proj1 (phone_first_match_normalized
                  (constructor default_config)
                  (user_message "Call me at 555-867-5309")
                  (others := []) eq_refl
                  (fun x (H : In x []) => match H with end) eq_refl)).
Defined.

(** C4, on the code.  In "Call me at +4155551234" the phone pattern
    matches "+4155551234", which holds exactly ten digits: "+1" was to be
    prepended, as for the same number without the "+" (the comment in
    [normalizePhone] reads "Add +1 if 10 digits").  But [normalizePhone]
    compares the length of the stripped text, where the "+" counts: the
    length is 11, the text does not start with "1", and the phone kept is
    "+4155551234", which is neither "+1" followed by the ten digits nor
    the digits alone. *)
Theorem normalizePhone_counts_the_plus_sign :
  let text := "Call me at +4155551234"%string in
  let e := snd (fst (processMessage (constructor default_config)
                                    (user_message text))) in
  js_match_global phone_pattern text = Some ["+4155551234"%string] /\
  remove_all (neg digit) "+4155551234" = "4155551234"%string /\
  String.length "4155551234" = 10 /\
  l_phone (currentLead e) = Some "+4155551234"%string /\
  l_phone (currentLead e) <> Some "+14155551234"%string /\
  l_phone (currentLead e) <> Some "4155551234"%string /\
  l_phone (currentLead (snd (fst (processMessage
             (constructor default_config)
             (user_message "Call me at 4155551234")))))
  = Some "+14155551234"%string.
Proof. vm_compute. repeat split; discriminate. Qed.

(** *** Confidence scores *)

(** What [buildLeadInfo] computes from the accumulated fields.  The email
    score is the outcome of [test] from the position the email pattern was
    left at, not of a fresh validation. *)
#[warnings="-inexact-float"]
Lemma buildLeadInfo_confidence (e : LeadExtractor) :
  let lead := fst (buildLeadInfo e) in
  c_name (confidence lead)
  = (if truthy (name lead) then Some 0.85%float else None) /\
  c_phone (confidence lead)
  = (if truthy (phone lead)
     then Some (if (10 <=? digit_count (value (phone lead)))
                   && (digit_count (value (phone lead)) <=? 15)
                then 1.0%float else 0.5%float)
     else None) /\
  c_email (confidence lead)
  = (if truthy (email lead)
     then Some (if fst (test_global email_pattern (emailLastIndex e)
                                    (value (email lead)))
                then 1.0%float else 0.5%float)
     else None).
Proof.
  unfold buildLeadInfo, validateEmail, validatePhone, digit_count.
  destruct (truthy (l_email (currentLead e))) eqn:E.
  - destruct (test_global _ _ _) as [ok li] eqn:T. simpl.
    rewrite E, T. repeat split.
  - simpl. rewrite E. repeat split.
Qed.

(** The lead returned by [processMessage] is scored from position 0. *)
Lemma processMessage_email_confidence (e : LeadExtractor)
  (message : ConversationMessage) (lead : LeadInfo) :
  fst (fst (processMessage e message)) = Some lead ->
  c_email (confidence lead)
  = (if truthy (email lead)
     then Some (if fst (test_global email_pattern 0 (value (email lead)))
                then 1.0%float else 0.5%float)
     else None).
Proof.
  unfold processMessage.
  destruct (negb _); [discriminate|].
  destruct (builtin_updates _) as [u logs].
  match goal with
  | |- context [buildLeadInfo ?x] =>
      pose proof (buildLeadInfo_confidence x) as (_ & _ & H);
      destruct (buildLeadInfo x) as [l e2]
  end.
  simpl in H. destruct (_ && _); [|discriminate].
  intros E. inversion E; subst. exact H.
Qed.

(** C5, on the code.  After "Email me at valid@email.com" the accumulated
    email is "valid@email.com", which the email pattern matches; yet the
    next snapshot scores it 0.5, the one after 1.0, and so on in turn,
    although the accumulated fields do not change: the email pattern has
    the [g] flag, so [test] resumes where the previous call stopped. *)
Theorem getCurrentLead_email_confidence_alternates :
  let e1 := snd (fst (processMessage
                        (constructor default_config)
                        (user_message "Email me at valid@email.com"))) in
  let first := getCurrentLead e1 in
  let second := getCurrentLead (snd first) in
  l_email (currentLead e1) = Some "valid@email.com"%string /\
  fst (test_global email_pattern 0 "valid@email.com") = true /\
  c_email (confidence (fst first)) = Some 0.5%float /\
  c_email (confidence (fst second)) = Some 1.0%float /\
  currentLead (snd first) = currentLead e1 /\
  currentLead (snd second) = currentLead e1.
Proof. vm_compute. repeat split. Qed.

(** *** Messages of other roles *)

Lemma replay_user_messages_only (msgs : list ConversationMessage) :
  forall e : LeadExtractor, replay e (filter is_user msgs) = replay e msgs.
Proof.
  induction msgs as [|m msgs IH]; intros e; [reflexivity|].
  cbn [filter]. unfold is_user at 1.
  destruct (role_eqb (msg_role m) user) eqn:R.
  - cbn [replay]. destruct (processMessage e m) as [[o e1] g1].
    now rewrite IH.
  - cbn [replay]. rewrite processMessage_not_user.
    + rewrite IH. now destruct (replay e msgs).
    + intros E. rewrite E in R. discriminate.
Qed.

(** Only the user messages of a history count: [processConversation]
    returns the same lead, leaves the same extractor and performs the same
    effects when the messages of the other roles are taken out of the
    history; and [processMessage] on a message that is not a user message
    returns null and does nothing. *)
Theorem processConversation_reads_user_messages_only :
  forall (e : LeadExtractor) (st : ConversationState)
         (message : ConversationMessage),
    processConversation e (user_messages_only st) = processConversation e st /\
    (is_user message = false -> processMessage e message = (None, e, [])).
Proof.
  intros e st message. split.
  - unfold processConversation, user_messages_only. cbn [messages].
    destruct (reset e) as [e0 g0]. now rewrite replay_user_messages_only.
  - unfold is_user. intros R. apply processMessage_not_user.
    intros E. rewrite E in R. discriminate.
Qed.

(** *** Settings that are never read *)

Lemma buildLeadInfo_same (e e' : LeadExtractor) :
  same_but_unused_settings e e' ->
  fst (buildLeadInfo e) = fst (buildLeadInfo e') /\
  same_but_unused_settings (snd (buildLeadInfo e)) (snd (buildLeadInfo e')).
Proof.
  intros (L & I & X & C). unfold buildLeadInfo, validateEmail.
  rewrite <- L, <- I.
  destruct (truthy (l_email (currentLead e))).
  - destruct (test_global _ _ _) as [ok li]. cbn.
    split; [reflexivity|]. repeat split; auto.
  - cbn. split; [reflexivity|]. repeat split; auto.
Qed.

Lemma processMessage_same (e e' : LeadExtractor) (m : ConversationMessage) :
  same_but_unused_settings e e' ->
  fst (fst (processMessage e m)) = fst (fst (processMessage e' m)) /\
  snd (processMessage e m) = snd (processMessage e' m) /\
  same_but_unused_settings (snd (fst (processMessage e m)))
                           (snd (fst (processMessage e' m))).
Proof.
  intros S. pose proof S as (L & I & X & C). unfold processMessage.
  destruct (negb (role_eqb (msg_role m) user)); [cbn; auto|].
  destruct (builtin_updates (content m)) as [u logs].
  rewrite <- C, <- L, <- X.
  match goal with
  | |- context [buildLeadInfo ?a] =>
      match goal with
      | |- context [buildLeadInfo ?b] =>
          tryif constr_eq a b then fail else
            (destruct (@buildLeadInfo_same a b) as (F & S');
             [repeat split; cbn; auto|])
      end
  end.
  match goal with
  | |- context [buildLeadInfo ?a] =>
      match goal with
      | |- context [buildLeadInfo ?b] =>
          tryif constr_eq a b then fail else
            (destruct (buildLeadInfo a) as [lead e2];
             destruct (buildLeadInfo b) as [lead' e2'])
      end
  end.
  cbn [fst snd] in F, S'. subst lead'.
  destruct (hasMinimumInfo lead && extractOnEveryMessage (config e)); cbn; auto.
Qed.

Lemma replay_same (msgs : list ConversationMessage) :
  forall e e' : LeadExtractor,
    same_but_unused_settings e e' ->
    snd (replay e msgs) = snd (replay e' msgs) /\
    same_but_unused_settings (fst (replay e msgs)) (fst (replay e' msgs)).
Proof.
  induction msgs as [|m msgs IH]; intros e e' S; [cbn; auto|].
  cbn [replay]. destruct (@processMessage_same e e' m S) as (_ & G & S1).
  destruct (processMessage e m) as [[o e1] g1].
  destruct (processMessage e' m) as [[o' e1'] g1'].
  cbn [fst snd] in G, S1. subst g1'.
  destruct (IH e1 e1' S1) as (G2 & S2).
  destruct (replay e1 msgs) as [e2 g2]. destruct (replay e1' msgs) as [e2' g2'].
  cbn [fst snd] in *. subst g2'. auto.
Qed.

(** [minConfidence] and [extractOnConversationEnd] are never read.  Two
    extractors that hold the same fields and differ in these two settings
    only return the same leads and emit the same events, call after call:
    for [processMessage], [processConversation], [getCurrentLead] and
    [hasCompleteLead], the results are equal and the extractors are again
    the same but for these settings. *)
Theorem minConfidence_is_never_read :
  forall (e e' : LeadExtractor) (message : ConversationMessage)
         (st : ConversationState),
    same_but_unused_settings e e' ->
    (let r := processMessage e message in
     let r' := processMessage e' message in
     fst (fst r) = fst (fst r') /\ snd r = snd r' /\
     same_but_unused_settings (snd (fst r)) (snd (fst r'))) /\
    (let r := processConversation e st in
     let r' := processConversation e' st in
     fst (fst r) = fst (fst r') /\ snd r = snd r' /\
     same_but_unused_settings (snd (fst r)) (snd (fst r'))) /\
    (fst (getCurrentLead e) = fst (getCurrentLead e') /\
     same_but_unused_settings (snd (getCurrentLead e))
                              (snd (getCurrentLead e'))) /\
    (fst (hasCompleteLead e) = fst (hasCompleteLead e') /\
     same_but_unused_settings (snd (hasCompleteLead e))
                              (snd (hasCompleteLead e'))).
Proof.
  intros e e' message st S. split; [|split; [|split]].
  - now apply processMessage_same.
  - cbn zeta. unfold processConversation, reset.
    match goal with
    | |- context [replay ?a (messages st)] =>
        match goal with
        | |- context [replay ?b (messages st)] =>
            tryif constr_eq a b then fail else
              (destruct (@replay_same (messages st) a b) as (G & S1);
               [destruct S as (L & I & X & C); repeat split; auto|];
               destruct (replay a (messages st)) as [e1 g1];
               destruct (replay b (messages st)) as [e1' g1'])
        end
    end.
    cbn [fst snd] in G, S1. subst g1'.
    destruct (buildLeadInfo_same S1) as (F & S2).
    destruct (buildLeadInfo e1) as [lead e2].
    destruct (buildLeadInfo e1') as [lead' e2'].
    cbn [fst snd] in F, S2. subst lead'.
    destruct (hasMinimumInfo lead); cbn; auto.
  - now apply buildLeadInfo_same.
  - unfold hasCompleteLead. destruct (buildLeadInfo_same S) as (F & S2).
    destruct (buildLeadInfo e) as [lead e2].
    destruct (buildLeadInfo e') as [lead' e2'].
    cbn [fst snd] in *. now subst lead'.
Qed.

#[warnings="-inexact-float"]
Lemma minConfidence_is_never_read_witness :
  let strict :=
    {| config := {| minConfidence := 1%float; extractOnEveryMessage := true;
                    extractOnConversationEnd := false;
                    customExtractors := [] |};
       currentLead := empty_lead; emailLastIndex := 0 |} in
  same_but_unused_settings (constructor default_config) strict /\
  fst (fst (processMessage strict (user_message "My name is NewName")))
  = Some lead_NewName.
Proof.
  intros strict.
  assert (S : same_but_unused_settings (constructor default_config) strict)
    by (repeat split; reflexivity).
  split; [exact S|].
  destruct (@minConfidence_is_never_read
              (constructor default_config) strict
              (user_message "My name is NewName") (history []) S)
    as ((H & _) & _).
  cbn zeta in H. rewrite <- H. vm_compute. reflexivity.
Defined.

(** *** What the built-in extraction yields *)

Lemma email_match_shape (w : list ascii) :
  lang email_pattern w ->
  exists l d t,
    w = l ++ "@"%char :: d ++ "."%char :: t /\
    1 <= length l /\ forallb email_local l = true /\
    1 <= length d /\ forallb email_domain d = true /\
    2 <= length t /\ forallb email_tld t = true.
Proof.
  unfold email_pattern. cbn [lang plus].
  intros (w6 & b2 & -> & (w5 & t & -> & (w4 & dot & -> & (w3 & d & -> &
          (w2 & at_ & -> & (b1 & l & -> & -> & (L1 & _ & L2))
           & (c1 & -> & C1)) & (D1 & _ & D2)) & (c2 & -> & C2))
          & (T1 & _ & T2)) & ->).
  apply chr_eq in C1, C2. subst c1 c2.
  exists l, d, t. rewrite app_nil_r. cbn [app].
  rewrite <- !app_assoc. cbn [app]. auto 10.
Qed.

Lemma builtin_updates_email (text : string) :
  u_email (fst (builtin_updates text))
  = match js_match_global email_pattern text with
    | Some (first :: _) => Some (Some first)
    | _ => None
    end.
Proof.
  unfold builtin_updates.
  destruct (js_match_global email_pattern text) as [[|? ?]|];
    destruct (js_match_global phone_pattern text) as [[|? ?]|];
    destruct (extractName text) as [[|? ?]|];
    destruct (extractCompany text) as [[|? ?]|]; reflexivity.
Qed.

Lemma builtin_updates_name (text : string) :
  u_name (fst (builtin_updates text))
  = match extractName text with
    | Some (String c n) => Some (Some (String c n))
    | _ => None
    end.
Proof.
  unfold builtin_updates.
  destruct (js_match_global email_pattern text) as [[|? ?]|];
    destruct (js_match_global phone_pattern text) as [[|? ?]|];
    destruct (extractName text) as [[|? ?]|];
    destruct (extractCompany text) as [[|? ?]|]; reflexivity.
Qed.

Lemma builtin_updates_company (text : string) :
  u_company (fst (builtin_updates text))
  = match extractCompany text with
    | Some (String c n) => Some (Some (String c n))
    | _ => None
    end.
Proof.
  unfold builtin_updates.
  destruct (js_match_global email_pattern text) as [[|? ?]|];
    destruct (js_match_global phone_pattern text) as [[|? ?]|];
    destruct (extractName text) as [[|? ?]|];
    destruct (extractCompany text) as [[|? ?]|]; reflexivity.
Qed.

Lemma builtin_updates_notes (text : string) :
  u_notes (fst (builtin_updates text)) = None.
Proof.
  unfold builtin_updates.
  destruct (js_match_global email_pattern text) as [[|? ?]|];
    destruct (js_match_global phone_pattern text) as [[|? ?]|];
    destruct (extractName text) as [[|? ?]|];
    destruct (extractCompany text) as [[|? ?]|]; reflexivity.
Qed.

Lemma email_match_truthy (text first : string) (others : list string) :
  js_match_global email_pattern text = Some (first :: others) ->
  truthy (Some first) = true.
Proof.
  intros H. destruct (js_match_global_first _ _ H) as (res & Hexec & Hfirst).
  destruct (exec_sound _ _ _ Hexec) as (w & Hw & Hm & _).
  destruct (email_match_shape Hw) as (l & d & t & -> & Hl & _).
  rewrite <- Hfirst, Hm. destruct l; [cbn in Hl; lia | reflexivity].
Qed.

(** The phone kept for a match of the phone pattern is a "+" followed by
    ten or eleven digits. *)
Lemma phone_match_normalized (text first : string) (others : list string) :
  js_match_global phone_pattern text = Some (first :: others) ->
  plus_and_digits (normalizePhone first) = true.
Proof.
  intros H. destruct (js_match_global_first _ _ H) as (res & Hexec & Hfirst).
  destruct (exec_sound _ _ _ Hexec) as (w & Hw & Hm & _).
  destruct (phone_shape Hw) as (pl & d & Hk & Hg & Hpl & Hd & Hlen).
  assert (first = string_of_list_ascii w) as -> by congruence.
  rewrite (@normalizePhone_shape w pl d Hk Hpl Hd Hlen).
  cbn [string_of_list_ascii plus_and_digits].
  rewrite list_ascii_of_string_of_list_ascii, length_string_of_list_ascii.
  rewrite forallb_app, Hd, andb_true_r, length_app.
  destruct Hlen as [L | [L _]]; rewrite L;
    destruct Hpl as [-> | ->]; reflexivity.
Qed.

Lemma plus_and_digits_valid (p : string) :
  plus_and_digits p = true ->
  truthy (Some p) = true /\ validatePhone p = true /\
  10 <= digit_count p <= 11.
Proof.
  destruct p as [|c d]; [discriminate|]. cbn [plus_and_digits].
  destruct (Ascii.eqb c "+") eqn:E.
  - apply Ascii.eqb_eq in E. subst c. cbn [plus_and_digits].
    intros H. apply andb_prop in H. destruct H as [D L].
    assert (C : digit_count (String "+" d) = String.length d).
    { rewrite <- (string_of_list_ascii_of_string d) at 1.
      change (String "+" (string_of_list_ascii ?l))
        with (string_of_list_ascii ("+"%char :: l)).
      rewrite digit_count_of_list.
      change (filter digit ("+"%char :: ?l)) with (filter digit l).
      rewrite (filter_all digit _ D).
      now rewrite <- length_string_of_list_ascii,
                  string_of_list_ascii_of_string. }
    split; [reflexivity|].
    unfold validatePhone. fold (digit_count (String "+" d)). rewrite C.
    apply orb_prop in L. destruct L as [L|L]; apply Nat.eqb_eq in L;
      rewrite L; split; [reflexivity | lia | reflexivity | lia].
  - destruct c as [[] [] [] [] [] [] [] []]; try discriminate.
Qed.

(** What each step of the built-in extraction may put in the updates: a
    populated value or nothing. *)
Lemma builtin_updates_fields (text : string) :
  let u := fst (builtin_updates text) in
  (u_name u = None \/ exists s, u_name u = Some (Some s) /\ truthy (Some s) = true) /\
  (u_email u = None \/ exists s, u_email u = Some (Some s) /\ truthy (Some s) = true) /\
  (u_phone u = None \/ exists s, u_phone u = Some (Some s) /\ plus_and_digits s = true) /\
  (u_company u = None \/ exists s, u_company u = Some (Some s) /\ truthy (Some s) = true) /\
  u_notes u = None.
Proof.
  cbn zeta. rewrite builtin_updates_name, builtin_updates_email,
    builtin_updates_phone, builtin_updates_company, builtin_updates_notes.
  repeat split.
  - destruct (extractName text) as [[|c n]|]; eauto.
  - destruct (js_match_global email_pattern text) as [[|first others]|] eqn:E;
      eauto using email_match_truthy.
  - destruct (js_match_global phone_pattern text) as [[|first others]|] eqn:E;
      eauto using phone_match_normalized.
  - destruct (extractCompany text) as [[|c n]|]; eauto.
Qed.

(** One user message, with no custom extractor. *)
Lemma processMessage_builtin (e : LeadExtractor) (m : ConversationMessage) :
  customExtractors (config e) = [] -> is_user m = true ->
  let e' := snd (fst (processMessage e m)) in
  currentLead e' = merge (currentLead e) (fst (builtin_updates (content m))) /\
  config e' = config e.
Proof.
  intros C U. unfold is_user in U.
  assert (R : msg_role m = user) by (now destruct (msg_role m)).
  split.
  - rewrite processMessage_currentLead by exact R. now rewrite C.
  - unfold processMessage. rewrite R. cbn [role_eqb negb].
    destruct (builtin_updates (content m)) as [u logs].
    match goal with
    | |- context [buildLeadInfo ?x] =>
        pose proof (buildLeadInfo_currentLead x) as [_ H];
        destruct (buildLeadInfo x) as [lead e2]
    end.
    cbn in H. destruct (_ && _); cbn; exact H.
Qed.

Lemma processMessage_keeps (e : LeadExtractor) (m : ConversationMessage) :
  customExtractors (config e) = [] ->
  let l := currentLead e in
  let l' := currentLead (snd (fst (processMessage e m))) in
  config (snd (fst (processMessage e m))) = config e /\
  (truthy (l_name l) = true -> truthy (l_name l') = true) /\
  (truthy (l_email l) = true -> truthy (l_email l') = true) /\
  (truthy (l_phone l) = true -> truthy (l_phone l') = true) /\
  (truthy (l_company l) = true -> truthy (l_company l') = true) /\
  l_notes l' = l_notes l /\
  ((forall p, l_phone l = Some p -> plus_and_digits p = true) ->
   forall p, l_phone l' = Some p -> plus_and_digits p = true).
Proof.
  intros C. destruct (is_user m) eqn:U.
  - destruct (processMessage_builtin e m C U) as (L & K).
    cbn zeta. rewrite L, K.
    destruct (builtin_updates_fields (content m)) as (N & E & P & Co & No).
    cbn zeta in *. unfold merge. cbn.
    split; [reflexivity|]. repeat split.
    + destruct N as [-> | (s & -> & T)]; auto.
    + destruct E as [-> | (s & -> & T)]; auto.
    + destruct P as [-> | (s & -> & T)]; auto.
      intros _. now apply plus_and_digits_valid.
    + destruct Co as [-> | (s & -> & T)]; auto.
    + now rewrite No.
    + destruct P as [-> | (s & -> & T)]; cbn; auto.
      intros _ p [= <-]. exact T.
  - rewrite processMessage_not_user.
    + cbn. auto 10.
    + unfold is_user in U. intros R. rewrite R in U. discriminate.
Qed.

Lemma replay_keeps (msgs : list ConversationMessage) :
  forall e : LeadExtractor,
    customExtractors (config e) = [] ->
    let l := currentLead e in
    let l' := currentLead (fst (replay e msgs)) in
    config (fst (replay e msgs)) = config e /\
    (truthy (l_name l) = true -> truthy (l_name l') = true) /\
    (truthy (l_email l) = true -> truthy (l_email l') = true) /\
    (truthy (l_phone l) = true -> truthy (l_phone l') = true) /\
    (truthy (l_company l) = true -> truthy (l_company l') = true) /\
    l_notes l' = l_notes l /\
    ((forall p, l_phone l = Some p -> plus_and_digits p = true) ->
     forall p, l_phone l' = Some p -> plus_and_digits p = true).
Proof.
  induction msgs as [|m msgs IH]; intros e C; [cbn; auto 10|].
  cbn [replay].
  destruct (@processMessage_keeps e m C) as (K & N & E & P & Co & No & Pd).
  destruct (processMessage e m) as [[o e1] g1]. cbn [fst snd] in *.
  assert (C1 : customExtractors (config e1) = []) by now rewrite K.
  destruct (IH e1 C1) as (K2 & N2 & E2 & P2 & Co2 & No2 & Pd2).
  destruct (replay e1 msgs) as [e2 g2]. cbn [fst snd] in *.
  split; [congruence|]. repeat split; auto. congruence.
Qed.

Lemma hasCompleteLead_fields (e : LeadExtractor) :
  fst (hasCompleteLead e)
  = truthy (l_name (currentLead e)) && truthy (l_email (currentLead e))
    && truthy (l_phone (currentLead e)).
Proof.
  unfold hasCompleteLead.
  destruct (buildLeadInfo_fields e) as (N & E & P & _).
  destruct (buildLeadInfo e) as [lead e1]. cbn [fst] in *.
  now rewrite N, E, P.
Qed.

(** With no custom extractor, a field that has been extracted is never
    lost: whatever messages are processed afterwards, a name, email, phone
    or company that is populated stays populated (a later message can only
    replace it by another populated value), the notes stay as they are,
    and a lead that is complete stays complete. *)
Theorem extracted_fields_are_never_lost :
  forall (e : LeadExtractor) (msgs : list ConversationMessage),
    customExtractors (config e) = [] ->
    let l := currentLead e in
    let e' := fst (replay e msgs) in
    let l' := currentLead e' in
    (truthy (l_name l) = true -> truthy (l_name l') = true) /\
    (truthy (l_email l) = true -> truthy (l_email l') = true) /\
    (truthy (l_phone l) = true -> truthy (l_phone l') = true) /\
    (truthy (l_company l) = true -> truthy (l_company l') = true) /\
    l_notes l' = l_notes l /\
    (fst (hasCompleteLead e) = true -> fst (hasCompleteLead e') = true).
Proof.
  intros e msgs C l e' l'. subst l e' l'.
  destruct (@replay_keeps msgs e C) as (_ & N & E & P & Co & No & _).
  cbn zeta in *. repeat split; auto.
  rewrite !hasCompleteLead_fields. intros H.
  apply andb_prop in H. destruct H as [H Hp].
  apply andb_prop in H. destruct H as [Hn He].
  now rewrite (N Hn), (E He), (P Hp).
Qed.

Lemma extracted_fields_are_never_lost_witness :
  let e := snd (fst (processMessage (constructor default_config)
                       (user_message "My name is Carlos Ruiz"))) in
  customExtractors (config e) = [] /\
  truthy (l_name (currentLead e)) = true /\
  truthy (l_name (currentLead
                    (fst (replay e [user_message "Phone is 650-555-0001"]))))
  = true.
Proof.
  intros e.
  pose proof (@extracted_fields_are_never_lost
                e [user_message "Phone is 650-555-0001"] eq_refl)
    as (H & _).
  split; [reflexivity|]. split; [reflexivity|]. apply H. reflexivity.
Defined.

(** *** The leads that are emitted *)

Lemma builtin_updates_logs (text : string) :
  emitted_leads (snd (builtin_updates text)) = [].
Proof.
  unfold builtin_updates.
  destruct (js_match_global email_pattern text) as [[|? ?]|];
    destruct (js_match_global phone_pattern text) as [[|? ?]|];
    destruct (extractName text) as [[|? ?]|];
    destruct (extractCompany text) as [[|? ?]|]; reflexivity.
Qed.

Lemma emitted_leads_app (g1 g2 : list effect) :
  emitted_leads (g1 ++ g2) = emitted_leads g1 ++ emitted_leads g2.
Proof.
  induction g1 as [|[lead|l s] g1 IH]; cbn; auto. now rewrite IH.
Qed.

Lemma hasMinimumInfo_informed (e : LeadExtractor) :
  hasMinimumInfo (fst (buildLeadInfo e)) = informed (currentLead e).
Proof.
  destruct (buildLeadInfo_fields e) as (N & E & P & _).
  unfold hasMinimumInfo, informed. rewrite N, E, P.
  now destruct (truthy _), (truthy _), (truthy _).
Qed.

(** A user message: the lead that is returned, if any, is the snapshot of
    the fields after the merge, taken with the email pattern at position 0;
    it is returned, and emitted once, exactly when a contact field is
    populated and [extractOnEveryMessage] is set. *)
Lemma processMessage_user_spec (e : LeadExtractor) (m : ConversationMessage) :
  is_user m = true ->
  let r := processMessage e m in
  exists e1,
    emailLastIndex e1 = 0 /\ config e1 = config e /\
    currentLead e1 = currentLead (snd (fst r)) /\
    fst (fst r)
    = (if informed (currentLead e1) && extractOnEveryMessage (config e)
       then Some (fst (buildLeadInfo e1)) else None) /\
    emitted_leads (snd r)
    = (if informed (currentLead e1) && extractOnEveryMessage (config e)
       then [fst (buildLeadInfo e1)] else []).
Proof.
  intros U. unfold is_user in U. unfold processMessage. rewrite U.
  cbn [negb]. pose proof (builtin_updates_logs (content m)) as G.
  destruct (builtin_updates (content m)) as [u logs]. cbn [snd] in G.
  match goal with
  | |- context [buildLeadInfo ?x] =>
      exists x;
      pose proof (hasMinimumInfo_informed x) as H;
      pose proof (buildLeadInfo_currentLead x) as [K _];
      destruct (buildLeadInfo x) as [lead e2] eqn:B
  end.
  cbn [fst snd currentLead] in H, K. cbn zeta. cbn [currentLead].
  rewrite <- H.
  destruct (hasMinimumInfo lead && extractOnEveryMessage (config e)) eqn:D;
    cbn [fst snd].
  - rewrite emitted_leads_app, G. cbn. auto.
  - rewrite G. auto.
Qed.

Lemma replay_emits_for_every_user_message (msgs : list ConversationMessage) :
  forall e : LeadExtractor,
    customExtractors (config e) = [] ->
    extractOnEveryMessage (config e) = true ->
    informed (currentLead e) = true ->
    length (emitted_leads (snd (replay e msgs)))
    = length (filter is_user msgs) /\
    informed (currentLead (fst (replay e msgs))) = true.
Proof.
  induction msgs as [|m msgs IH]; intros e C X I; [cbn; auto|].
  cbn [replay filter].
  destruct (@processMessage_keeps e m C) as (K & N & E & P & _).
  assert (I1 : informed (currentLead (snd (fst (processMessage e m)))) = true).
  { unfold informed in *. cbn zeta in *.
    destruct (truthy (l_name (currentLead e)));
      [now rewrite N|].
    destruct (truthy (l_email (currentLead e)));
      [rewrite E by reflexivity; now rewrite orb_true_r|].
    cbn in I. rewrite P by exact I. now rewrite !orb_true_r. }
  assert (G1 : length (emitted_leads (snd (processMessage e m)))
               = if is_user m then 1 else 0).
  { destruct (is_user m) eqn:U.
    - destruct (@processMessage_user_spec e m U) as (e1 & _ & _ & L & _ & G).
      cbn zeta in G. rewrite G, L, I1, X. reflexivity.
    - rewrite processMessage_not_user; [reflexivity|].
      unfold is_user in U. intros R. rewrite R in U. discriminate. }
  destruct (processMessage e m) as [[o e1] g1]. cbn [fst snd] in *.
  destruct (IH e1) as (L2 & I2); [congruence | congruence | exact I1 |].
  destruct (replay e1 msgs) as [e2 g2]. cbn [fst snd] in *.
  split; [|exact I2].
  rewrite emitted_leads_app, length_app, G1, L2.
  now destruct (is_user m).
Qed.

(** When the first message of a history is a user message that by itself
    gives a name, an email or a phone, [processConversation] (with the
    default settings: no custom extractor, [extractOnEveryMessage] set) emits
    one "lead" event for every user message of the history, and one more at
    the end: a history of [n] user messages gives [n + 1] events. *)
Theorem processConversation_emits_once_per_user_message :
  forall (e : LeadExtractor) (st : ConversationState)
         (first : ConversationMessage) (rest : list ConversationMessage),
    customExtractors (config e) = [] ->
    extractOnEveryMessage (config e) = true ->
    messages st = first :: rest ->
    is_user first = true ->
    informed (currentLead (snd (fst (processMessage (fst (reset e)) first))))
    = true ->
    length (emitted_leads (snd (processConversation e st)))
    = length (filter is_user (messages st)) + 1.
Proof.
  intros e st first rest C X M U I.
  destruct (processConversation_eq e st) as (_ & _ & G). cbn zeta in G.
  rewrite G, M. cbn [reset fst snd app emitted_leads replay filter].
  rewrite U. cbn [reset fst] in I.
  set (e0 := {| config := config e; currentLead := empty_lead;
                emailLastIndex := emailLastIndex e |}) in *.
  destruct (@processMessage_user_spec e0 first U) as (x & _ & _ & L & _ & G1).
  assert (X0 : extractOnEveryMessage (config e0) = true) by exact X.
  cbn zeta in G1. rewrite L, I, X0 in G1.
  destruct (@processMessage_keeps e0 first C) as (K & _).
  destruct (processMessage e0 first) as [[o e1] g1]. cbn [fst snd] in *.
  destruct (@replay_emits_for_every_user_message rest e1) as (L2 & I2);
    [rewrite K; exact C | rewrite K; exact X | exact I |].
  rewrite hasMinimumInfo_informed.
  destruct (replay e1 rest) as [e2 g2]. cbn [fst snd] in *.
  rewrite I2, !emitted_leads_app, !length_app, G1, L2. cbn. lia.
Qed.

Lemma processConversation_emits_once_per_user_message_witness :
  let st := history [user_message "It is alex@test.com";
                     {| msg_role := assistant; content := "Thank you";
                        timestamp := None; metadata := None |};
                     user_message "Goodbye"] in
  customExtractors (config (constructor default_config)) = [] /\
  extractOnEveryMessage (config (constructor default_config)) = true /\
  is_user (user_message "It is alex@test.com") = true /\
  length (emitted_leads
            (snd (processConversation (constructor default_config) st)))
  = 3.
Proof.
  intros st. split; [reflexivity|]. split; [reflexivity|].
  split; [reflexivity|].
  rewrite (@processConversation_emits_once_per_user_message
             (constructor default_config) st
             (user_message "It is alex@test.com")
             [{| msg_role := assistant; content := "Thank you";
                 timestamp := None; metadata := None |};
              user_message "Goodbye"]
             eq_refl eq_refl eq_refl eq_refl);
    [reflexivity | vm_compute; reflexivity].
Defined.

(** *** Phones and emails that are kept *)

Lemma buildLeadInfo_phone_scored (e : LeadExtractor) :
  (forall p, l_phone (currentLead e) = Some p -> plus_and_digits p = true) ->
  let lead := fst (buildLeadInfo e) in
  c_phone (confidence lead)
  = if truthy (phone lead) then Some 1%float else None.
Proof.
  intros P. destruct (buildLeadInfo_confidence e) as (_ & Hp & _).
  destruct (buildLeadInfo_fields e) as (_ & _ & Hf & _).
  cbn zeta in *. rewrite Hp, Hf.
  destruct (l_phone (currentLead e)) as [p|] eqn:Lp; [|reflexivity].
  destruct (plus_and_digits_valid p (P p eq_refl)) as (T & _ & D).
  rewrite T. cbn [value].
  replace (10 <=? digit_count p) with true by (symmetry; apply Nat.leb_le; lia).
  replace (digit_count p <=? 15) with true by (symmetry; apply Nat.leb_le; lia).
  reflexivity.
Qed.

Lemma processMessage_phone_scored (e : LeadExtractor)
  (m : ConversationMessage) :
  customExtractors (config e) = [] ->
  (forall p, l_phone (currentLead e) = Some p -> plus_and_digits p = true) ->
  forall lead, In lead (emitted_leads (snd (processMessage e m))) ->
               c_phone (confidence lead)
               = if truthy (phone lead) then Some 1%float else None.
Proof.
  intros C P lead H. destruct (is_user m) eqn:U.
  - destruct (@processMessage_user_spec e m U) as (x & _ & _ & L & _ & G).
    cbn zeta in G.
    destruct (@processMessage_keeps e m C) as (_ & _ & _ & _ & _ & _ & P').
    specialize (P' P). cbn zeta in P'. rewrite <- L in P'. rewrite G in H.
    destruct (_ && _); [|destruct H]. destruct H as [<-|[]].
    now apply buildLeadInfo_phone_scored.
  - rewrite processMessage_not_user in H; [destruct H|].
    unfold is_user in U. intros R. rewrite R in U. discriminate.
Qed.

Lemma replay_phone_scored (msgs : list ConversationMessage) :
  forall e : LeadExtractor,
    customExtractors (config e) = [] ->
    (forall p, l_phone (currentLead e) = Some p -> plus_and_digits p = true) ->
    forall lead, In lead (emitted_leads (snd (replay e msgs))) ->
                 c_phone (confidence lead)
                 = if truthy (phone lead) then Some 1%float else None.
Proof.
  induction msgs as [|m msgs IH]; intros e C P lead H; [destruct H|].
  cbn [replay] in H.
  pose proof (@processMessage_phone_scored e m C P lead) as H1.
  destruct (@processMessage_keeps e m C) as (K & _ & _ & _ & _ & _ & P').
  destruct (processMessage e m) as [[o e1] g1]. cbn [fst snd] in *.
  specialize (IH e1). destruct (replay e1 msgs) as [e2 g2]. cbn [fst snd] in *.
  rewrite emitted_leads_app in H. apply in_app_or in H. destruct H as [H|H].
  - now apply H1.
  - apply IH; auto. congruence.
Qed.

(** With no custom extractor, from construction on and whatever messages
    are processed: the phone that the extractor holds, if any, is a "+"
    followed by ten or eleven digits, which [validatePhone] accepts; so the
    phone score of every lead emitted on the way, and of the current lead,
    is 1.0 when there is a phone, and never 0.5. *)
Theorem stored_phone_is_normalized :
  forall (c : LeadExtractorConfig) (msgs : list ConversationMessage),
    customExtractors c = [] ->
    let r := replay (constructor c) msgs in
    (forall p, l_phone (currentLead (fst r)) = Some p ->
               plus_and_digits p = true /\ validatePhone p = true) /\
    (forall lead,
       In lead (emitted_leads (snd r)) \/ lead = fst (getCurrentLead (fst r)) ->
       c_phone (confidence lead)
       = if truthy (phone lead) then Some 1%float else None).
Proof.
  intros c msgs C r.
  assert (P0 : forall p, l_phone (currentLead (constructor c)) = Some p ->
                         plus_and_digits p = true) by discriminate.
  destruct (@replay_keeps msgs (constructor c) C) as (_ & _ & _ & _ & _ & _ & P).
  specialize (P P0). fold r in P. split.
  - intros p Hp. split; [now apply P|].
    now apply plus_and_digits_valid, P.
  - intros lead [H| ->].
    + exact (@replay_phone_scored msgs (constructor c) C P0 lead H).
    + now apply buildLeadInfo_phone_scored.
Qed.

Lemma stored_phone_is_normalized_witness :
  customExtractors default_config = [] /\
  l_phone (currentLead
             (fst (replay (constructor default_config)
                          [user_message "Reach me at +1 (415) 555-1234"])))
  = Some "+14155551234"%string /\
  validatePhone "+14155551234" = true.
Proof.
  split; [reflexivity|]. split; [vm_compute; reflexivity|].
  apply (@stored_phone_is_normalized default_config
           [user_message "Reach me at +1 (415) 555-1234"] eq_refl).
  vm_compute. reflexivity.
Defined.

(** For a user message in which the email pattern finds a match, and
    with no custom extractor supplying an email of its own, the email kept
    by [processMessage] is the first match.  It has the form
    local@domain.tld: a local part of one or more letters, digits and
    [._%+-], a domain of one or more letters, digits, dots and hyphens,
    and a last label of two or more characters that are letters or "|"
    (the class [[A-Z|a-z]] of the pattern holds the bar). *)
Theorem email_first_match_shape :
  forall (e : LeadExtractor) (message : ConversationMessage)
         (first : string) (others : list string),
    msg_role message = user ->
    (forall x, In x (customExtractors (config e)) ->
               u_email (x (content message)) = None) ->
    js_match_global email_pattern (content message) = Some (first :: others) ->
    l_email (currentLead (snd (fst (processMessage e message)))) = Some first /\
    exists local domain tld : string,
      first = (local ++ "@" ++ domain ++ "." ++ tld)%string /\
      1 <= String.length local /\ all_in email_local local = true /\
      1 <= String.length domain /\ all_in email_domain domain = true /\
      2 <= String.length tld /\ all_in email_tld tld = true.
Proof.
  intros e message first others R Cu M. split.
  - rewrite processMessage_currentLead by exact R. cbn [merge l_email].
    assert (F : forall (xs : list (string -> Updates)) (u : Updates),
               (forall x, In x xs -> u_email (x (content message)) = None) ->
               u_email (fold_left
                          (fun u x => assign_updates u (x (content message)))
                          xs u)
               = u_email u).
    { induction xs as [|x xs IH]; intros u H; cbn; [reflexivity|].
      rewrite IH by (intros y Hy; apply H; now right).
      cbn. now rewrite (H x (or_introl eq_refl)). }
    rewrite F by exact Cu. now rewrite builtin_updates_email, M.
  - destruct (js_match_global_first _ _ M) as (res & Hexec & Hfirst).
    destruct (exec_sound _ _ _ Hexec) as (w & Hw & Hm & _).
    destruct (email_match_shape Hw) as (l & d & t & -> & Ll & Al & Ld & Ad
                                        & Lt & At_).
    exists (string_of_list_ascii l), (string_of_list_ascii d),
           (string_of_list_ascii t).
    unfold all_in. rewrite !list_ascii_of_string_of_list_ascii,
                     !length_string_of_list_ascii.
    repeat split; auto.
    rewrite <- Hfirst, Hm, string_of_list_ascii_app. cbn.
    now rewrite string_of_list_ascii_app.
Qed.

Lemma email_first_match_shape_witness :
  msg_role (user_message "contact me at alex@mail.company.io") = user /\
  js_match_global email_pattern "contact me at alex@mail.company.io"
  = Some ["alex@mail.company.io"%string] /\
  l_email (currentLead
             (snd (fst (processMessage
                          (constructor default_config)
                          (user_message "contact me at alex@mail.company.io")))))
  = Some "alex@mail.company.io"%string.
Proof.
  split; [reflexivity|]. split; [vm_compute; reflexivity|].
  apply (@email_first_match_shape
           (constructor default_config)
           (user_message "contact me at alex@mail.company.io")
           "alex@mail.company.io" [] eq_refl).
  - intros x [].
  - vm_compute. reflexivity.
Defined.

(** Whatever the message, [processMessage] emits the lead it returns, once,
    and nothing when it returns null. *)
Lemma processMessage_emits_what_it_returns (e : LeadExtractor)
  (m : ConversationMessage) :
  emitted_leads (snd (processMessage e m))
  = match fst (fst (processMessage e m)) with
    | Some lead => [lead]
    | None => []
    end.
Proof.
  destruct (is_user m) eqn:U.
  - destruct (@processMessage_user_spec e m U) as (x & _ & _ & _ & R & G).
    cbn zeta in *. rewrite R, G. now destruct (_ && _).
  - rewrite processMessage_not_user; [reflexivity|].
    unfold is_user in U. intros R. rewrite R in U. discriminate.
Qed.

(** The last "lead" event of [processConversation] is for the lead it
    returns. *)
Lemma processConversation_emits_what_it_returns (e : LeadExtractor)
  (st : ConversationState) :
  exists earlier,
    emitted_leads (snd (processConversation e st))
    = earlier ++ match fst (fst (processConversation e st)) with
                 | Some lead => [lead]
                 | None => []
                 end.
Proof.
  destruct (processConversation_eq e st) as (R & _ & G). cbn zeta in *.
  rewrite R, G, !emitted_leads_app.
  eexists. rewrite app_assoc. f_equal. now destruct (hasMinimumInfo _).
Qed.

End LeadExtractorFacts.

(** ** Properties of ConversationManager *)

Module ConversationManagerFacts.

Import Types ConversationManager.

(** *** History trimming *)

Lemma trim_positive (max : Z) (l : list ConversationMessage) :
  (1 <= max)%Z -> trim max l = lastn (Z.to_nat max) l.
Proof.
  intros H. unfold trim. destruct (Z.ltb_spec max (Z.of_nat (length l))).
  - apply js_slice_neg. lia.
  - symmetry. apply lastn_all. lia.
Qed.

Lemma trim_zero (l : list ConversationMessage) : trim 0 l = l.
Proof. unfold trim. destruct (_ <? _)%Z; [apply js_slice_zero | reflexivity]. Qed.

Lemma resetSilenceTimer_state (m : ConversationManager) :
  state (fst (resetSilenceTimer m)) = state m /\
  config (fst (resetSilenceTimer m)) = config m.
Proof.
  unfold resetSilenceTimer, clearSilenceTimer.
  destruct (silenceTimer m); simpl; destruct (_ <? _)%Z; split; reflexivity.
Qed.

Lemma clearSilenceTimer_state (m : ConversationManager) :
  state (fst (clearSilenceTimer m)) = state m /\
  config (fst (clearSilenceTimer m)) = config m.
Proof.
  unfold clearSilenceTimer. destruct (silenceTimer m); split; reflexivity.
Qed.

Lemma emitted_messages_app (g1 g2 : list effect) :
  emitted_messages (g1 ++ g2) = emitted_messages g1 ++ emitted_messages g2.
Proof.
  induction g1 as [|x g1 IH]; [reflexivity|].
  destruct x as [[]| | |]; simpl; now rewrite ?IH.
Qed.

Lemma resetSilenceTimer_spec (m : ConversationManager) :
  exists b g,
    resetSilenceTimer m
    = ({| state := state m; config := config m; silenceTimer := b |}, g) /\
    emitted_messages g = [].
Proof.
  unfold resetSilenceTimer, clearSilenceTimer.
  destruct m as [s c []]; simpl; destruct (_ <? _)%Z;
    eexists _, _; split; reflexivity.
Qed.

(** One call on an active conversation. *)
Lemma addCall_active (m : ConversationManager) (c : call) :
  isActive (state m) = true ->
  let m' := fst (addCall m c) in
  messages (state m')
  = trim (maxMessages (config m))
         (messages (state m) ++ [message_of (config m) c]) /\
  isActive (state m') = true /\
  config m' = config m /\
  emitted_messages (snd (addCall m c)) = [message_of (config m) c].
Proof.
  intros Ha. unfold addCall, addMessage. rewrite Ha. simpl negb. cbv iota.
  match goal with
  | |- context [resetSilenceTimer ?x] =>
      destruct (resetSilenceTimer_spec x) as (b & g & E & He); rewrite E
  end.
  cbv beta iota zeta. simpl fst. simpl snd. simpl state. simpl config.
  simpl emitted_messages. rewrite emitted_messages_app, He.
  repeat split.
Qed.

(** One call on an inactive conversation. *)
Lemma addCall_inactive (m : ConversationManager) (c : call) :
  isActive (state m) = false ->
  addCall m c
  = (m, [Log LWarn "Attempted to add message to inactive conversation"]).
Proof. intros Ha. unfold addCall, addMessage. now rewrite Ha. Qed.

Lemma lastn_snoc {A : Type} (n : nat) (l : list A) (x : A) :
  1 <= n -> lastn n (lastn n l ++ [x]) = lastn n (l ++ [x]).
Proof.
  intros H. rewrite !lastn_app by (simpl; lia). simpl.
  rewrite lastn_lastn by lia. reflexivity.
Qed.

(** With a limit of at least one message, the history after any run of
    calls is the last [maxMessages] messages of everything appended. *)
Lemma addCalls_keep_last (cs : list call) :
  forall (m : ConversationManager) (all : list ConversationMessage),
    (1 <= maxMessages (config m))%Z ->
    isActive (state m) = true ->
    messages (state m) = lastn (Z.to_nat (maxMessages (config m))) all ->
    let m' := fst (addCalls m cs) in
    messages (state m')
    = lastn (Z.to_nat (maxMessages (config m)))
            (all ++ map (message_of (config m)) cs) /\
    emitted_messages (snd (addCalls m cs)) = map (message_of (config m)) cs.
Proof.
  induction cs as [|c rest IH]; intros m all Hmax Ha Hm; simpl.
  - rewrite app_nil_r. split; [exact Hm | reflexivity].
  - destruct (addCall_active m c Ha) as (H1 & H2 & H3 & H4).
    destruct (addCall m c) as [m1 g1]. simpl in H1, H2, H3, H4.
    rewrite trim_positive, Hm, lastn_snoc in H1 by lia.
    specialize (IH m1 (all ++ [message_of (config m) c])).
    rewrite H3 in IH. specialize (IH Hmax H2 H1).
    destruct (addCalls m1 rest) as [m2 g2]. simpl in *.
    destruct IH as [IH1 IH2]. rewrite <- app_assoc in IH1. simpl in IH1.
    split; [exact IH1|].
    now rewrite emitted_messages_app, H4, IH2.
Qed.

Lemma addCalls_inactive (cs : list call) (m : ConversationManager) :
  isActive (state m) = false ->
  addCalls m cs
  = (m, map (fun _ => Log LWarn
                        "Attempted to add message to inactive conversation")
            cs).
Proof.
  intros Ha. induction cs as [|c rest IH]; simpl; [reflexivity|].
  now rewrite (addCall_inactive m c Ha), IH.
Qed.

(** With a limit of 0 nothing is ever trimmed: [slice(-0)] is [slice(0)]. *)
Lemma addCalls_zero_keeps_all (cs : list call) :
  forall m : ConversationManager,
    maxMessages (config m) = 0%Z ->
    isActive (state m) = true ->
    messages (state (fst (addCalls m cs)))
    = messages (state m) ++ map (message_of (config m)) cs.
Proof.
  induction cs as [|c rest IH]; intros m Hmax Ha; simpl.
  - now rewrite app_nil_r.
  - destruct (addCall_active m c Ha) as (H1 & H2 & H3 & _).
    destruct (addCall m c) as [m1 g1]. simpl in H1, H2, H3.
    rewrite Hmax, trim_zero in H1.
    specialize (IH m1). rewrite H3 in IH. specialize (IH Hmax H2).
    destruct (addCalls m1 rest) as [m2 g2]. simpl in *.
    now rewrite IH, H1, <- app_assoc.
Qed.

(** *** Trimming, rejection, transcripts and [getLastMessages] *)

(** X1.  With a limit of at least one message, a conversation that has
    just been started holds, after any run of [addMessage] calls, exactly the
    last [maxMessages] of the messages appended, in arrival order, and
    each call emitted its message.  With a limit of 10, appending messages
    1 to 15 leaves messages 6 to 15. *)
Lemma addMessage_keeps_most_recent :
  forall (m : ConversationManager) (newId : string) (now : Z)
         (cs : list call),
    (1 <= maxMessages (config m))%Z ->
    let m0 := snd (fst (start m newId now)) in
    let m' := fst (addCalls m0 cs) in
    getMessages m'
    = lastn (Z.to_nat (maxMessages (config m)))
            (map (message_of (config m)) cs) /\
    length (getMessages m')
    = Nat.min (Z.to_nat (maxMessages (config m))) (length cs) /\
    emitted_messages (snd (addCalls m0 cs)) = map (message_of (config m)) cs /\
    map content (getMessages (fst (addCalls (started 10 true)
                                            (map numbered (seq 1 15)))))
    = map (fun i => ("Message " ++ decimal i)%string) (seq 6 10).
Proof.
  intros m newId now cs Hmax m0 m'.
  assert (config m0 = config m /\ isActive (state m0) = true
          /\ messages (state m0) = []) as (Hc & Ha & Hm).
  { unfold m0, start.
    destruct (resetSilenceTimer_spec
                (set_state m (createNewConversation newId now)))
      as (b & g & E & _).
    rewrite E. repeat split. }
  destruct (addCalls_keep_last cs m0 []) as [H1 H2].
  - now rewrite Hc.
  - exact Ha.
  - rewrite Hm. unfold lastn. now rewrite skipn_nil.
  - rewrite Hc in H1, H2. simpl in H1.
    unfold getMessages, m'. rewrite H1.
    repeat split; auto.
    now rewrite lastn_length, length_map.
Qed.

Lemma addMessage_keeps_most_recent_witness :
  (1 <= maxMessages (config (started 10 true)))%Z /\
  map content
      (getMessages
         (fst (addCalls (snd (fst (start (started 10 true) "conv-2" 5)))
                        (map numbered (seq 1 15)))))
  = map (fun i => ("Message " ++ decimal i)%string) (seq 6 10).
Proof.
  split; [simpl; lia|].
  rewrite (proj1 (addMessage_keeps_most_recent (started 10 true) "conv-2" 5
                    (map numbered (seq 1 15)) ltac:(simpl; lia))).
  reflexivity.
Defined.

(** C2, on the code.  With [maxMessages: 0] the history is never trimmed:
    after one message it holds one message, after three it holds three,
    where the most recent 0 messages were to be kept.  The trimming test
    passes, but [slice(-0)] is [slice(0)], the whole array. *)
Theorem addMessage_maxMessages_zero_never_trims :
  map content (getMessages (fst (addCalls (started 0 true) [numbered 1])))
  = ["Message 1"%string] /\
  map content (getMessages (fst (addCalls (started 0 true)
                                          (map numbered (seq 1 3)))))
  = ["Message 1"; "Message 2"; "Message 3"]%string /\
  forall cs : list call,
    length (getMessages (fst (addCalls (started 0 true) cs))) = length cs.
Proof.
  split; [reflexivity|]. split; [reflexivity|].
  intros cs. unfold getMessages.
  rewrite addCalls_zero_keeps_all by reflexivity.
  simpl. now rewrite length_map.
Qed.

(** C7.  Once [end()] has been called, [addMessage] changes nothing
    whatever its arguments: the manager, and so the history and the
    message count, stay as they are, no "message" event is emitted, and
    each call only logs a warning.  The calls return normally. *)
Theorem addMessage_after_end_is_rejected :
  forall (m : ConversationManager) (cs : list call),
    let ended := snd (fst (end_ m)) in
    isActive (state ended) = false /\
    getMessages ended = getMessages m /\
    fst (addCalls ended cs) = ended /\
    getMessages (fst (addCalls ended cs)) = getMessages m /\
    emitted_messages (snd (addCalls ended cs)) = [] /\
    snd (addCalls ended cs)
    = map (fun _ => Log LWarn
                      "Attempted to add message to inactive conversation") cs.
Proof.
  intros m cs ended.
  assert (isActive (state ended) = false /\ getMessages ended = getMessages m)
    as [Ha Hm].
  { unfold ended, end_, getMessages.
    match goal with
    | |- context [clearSilenceTimer ?x] =>
        pose proof (clearSilenceTimer_state x) as [Hs _];
        destruct (clearSilenceTimer x) as [m2 g2]
    end.
    simpl in *. rewrite Hs. split; reflexivity. }
  rewrite (addCalls_inactive cs ended Ha). simpl.
  repeat split; auto.
  induction cs as [|c rest IH]; simpl; auto.
Qed.

(** C6, counterexample.  With [enableMetadata: false] the message of a
    final segment carries no metadata. *)
Lemma final_segment_without_metadata : ~ final_segment_carries_metadata.
Proof.
  intros H.
  destruct (H (started 100 false) (segment_1 true) 7%Z 7%Z eq_refl eq_refl)
    as (msg & Hin & _ & _ & Hmeta).
  simpl in Hin. destruct Hin as [<- | []]. discriminate Hmeta.
Qed.

(** A negative [maxMessages] is not handled by the trimming: with a limit
    of -1 the message of a final segment is sliced away at once. *)
Lemma final_segment_sliced_away_under_negative_limit :
  getMessages (fst (addTranscript (started (-1) true) (segment_1 true) 7 7))
  = [].
Proof. reflexivity. Qed.

(** C6, amended.  On an active conversation whose limit is not negative,
    an interim segment leaves the history as it is and only emits
    "transcript"; a final segment becomes the last message of the history,
    with role "user" and the segment's text, and that message is emitted.
    Its metadata are the segment's id, confidence and speaker when
    [enableMetadata] is set, and absent otherwise. *)
Theorem addTranscript_history :
  forall (m : ConversationManager) (seg : TranscriptSegment) (now1 now2 : Z),
    isActive (state m) = true ->
    (0 <= maxMessages (config m))%Z ->
    let r := addTranscript m seg now1 now2 in
    let msg := {| msg_role := user; content := text seg;
                  timestamp := Some now1;
                  metadata := if enableMetadata (config m)
                              then Some (transcript_metadata seg)
                              else None |} in
    (isFinal seg = false ->
     getMessages (fst r) = getMessages m /\
     snd r = [Emit (ETranscript seg)]) /\
    (isFinal seg = true ->
     (exists earlier, getMessages (fst r) = earlier ++ [msg]) /\
     emitted_messages (snd r) = [msg]).
Proof.
  intros m seg now1 now2 Ha Hmax r msg. subst r. unfold addTranscript.
  rewrite Ha. simpl negb. cbv iota. split; intros Hf; rewrite Hf.
  - split; reflexivity.
  - pose proof (addCall_active m
                  {| c_role := user; c_content := text seg;
                     c_metadata := Some (transcript_metadata seg);
                     c_now1 := now1; c_now2 := now2 |} Ha)
      as (H1 & _ & _ & H4).
    unfold addCall in H1, H4. simpl in H1, H4.
    destruct (addMessage m user (text seg) _ now1 now2) as [m1 g1].
    simpl in *. unfold getMessages. rewrite H1.
    split.
    + unfold message_of. simpl. fold msg.
      destruct (Z.eq_dec (maxMessages (config m)) 0) as [E|E].
      * rewrite E, trim_zero. now exists (messages (state m)).
      * rewrite trim_positive, lastn_app by (simpl; lia).
        now eexists.
    + rewrite emitted_messages_app, H4. reflexivity.
Qed.

Lemma addTranscript_history_witness :
  isActive (state (started 10 true)) = true /\
  (0 <= maxMessages (config (started 10 true)))%Z /\
  getMessages (fst (addTranscript (started 10 true) (segment_1 false) 7 7))
  = [] /\
  exists earlier,
    getMessages (fst (addTranscript (started 10 true) (segment_1 true) 7 7))
    = earlier ++
      [{| msg_role := user; content := "I need help"; timestamp := Some 7%Z;
          metadata := Some (transcript_metadata (segment_1 true)) |}].
Proof.
  split; [reflexivity|]. split; [simpl; lia|]. split.
  - exact (proj1 (proj1 (addTranscript_history (started 10 true)
                           (segment_1 false) 7 7 eq_refl ltac:(simpl; lia))
                        eq_refl)).
  - exact (proj1 (proj2 (addTranscript_history (started 10 true)
                           (segment_1 true) 7 7 eq_refl ltac:(simpl; lia))
                        eq_refl)).
Defined.

(** C10.  [getLastMessages(0)] returns the whole history, since
    [slice(-0)] is [slice(0)]; for a count of at least 1 it returns the
    last [min(count, length)] messages of the history, in order. *)
Theorem getLastMessages_edge_case :
  forall (m : ConversationManager) (count : Z),
    (count = 0%Z -> getLastMessages m count = getMessages m) /\
    ((1 <= count)%Z ->
     getLastMessages m count = lastn (Z.to_nat count) (getMessages m) /\
     length (getLastMessages m count)
     = Nat.min (Z.to_nat count) (length (getMessages m)) /\
     exists earlier, getMessages m = earlier ++ getLastMessages m count).
Proof.
  intros m count. unfold getLastMessages, getMessages. split.
  - intros ->. apply js_slice_zero.
  - intros H. rewrite js_slice_neg by lia.
    split; [reflexivity|]. split; [apply lastn_length|].
    exists (firstn (length (messages (state m)) - Z.to_nat count)
                   (messages (state m))).
    unfold lastn. now rewrite firstn_skipn.
Qed.

(** *** The silence timer *)

Lemma timer_after_app (g1 g2 : list effect) :
  forall b : bool,
    timer_after b (g1 ++ g2)
    = match timer_after b g1 with
      | Some b' => timer_after b' g2
      | None => None
      end.
Proof.
  induction g1 as [|x g1 IH]; intros b; [reflexivity|].
  destruct x as [e|l s|ms|]; cbn; auto; destruct b; auto.
Qed.

Lemma timeouts_app (g1 g2 : list effect) :
  timeouts (g1 ++ g2) = timeouts g1 ++ timeouts g2.
Proof.
  induction g1 as [|[e|l s|ms|] g1 IH]; cbn; auto. now rewrite IH.
Qed.

Lemma events_app (g1 g2 : list effect) :
  events (g1 ++ g2) = events g1 ++ events g2.
Proof.
  induction g1 as [|[e|l s|ms|] g1 IH]; cbn; auto. now rewrite IH.
Qed.

Lemma timed_refl (m m' : ConversationManager) (g : list effect) :
  silenceTimer m' = silenceTimer m -> config m' = config m ->
  timer_after (silenceTimer m) g = Some (silenceTimer m) ->
  timeouts g = [] -> timed m m' g.
Proof.
  intros Ht Hc Hg Hn. split; [congruence|]. split; [exact Hc|].
  rewrite Hn. intros ms [].
Qed.

Lemma timed_clearSilenceTimer (m : ConversationManager) :
  timed m (fst (clearSilenceTimer m)) (snd (clearSilenceTimer m)) /\
  silenceTimer (fst (clearSilenceTimer m)) = false /\
  state (fst (clearSilenceTimer m)) = state m.
Proof.
  unfold clearSilenceTimer, timed. destruct (silenceTimer m) eqn:E; cbn.
  - split; [|auto]. split; [reflexivity|]. split; [reflexivity|]. intros ms [].
  - rewrite E. split; [|auto]. split; [reflexivity|]. split; [reflexivity|].
    intros ms [].
Qed.

Lemma timed_resetSilenceTimer (m : ConversationManager) :
  timed m (fst (resetSilenceTimer m)) (snd (resetSilenceTimer m)) /\
  state (fst (resetSilenceTimer m)) = state m.
Proof.
  unfold resetSilenceTimer.
  destruct (timed_clearSilenceTimer m) as ((T1 & C1 & D1) & F1 & S1).
  destruct (clearSilenceTimer m) as [m1 g1]. cbn [fst snd] in *.
  destruct (0 <? silenceTimeoutMs (config m1))%Z eqn:E; cbn [fst snd].
  - split; [|exact S1]. split; [|split]; cbn.
    + rewrite timer_after_app, T1, F1. reflexivity.
    + exact C1.
    + intros ms H.
      rewrite timeouts_app in H. apply in_app_or in H. destruct H as [H|H].
      * now apply D1.
      * destruct H as [<-|[]]. split; [now rewrite C1 | now apply Z.ltb_lt].
  - split; [|exact S1]. split; [exact T1|]. split; [exact C1 | exact D1].
Qed.

(** A step that leaves the timer alone, with events and log lines only
    around it. *)
Lemma timed_frame (m m1 m2 : ConversationManager) (pre post g : list effect) :
  timed m1 m2 g ->
  silenceTimer m1 = silenceTimer m -> config m1 = config m ->
  timeouts pre = [] -> timeouts post = [] ->
  (forall b, timer_after b pre = Some b) ->
  (forall b, timer_after b post = Some b) ->
  timed m m2 (pre ++ g ++ post).
Proof.
  intros (T & C & D) Ht Hc Hpre Hpost Tpre Tpost. split; [|split].
  - rewrite timer_after_app, Tpre, timer_after_app, <- Ht, T. apply Tpost.
  - congruence.
  - intros ms H.
    rewrite !timeouts_app, Hpre, Hpost, app_nil_r in H. cbn in H.
    rewrite <- Hc. now apply D.
Qed.

Lemma timed_addMessage (m : ConversationManager) (r : role) (text : string)
  (meta : option record) (now1 now2 : Z) :
  let m' := fst (addMessage m r text meta now1 now2) in
  timed m m' (snd (addMessage m r text meta now1 now2)) /\
  isActive (state m') = isActive (state m).
Proof.
  unfold addMessage. destruct (isActive (state m)) eqn:A; cbn [negb fst snd].
  - match goal with
    | |- context [resetSilenceTimer ?x] =>
        destruct (timed_resetSilenceTimer x) as (T & S);
        destruct (resetSilenceTimer x) as [m2 g2]
    end.
    cbn [fst snd] in *. split.
    + apply (@timed_frame m _ _ [_] [_] _ T); auto.
    + rewrite S. reflexivity.
  - split; [|exact A]. now apply timed_refl.
Qed.

Lemma perform_timed (m : ConversationManager) (o : operation) :
  (isActive (state m) = false -> silenceTimer m = false) ->
  let m' := fst (perform m o) in
  timed m m' (snd (perform m o)) /\
  (isActive (state m') = false -> silenceTimer m' = false).
Proof.
  intros Inv. destruct o as [newId now| |c|seg now1 now2| |md]; cbn [perform].
  - unfold start.
    match goal with
    | |- context [resetSilenceTimer ?x] =>
        destruct (timed_resetSilenceTimer x) as (T & S);
        destruct (resetSilenceTimer x) as [m2 g2]
    end.
    cbn [fst snd] in *. split.
    + rewrite <- (app_nil_r g2) at 1.
      apply (@timed_frame m _ _ [_; _] [] _ T); auto.
    + rewrite S. cbn. discriminate.
  - unfold end_.
    match goal with
    | |- context [clearSilenceTimer ?x] =>
        destruct (timed_clearSilenceTimer x) as (T & F & S);
        destruct (clearSilenceTimer x) as [m2 g2]
    end.
    cbn [fst snd] in *. split; [|intros _; exact F].
    apply (@timed_frame m _ _ [] [_; _] _ T); auto.
  - unfold addCall.
    destruct (timed_addMessage m (c_role c) (c_content c) (c_metadata c)
                               (c_now1 c) (c_now2 c)) as (T & A).
    split; [exact T|]. rewrite A. intros H. specialize (Inv H).
    unfold addMessage. rewrite H. exact Inv.
  - unfold addTranscript. destruct (isActive (state m)) eqn:A; cbn [negb].
    + destruct (isFinal seg).
      * destruct (timed_addMessage m user (text seg)
                    (Some (transcript_metadata seg)) now1 now2) as (T & A').
        destruct (addMessage m user (text seg) _ now1 now2) as [m1 g1].
        cbn [fst snd] in *. split.
        -- apply (@timed_frame m _ _ [] [_] _ T); auto.
        -- congruence.
      * cbn [fst snd]. split; [now apply timed_refl | congruence].
    + cbn [fst snd]. split; [now apply timed_refl | intros _; now apply Inv].
  - unfold clear. cbn [fst snd]. split; [now apply timed_refl | exact Inv].
  - cbn [fst snd]. unfold updateMetadata.
    destruct (enableMetadata (config m)); cbn.
    + split; [now apply timed_refl | exact Inv].
    + split; [now apply timed_refl | exact Inv].
Qed.

Lemma live_after_timer (g : list effect) :
  forall (held held' live : bool),
    timer_after held g = Some held' ->
    (live = true -> held = true) ->
    exists live',
      live_after live g = Some live' /\
      (live' = true -> held' = true) /\
      (held = live -> held' = live').
Proof.
  induction g as [|x g IH]; intros held held' live T L.
  - cbn in *. injection T as <-. exists live. auto.
  - destruct x as [e|l s|ms|]; cbn in *.
    + now apply (IH held).
    + now apply (IH held).
    + destruct held; [discriminate|].
      destruct live; [now specialize (L eq_refl)|].
      destruct (IH true held' true T) as (live' & E & H1 & H2); [auto|].
      exists live'. auto.
    + destruct held; [|discriminate].
      destruct (IH false held' false T) as (live' & E & H1 & H2); [auto|].
      exists live'. repeat split; auto.
Qed.

Lemma delays_app (t1 t2 : list happening) :
  delays (t1 ++ t2) = delays t1 ++ delays t2.
Proof.
  induction t1 as [|[[e|l s|ms|]|s] t1 IH]; cbn; auto. now rewrite IH.
Qed.

Lemma silence_timeouts_app (t1 t2 : list happening) :
  silence_timeouts (t1 ++ t2) = silence_timeouts t1 ++ silence_timeouts t2.
Proof.
  induction t1 as [|[g|s] t1 IH]; cbn; auto. now rewrite IH.
Qed.

Lemma delays_effects (g : list effect) :
  delays (map Effect g) = timeouts g /\ silence_timeouts (map Effect g) = [].
Proof.
  induction g as [|[e|l s|ms|] g (D & S)]; cbn; auto. now rewrite D.
Qed.

(** What every run keeps: a live timer is the one the field holds, and
    the field is empty while the conversation is inactive. *)
Lemma run_keeps (steps : list step) :
  forall (m : ConversationManager) (live : bool),
    (live = true -> silenceTimer m = true) ->
    (isActive (state m) = false -> silenceTimer m = false) ->
    match run m live steps with
    | TwoTimers => False
    | Unschedulable => True
    | Ran m' live' t =>
        (live' = true -> silenceTimer m' = true) /\
        (isActive (state m') = false -> silenceTimer m' = false) /\
        config m' = config m /\
        (forallb (fun s => negb (is_expire s)) steps = true ->
         silenceTimer m = live -> silenceTimer m' = live') /\
        (forall ms, In ms (delays t) ->
                    ms = silenceTimeoutMs (config m) /\ (0 < ms)%Z) /\
        (forall s, In s (silence_timeouts t) -> isActive s = true)
    end.
Proof.
  induction steps as [|s steps IH]; intros m live L I.
  - cbn. split; [exact L|]. split; [exact I|]. split; [reflexivity|].
    split; [auto|]. split; intros ? [].
  - destruct s as [o|]; cbn [run].
    + destruct (@perform_timed m o I) as ((T & C & D) & I1).
      destruct (perform m o) as [m1 g]. cbn [fst snd] in *.
      destruct (@live_after_timer g _ _ live T L) as (live1 & E & L1 & K1).
      rewrite E. specialize (IH m1 live1 L1 I1).
      destruct (run m1 live1 steps) as [m2 live2 t| |]; auto.
      destruct IH as (L2 & I2 & C2 & K2 & D2 & S2).
      destruct (delays_effects g) as (Dg & Sg).
      split; [exact L2|]. split; [exact I2|]. split; [congruence|].
      split; [|split].
      * cbn [forallb is_expire negb andb]. intros N F. auto.
      * intros ms H. rewrite delays_app, Dg in H.
        apply in_app_or in H. destruct H as [H|H]; [now apply D|].
        rewrite <- C. now apply D2.
      * intros s H. rewrite silence_timeouts_app, Sg in H. now apply S2.
    + destruct live; [|constructor].
      cbn [onSilenceTimeout].
      specialize (IH m false ltac:(discriminate) I).
      destruct (run m false steps) as [m2 live2 t| |]; auto.
      destruct IH as (L2 & I2 & C2 & K2 & D2 & S2).
      split; [exact L2|]. split; [exact I2|]. split; [exact C2|].
      split; [|split].
      * cbn. discriminate.
      * intros ms H. cbn in H. now apply D2.
      * intros s [<-|H]; [|now apply S2].
        destruct (isActive (state m)) eqn:A; [reflexivity|].
        specialize (I eq_refl). specialize (L eq_refl). congruence.
Qed.

(** From construction on, whatever methods are called and whenever the
    pending timer expires in between: no silence timer is set while
    another is live; a live timer is the one the field [silenceTimer]
    holds, so that [clearSilenceTimer] cancels it; while the conversation
    is inactive no timer is live, and "silenceTimeout" is only ever
    emitted with an active conversation; every timer is set for
    [silenceTimeoutMs], which is then positive.  As long as no timer has
    expired the field tells whether a timer is live.  After an expiry it
    does not: the field still holds the timer that has fired, and the next
    [addMessage] clears that timer before it sets a new one. *)
Theorem silence_timer_discipline :
  forall (c : PartialConfig) (newId : string) (now : Z) (steps : list step),
    match run (constructor c newId now) false steps with
    | TwoTimers => False
    | Unschedulable => True
    | Ran m live t =>
        (live = true -> silenceTimer m = true) /\
        (isActive (state m) = false -> live = false) /\
        (forall s, In s (silence_timeouts t) -> isActive s = true) /\
        (forall ms, In ms (delays t) ->
                    ms = silenceTimeoutMs (config m) /\ (0 < ms)%Z) /\
        (forallb (fun s => negb (is_expire s)) steps = true ->
         silenceTimer m = live)
    end /\
    let m0 := constructor {| p_maxMessages := None;
                             p_maxConversationDuration := None;
                             p_silenceTimeoutMs := None;
                             p_enableMetadata := None |} newId now in
    let hello := {| c_role := user; c_content := "hello"; c_metadata := None;
                    c_now1 := now; c_now2 := now |} in
    (exists m t, run m0 false [Call (AddMessage hello); Expire] = Ran m false t
                 /\ silenceTimer m = true) /\
    exists m t,
      run m0 false [Call (AddMessage hello); Expire; Call (AddMessage hello)]
      = Ran m true t /\
      filter (fun h => match h with
                       | Effect ClearTimeout | Effect (SetTimeout _) => true
                       | _ => false
                       end) t
      = [Effect (SetTimeout 30000); Effect ClearTimeout;
         Effect (SetTimeout 30000)].
Proof.
  intros c newId now steps. split.
  - pose proof (@run_keeps steps (constructor c newId now) false
                  ltac:(discriminate) ltac:(reflexivity)) as H.
    destruct (run (constructor c newId now) false steps) as [m live t| |];
      auto.
    destruct H as (L & I & C & K & D & S).
    split; [exact L|]. split.
    { intros A. specialize (I A). destruct live; [|reflexivity].
      specialize (L eq_refl). congruence. }
    split; [exact S|]. split.
    { intros ms H. rewrite C. now apply D. }
    intros N. now apply K.
  - cbv zeta. split; eexists _, _; split; reflexivity.
Qed.

(** *** Validity *)

Lemma perform_keeps_validity (m : ConversationManager) (o : operation) :
  is_start o || is_end o = false ->
  isActive (state (fst (perform m o))) = isActive (state m) /\
  startedAt (state (fst (perform m o))) = startedAt (state m) /\
  config (fst (perform m o)) = config m.
Proof.
  assert (K : forall r text meta now1 now2,
             let m' := fst (addMessage m r text meta now1 now2) in
             isActive (state m') = isActive (state m) /\
             startedAt (state m') = startedAt (state m) /\
             config m' = config m).
  { intros r text meta now1 now2. unfold addMessage.
    destruct (isActive (state m)) eqn:A; cbn [negb fst]; [|now rewrite A].
    match goal with
    | |- context [resetSilenceTimer ?x] =>
        destruct (resetSilenceTimer_state x) as (S & C);
        destruct (resetSilenceTimer x) as [m2 g2]
    end.
    cbn [fst] in *. rewrite S, C. cbn. auto. }
  destruct o as [newId now| |c|seg now1 now2| |md]; cbn [is_start is_end orb];
    try discriminate; intros _; cbn [perform].
  - apply K.
  - unfold addTranscript.
    destruct (isActive (state m)) eqn:A; cbn [negb fst]; [|now rewrite A].
    destruct (isFinal seg); [|cbn; auto].
    specialize (K user (text seg) (Some (transcript_metadata seg)) now1 now2).
    destruct (addMessage m user (text seg) _ now1 now2) as [m1 g1].
    cbn [fst] in *. exact K.
  - now cbn.
  - cbn. unfold updateMetadata. now destruct (enableMetadata (config m)).
Qed.

Lemma isValid_eq (m m' : ConversationManager) (now : Z) :
  isActive (state m') = isActive (state m) ->
  startedAt (state m') = startedAt (state m) ->
  config m' = config m -> isValid m' now = isValid m now.
Proof. unfold isValid. now intros -> -> ->. Qed.

(** Whether a conversation is valid depends on [start()], [end()] and
    the clock only: after [end()] it is never valid; and no run of
    [addMessage], [addTranscript], [clear] and [updateMetadata] calls
    changes the answer that [isValid()] gives at a given time, so that
    activity does not prolong a conversation.  With the default limit of
    3600 seconds a conversation started at [t] is valid up to
    [t + 3600000] ms included and not one millisecond later. *)
Theorem isValid_depends_on_start_and_clock :
  forall (m : ConversationManager) (now : Z),
    isValid (snd (fst (end_ m))) now = false /\
    (forall os : list operation,
       forallb (fun o => negb (is_start o || is_end o)) os = true ->
       isValid (fst (perform_all m os)) now = isValid m now) /\
    (forall (t : Z) (os : list operation),
       forallb (fun o => negb (is_start o || is_end o)) os = true ->
       let m' := fst (perform_all (default_started t) os) in
       isValid m' (t + 3600000) = true /\
       isValid m' (t + 3600001) = false).
Proof.
  intros m now.
  assert (K : forall (os : list operation) (m0 : ConversationManager) (t : Z),
             forallb (fun o => negb (is_start o || is_end o)) os = true ->
             isValid (fst (perform_all m0 os)) t = isValid m0 t).
  { induction os as [|o os IH]; intros m0 t H; [reflexivity|].
    cbn in H. apply andb_prop in H. destruct H as [Ho Hos].
    apply negb_true_iff in Ho.
    destruct (@perform_keeps_validity m0 o Ho) as (A & S & C).
    cbn [perform_all]. destruct (perform m0 o) as [m1 g1]. cbn [fst] in *.
    specialize (IH m1 t Hos). destruct (perform_all m1 os) as [m2 g2].
    cbn [fst] in *. rewrite IH. now apply isValid_eq. }
  split; [|split].
  - unfold end_.
    match goal with
    | |- context [clearSilenceTimer ?x] =>
        destruct (clearSilenceTimer_state x) as (S & C);
        destruct (clearSilenceTimer x) as [m2 g2]
    end.
    cbn [fst snd] in *. unfold isValid. now rewrite S.
  - intros os H. now apply K.
  - intros t os H m'. unfold m'. rewrite !K by exact H.
    unfold isValid, default_started. cbn.
    replace (t + 3600000 - t)%Z with 3600000%Z by lia.
    replace (t + 3600001 - t)%Z with 3600001%Z by lia.
    split; reflexivity.
Qed.

(** *** Metadata *)

Lemma get_set_key (r : record) (k k' : string) (v : jsval) :
  get (set_key k v r) k' = if String.eqb k' k then Some v else get r k'.
Proof.
  unfold get. induction r as [|[k0 v0] r IH]; cbn.
  - now destruct (String.eqb k' k).
  - destruct (String.eqb k k0) eqn:E; cbn.
    + apply String.eqb_eq in E. subst k0.
      now destruct (String.eqb k' k).
    + destruct (String.eqb k' k0) eqn:E'; cbn.
      * apply String.eqb_eq in E'. subst k0.
        rewrite String.eqb_sym, E. reflexivity.
      * exact IH.
Qed.

Lemma get_app (r1 r2 : record) (k : string) :
  get (r1 ++ r2) k
  = match get r1 k with Some v => Some v | None => get r2 k end.
Proof.
  unfold get. induction r1 as [|[k0 v0] r1 IH]; cbn; [reflexivity|].
  now destruct (String.eqb k k0).
Qed.

Lemma get_spread (source : record) :
  forall (target : record) (k : string),
    get (spread target source) k
    = match get (rev source) k with
      | Some v => Some v
      | None => get target k
      end.
Proof.
  unfold spread. induction source as [|[k0 v0] source IH]; intros target k.
  - reflexivity.
  - cbn [fold_left fst snd rev]. rewrite IH, get_app, get_set_key.
    destruct (get (rev source) k); [reflexivity|].
    unfold get. cbn. now destruct (String.eqb k k0).
Qed.

(** [updateMetadata] on a manager with [enableMetadata: false] changes
    nothing.  Otherwise, and whether the conversation is active or not,
    the metadata afterwards hold, for every key, the value given in the
    call (the last one given, should the key come twice) or else the value
    they held before; nothing else changes. *)
Theorem updateMetadata_lookup :
  forall (m : ConversationManager) (md : record),
    let m' := updateMetadata m md in
    (enableMetadata (config m) = false -> m' = m) /\
    (enableMetadata (config m) = true ->
     forall k : string,
       get (own (state_metadata (state m'))) k
       = match get (rev md) k with
         | Some v => Some v
         | None => get (own (state_metadata (state m))) k
         end) /\
    getMessages m' = getMessages m /\
    isActive (state m') = isActive (state m) /\
    id (state m') = id (state m) /\
    lastActivityAt (state m') = lastActivityAt (state m) /\
    config m' = config m /\
    silenceTimer m' = silenceTimer m.
Proof.
  intros m md m'. unfold m', updateMetadata, getMessages.
  destruct (enableMetadata (config m)); cbn.
  - split; [discriminate|]. split; [|auto 10].
    intros _ k. apply get_spread.
  - split; [reflexivity|]. split; [discriminate|]. auto 10.
Qed.

(** *** After [end()] *)

Lemma perform_ended (m : ConversationManager) (o : operation) :
  isActive (state m) = false -> is_start o = false ->
  let r := perform m o in
  isActive (state (fst r)) = false /\
  getMessages (fst r) = (if is_clear o then [] else getMessages m) /\
  (forall e, In e (events (snd r)) ->
             e = ECleared \/ exists s, e = EEnded s) /\
  timeouts (snd r) = [].
Proof.
  intros A. destruct o as [newId now| |c|seg now1 now2| |md]; cbn [is_start];
    try discriminate; intros _; cbn [perform is_clear].
  - unfold end_, getMessages.
    match goal with
    | |- context [clearSilenceTimer ?x] =>
        destruct (clearSilenceTimer_state x) as (S & C);
        pose proof (timed_clearSilenceTimer x) as ((_ & _ & D) & _);
        destruct (clearSilenceTimer x) as [m2 g2] eqn:E
    end.
    cbn [fst snd] in *. rewrite S. cbn. repeat split; auto.
    + intros e. rewrite events_app. intros H. apply in_app_or in H.
      destruct H as [H|H].
      * exfalso. revert E H. unfold clearSilenceTimer.
        destruct (silenceTimer _); intros [= <- <-] [].
      * cbn in H. destruct H as [<-|[]]. right. eexists. reflexivity.
    + rewrite timeouts_app. cbn. rewrite app_nil_r.
      destruct (timeouts g2) as [|ms l] eqn:T; [reflexivity|].
      exfalso. revert E T. unfold clearSilenceTimer.
      destruct (silenceTimer _); intros [= <- <-]; discriminate.
  - rewrite (@addCall_inactive m c A). cbn. repeat split; auto.
    intros e [].
  - unfold addTranscript. rewrite A. cbn. repeat split; auto. intros e [].
  - unfold clear, getMessages. cbn. repeat split; auto.
    intros e [<-|[]]. now left.
  - unfold updateMetadata, getMessages.
    destruct (enableMetadata (config m)); cbn; repeat split; auto;
      intros e [].
Qed.

(** Once a conversation has ended, and until [start()] is called again,
    whatever else is called: the conversation stays inactive and is never
    valid; the history stays as it was, unless [clear()] empties it; the
    only events emitted are "ended" and "cleared", so that no message and no
    transcript is ever announced; and no silence timer is set. *)
Theorem ended_conversation_stays_ended :
  forall (m : ConversationManager) (os : list operation),
    isActive (state m) = false ->
    forallb (fun o => negb (is_start o)) os = true ->
    let r := perform_all m os in
    isActive (state (fst r)) = false /\
    getMessages (fst r) = (if existsb is_clear os then [] else getMessages m) /\
    (forall e, In e (events (snd r)) ->
               e = ECleared \/ exists s, e = EEnded s) /\
    timeouts (snd r) = [] /\
    forall now, isValid (fst r) now = false.
Proof.
  intros m os. revert m.
  induction os as [|o os IH]; intros m A H.
  - cbn. repeat split; auto; [intros e [] | intros now; unfold isValid; now rewrite A].
  - cbn in H. apply andb_prop in H. destruct H as [Ho Hos].
    apply negb_true_iff in Ho.
    destruct (@perform_ended m o A Ho) as (A1 & M1 & E1 & T1).
    cbn [perform_all existsb]. destruct (perform m o) as [m1 g1].
    cbn [fst snd] in *.
    destruct (IH m1 A1 Hos) as (A2 & M2 & E2 & T2 & V2).
    destruct (perform_all m1 os) as [m2 g2]. cbn [fst snd] in *.
    split; [exact A2|]. split; [|split; [|split]].
    + rewrite M2, M1. destruct (is_clear o), (existsb is_clear os); reflexivity.
    + intros e. rewrite events_app. intros K. apply in_app_or in K.
      destruct K; auto.
    + now rewrite timeouts_app, T1, T2.
    + exact V2.
Qed.

Lemma ended_conversation_stays_ended_witness :
  let m := snd (fst (end_ (fst (addCalls (started 10 true) [numbered 1])))) in
  let os := [AddMessage (numbered 2); AddTranscript (segment_1 true) 3 3;
             UpdateMetadata [("source"%string, VString "phone")]; End_] in
  isActive (state m) = false /\
  forallb (fun o => negb (is_start o)) os = true /\
  map content (getMessages (fst (perform_all m os))) = ["Message 1"%string].
Proof.
  intros m os.
  pose proof (@ended_conversation_stays_ended m os eq_refl eq_refl) as H.
  split; [reflexivity|]. split; [reflexivity|].
  destruct H as (_ & H & _). rewrite H. reflexivity.
Defined.

(** The effects of [addMessage] on an active conversation: the "message"
    event for the stored message comes first, and is the only one. *)
Lemma addMessage_trace (m : ConversationManager) (r : role) (text : string)
  (meta : option record) (now1 now2 : Z) :
  isActive (state m) = true ->
  exists g,
    snd (addMessage m r text meta now1 now2)
    = Emit (EMessage {| msg_role := r; content := text;
                        timestamp := Some now1;
                        metadata := if enableMetadata (config m)
                                    then meta else None |}) :: g /\
    emitted_messages g = [].
Proof.
  intros A. unfold addMessage. rewrite A. cbn [negb]. cbv zeta.
  match goal with
  | |- context [resetSilenceTimer ?x] =>
      destruct (resetSilenceTimer_spec x) as (b & g & E & He); rewrite E
  end.
  cbn [snd app]. eexists. split; [reflexivity|].
  now rewrite emitted_messages_app, He.
Qed.

End ConversationManagerFacts.

(** ** Properties of the references behind the getters *)

Module StoreFacts.

Import Types Store.

(** *** Reading is stable under allocation *)

Lemma lookup_app (h t : store) (a : address) (o : object) :
  lookup h a = Some o -> lookup (h ++ t) a = Some o.
Proof.
  unfold lookup. intros H. rewrite nth_error_app1; [exact H|].
  apply nth_error_Some. congruence.
Qed.

Lemma read_record_app (h t : store) (meta : option address)
  (v : option record) :
  read_record h meta = Some v -> read_record (h ++ t) meta = Some v.
Proof.
  unfold read_record. destruct meta as [a|]; [|auto].
  destruct (lookup h a) as [o|] eqn:E; [|discriminate].
  now rewrite (@lookup_app h t a o E).
Qed.

Lemma read_message_app (h t : store) (a : address)
  (v : ConversationMessage) :
  read_message h a = Some v -> read_message (h ++ t) a = Some v.
Proof.
  unfold read_message.
  destruct (lookup h a) as [o|] eqn:E; [|discriminate].
  rewrite (@lookup_app h t a o E). destruct o; try discriminate.
  destruct (read_record h meta) as [md|] eqn:R; [|discriminate].
  now rewrite (@read_record_app h t meta md R).
Qed.

Lemma read_messages_app (h t : store) (elements : list address) :
  forall v, read_messages h elements = Some v ->
            read_messages (h ++ t) elements = Some v.
Proof.
  induction elements as [|a rest IH]; intros v; simpl; [auto|].
  destruct (read_message h a) as [x|] eqn:E; [|discriminate].
  destruct (read_messages h rest) as [xs|]; [|discriminate].
  now rewrite (@read_message_app h t a x E), (IH xs eq_refl).
Qed.

Lemma read_state_app (h t : store) (a : address) (v : ConversationState) :
  read_state h a = Some v -> read_state (h ++ t) a = Some v.
Proof.
  unfold read_state.
  destruct (lookup h a) as [o|] eqn:E; [|discriminate].
  rewrite (@lookup_app h t a o E). destruct o; try discriminate.
  destruct (lookup h msgs) as [o|] eqn:E2; [|discriminate].
  rewrite (@lookup_app h t msgs o E2). destruct o; try discriminate.
  destruct (read_messages h elements) as [xs|] eqn:R1; [|discriminate].
  destruct (read_record h meta) as [md|] eqn:R2; [|discriminate].
  now rewrite (@read_messages_app h t elements xs R1),
    (@read_record_app h t meta md R2).
Qed.

Lemma write_fresh (h : store) (o o' : object) :
  write (h ++ [o]) (length h) o' = h ++ [o'].
Proof. induction h as [|x h IH]; simpl; [reflexivity | now rewrite IH]. Qed.

Lemma lookup_fresh (h : store) (o : object) :
  lookup (h ++ [o]) (length h) = Some o.
Proof.
  unfold lookup. now rewrite nth_error_app2, Nat.sub_diag by lia.
Qed.

Lemma internal_messages (h : store) (m : ConversationManager)
  (v : ConversationState) :
  internal h m = Some v ->
  exists sid msgs active started last meta elements,
    lookup h (this_state m) = Some (OState sid msgs active started last meta)
    /\ lookup h msgs = Some (OArray elements)
    /\ state_messages h m = Some elements
    /\ read_messages h elements = Some (messages v).
Proof.
  unfold internal, read_state, state_messages.
  destruct (lookup h (this_state m)) as [[]|]; try discriminate.
  destruct (lookup h msgs) as [[]|] eqn:E; try discriminate.
  destruct (read_messages h elements) as [xs|] eqn:R; [|discriminate].
  destruct (read_record h meta) as [md|]; [|discriminate].
  intros H. inversion H; subst. simpl.
  now exists sid, msgs, active, started, last, meta, elements.
Qed.

Lemma read_messages_suffix (h : store) (n : nat) :
  forall (elements : list address) (xs : list ConversationMessage),
    read_messages h elements = Some xs ->
    read_messages h (skipn n elements) = Some (skipn n xs).
Proof.
  induction n as [|n IH]; intros elements xs H; [exact H|].
  destruct elements as [|a rest]; simpl in *.
  - inversion H. reflexivity.
  - destruct (read_message h a); [|discriminate].
    destruct (read_messages h rest) as [ys|] eqn:E; [|discriminate].
    inversion H; subst. simpl. now apply IH.
Qed.

Lemma read_messages_length (h : store) :
  forall (elements : list address) (xs : list ConversationMessage),
    read_messages h elements = Some xs -> length xs = length elements.
Proof.
  induction elements as [|a rest IH]; intros xs H; simpl in *.
  - inversion H. reflexivity.
  - destruct (read_message h a); [|discriminate].
    destruct (read_messages h rest) as [ys|]; [|discriminate].
    inversion H; subst. simpl. now rewrite (IH ys).
Qed.

(** *** [addMessage] on the store and on values

    The store version of [addMessage] changes what the manager holds
    exactly as [ConversationManager.addMessage] changes the state value. *)

Lemma length_write (h : store) (a : address) (o : object) :
  length (write h a o) = length h.
Proof.
  revert a. induction h as [|x h IH]; intros [|a]; simpl; auto.
Qed.

Lemma lookup_write_eq (h : store) (a : address) (old o : object) :
  lookup h a = Some old -> lookup (write h a o) a = Some o.
Proof.
  unfold lookup. revert a.
  induction h as [|x h IH]; intros [|a]; simpl; try discriminate; auto.
Qed.

Lemma lookup_write_ne (h : store) (a x : address) (o : object) :
  x <> a -> lookup (write h a o) x = lookup h x.
Proof.
  unfold lookup. revert a x.
  induction h as [|y h IH]; intros [|a] [|x] H; simpl; auto; congruence.
Qed.

Lemma lookup_write_container (h : store) (a x : address) (old o : object) :
  lookup h a = Some old -> is_container old = true -> is_container o = true ->
  match lookup h x with
  | Some (OMessage _ _ _ _) | Some (ORecord _) =>
      lookup (write h a o) x = lookup h x
  | Some _ => exists c, lookup (write h a o) x = Some c
                        /\ is_container c = true
  | None => lookup (write h a o) x = None
  end.
Proof.
  intros Ha Hold Ho. destruct (Nat.eq_dec x a) as [->|Hne].
  - rewrite Ha. erewrite lookup_write_eq by exact Ha.
    destruct old; try discriminate; now exists o.
  - rewrite lookup_write_ne by exact Hne.
    destruct (lookup h x) as [[]|]; auto; eexists; split; reflexivity.
Qed.

Lemma read_record_write (h : store) (a : address) (old o : object)
  (meta : option address) :
  lookup h a = Some old -> is_container old = true -> is_container o = true ->
  read_record (write h a o) meta = read_record h meta.
Proof.
  intros Ha Hold Ho. destruct meta as [x|]; [|reflexivity]. simpl.
  pose proof (@lookup_write_container h a x old o Ha Hold Ho) as H.
  destruct (lookup h x) as [[]|]; try (now rewrite H);
    destruct H as (c & -> & Hc); destruct c; try discriminate; reflexivity.
Qed.

Lemma read_message_write (h : store) (a x : address) (old o : object) :
  lookup h a = Some old -> is_container old = true -> is_container o = true ->
  read_message (write h a o) x = read_message h x.
Proof.
  intros Ha Hold Ho. unfold read_message.
  pose proof (@lookup_write_container h a x old o Ha Hold Ho) as H.
  destruct (lookup h x) as [[]|]; try (now rewrite H);
    try (destruct H as (c & -> & Hc); destruct c; try discriminate;
         reflexivity).
  rewrite H. now rewrite (@read_record_write h a old o meta Ha Hold Ho).
Qed.

Lemma read_messages_write (h : store) (a : address) (old o : object)
  (elements : list address) :
  lookup h a = Some old -> is_container old = true -> is_container o = true ->
  read_messages (write h a o) elements = read_messages h elements.
Proof.
  intros Ha Hold Ho. induction elements as [|x rest IH]; simpl; auto.
  now rewrite (@read_message_write h a x old o Ha Hold Ho), IH.
Qed.

Lemma read_messages_snoc (h : store) (elements : list address) (x : address)
  (vs : list ConversationMessage) (v : ConversationMessage) :
  read_messages h elements = Some vs -> read_message h x = Some v ->
  read_messages h (elements ++ [x]) = Some (vs ++ [v]).
Proof.
  revert vs. induction elements as [|a rest IH]; intros vs H Hx; simpl in *.
  - inversion H. now rewrite Hx.
  - destruct (read_message h a); [|discriminate].
    destruct (read_messages h rest) as [ys|]; [|discriminate].
    inversion H; subst. now rewrite (IH ys eq_refl Hx).
Qed.

Lemma internal_inv (h : store) (m : ConversationManager)
  (v : ConversationState) :
  internal h m = Some v ->
  exists msgs smeta elements,
    lookup h (this_state m)
    = Some (OState (id v) msgs (isActive v) (startedAt v) (lastActivityAt v)
                   smeta)
    /\ lookup h msgs = Some (OArray elements)
    /\ read_messages h elements = Some (messages v)
    /\ read_record h smeta = Some (state_metadata v).
Proof.
  unfold internal, read_state.
  destruct (lookup h (this_state m)) as [[]|]; try discriminate.
  destruct (lookup h msgs) as [[]|] eqn:E; try discriminate.
  destruct (read_messages h elements) as [xs|] eqn:R; [|discriminate].
  destruct (read_record h meta) as [md|] eqn:R2; [|discriminate].
  intros H. inversion H; subst. simpl.
  now exists msgs, meta, elements.
Qed.

(** X4.  On a store in which the manager's state reads as [v], and with
    metadata (if any) that read as [metav], [addMessage] on the store
    leaves a store in which the state reads as the state that
    [ConversationManager.addMessage] computes from [v]: the new message is
    pushed onto the manager's array, and trimming installs a new array. *)
Lemma addMessage_refines (h : store) (m : ConversationManager)
  (v : ConversationState) (r : role) (text : string)
  (meta : option address) (metav : option record) (now1 now2 : Z)
  (timer : bool) :
  internal h m = Some v ->
  read_record h meta = Some metav ->
  internal (addMessage h m r text meta now1 now2) m
  = Some (ConversationManager.state
            (fst (ConversationManager.addMessage
                    {| ConversationManager.state := v;
                       ConversationManager.config := config m;
                       ConversationManager.silenceTimer := timer |}
                    r text metav now1 now2))).
Proof.
  intros Hv Hmeta.
  destruct (internal_inv h m Hv) as (msgs & smeta & elements
                                     & Hst & Harr & Hrd & Hsm).
  unfold addMessage, ConversationManager.addMessage. rewrite Hst.
  simpl ConversationManager.state. simpl ConversationManager.config.
  destruct (isActive v) eqn:Ha; simpl negb; cbv iota; [|exact Hv].
  match goal with
  | |- context [ConversationManager.resetSilenceTimer ?x] =>
      destruct (ConversationManagerFacts.resetSilenceTimer_spec x)
        as (b & g & E & _); rewrite E
  end.
  cbv beta iota zeta. simpl fst. simpl ConversationManager.state.
  unfold alloc.
  set (meta' := if ConversationManager.enableMetadata (config m)
                then meta else None).
  set (metav' := if ConversationManager.enableMetadata (config m)
                 then metav else None).
  set (M := OMessage r text (Some now1) meta').
  set (mv := {| msg_role := r; content := text; timestamp := Some now1;
                metadata := metav' |}).
  set (h1 := h ++ [M]).
  assert (lookup h1 msgs = Some (OArray elements)) as Harr1
    by now apply lookup_app.
  rewrite Harr1.
  set (pushed := elements ++ [length h]).
  set (S2 := OState (id v) msgs true (startedAt v) now2 smeta).
  set (h2 := write h1 msgs (OArray pushed)).
  set (h3 := write h2 (this_state m) S2).
  assert (this_state m <> msgs) as Hne by (intros Heq; congruence).
  assert (lookup h2 (this_state m)
          = Some (OState (id v) msgs true (startedAt v) (lastActivityAt v)
                         smeta)) as Hst2.
  { unfold h2. rewrite lookup_write_ne by exact Hne. now apply lookup_app. }
  assert (lookup h2 msgs = Some (OArray pushed)) as Harr2
    by (unfold h2; eapply lookup_write_eq; exact Harr1).
  assert (read_record h1 meta' = Some metav') as Hmeta1.
  { unfold meta', metav'.
    destruct (ConversationManager.enableMetadata (config m));
      [now apply read_record_app | reflexivity]. }
  assert (read_message h1 (length h) = Some mv) as Hnew1.
  { unfold read_message.
    replace (lookup h1 (length h)) with (Some M)
      by (symmetry; apply lookup_fresh).
    unfold M. now rewrite Hmeta1. }
  assert (forall l, read_messages h3 l = read_messages h1 l) as Hrm.
  { intros l. unfold h3.
    erewrite read_messages_write; [|exact Hst2|reflexivity|reflexivity].
    unfold h2.
    erewrite read_messages_write; [|exact Harr1|reflexivity|reflexivity].
    reflexivity. }
  assert (forall x y, read_record h x = Some y -> read_record h3 x = Some y)
    as Hrr.
  { intros x y Hx. unfold h3.
    erewrite read_record_write; [|exact Hst2|reflexivity|reflexivity].
    unfold h2.
    erewrite read_record_write; [|exact Harr1|reflexivity|reflexivity].
    now apply read_record_app. }
  assert (read_messages h3 pushed = Some (messages v ++ [mv])) as Hpushed.
  { rewrite Hrm. apply read_messages_snoc; [|exact Hnew1].
    now apply read_messages_app. }
  pose proof (Hrr _ _ Hsm) as Hsm3.
  assert (lookup h3 (this_state m) = Some S2) as Hst3
    by (unfold h3; eapply lookup_write_eq; exact Hst2).
  assert (lookup h3 msgs = Some (OArray pushed)) as Harr3.
  { unfold h3. rewrite lookup_write_ne by congruence. exact Harr2. }
  assert (length pushed = length (messages v ++ [mv])) as Hlen.
  { symmetry. eapply read_messages_length. exact Hpushed. }
  fold pushed. fold h2. fold h3. rewrite Hlen.
  destruct (_ <? _)%Z.
  - set (sliced := js_slice (- ConversationManager.maxMessages (config m))
                            pushed).
    set (S4 := OState (id v) (length h3) true (startedAt v) now2 smeta).
    assert (lookup (h3 ++ [OArray sliced]) (this_state m) = Some S2) as Hst4
      by now apply lookup_app.
    assert (this_state m <> length h3) as Hne4.
    { intros Heq. unfold lookup in Hst3.
      assert (nth_error h3 (this_state m) <> None) as Hn by congruence.
      apply nth_error_Some in Hn. lia. }
    unfold internal, read_state.
    erewrite lookup_write_eq by exact Hst4. unfold S4.
    rewrite lookup_write_ne by congruence.
    rewrite lookup_fresh.
    erewrite read_messages_write; [|exact Hst4|reflexivity|reflexivity].
    erewrite read_record_write; [|exact Hst4|reflexivity|reflexivity].
    erewrite read_record_app by exact Hsm3.
    assert (read_messages (h3 ++ [OArray sliced]) sliced
            = Some (js_slice (- ConversationManager.maxMessages (config m))
                             (messages v ++ [mv]))) as ->.
    { apply read_messages_app. unfold sliced, js_slice. rewrite Hlen.
      now apply read_messages_suffix. }
    reflexivity.
  - unfold internal, read_state. rewrite Hst3. unfold S2.
    now rewrite Harr3, Hpushed, Hsm3.
Qed.

Lemma addMessage_refines_witness :
  internal (snd first_manager) (fst first_manager)
  = Some (ConversationManager.createNewConversation "conv-1" 0) /\
  internal (addMessage (snd first_manager) (fst first_manager) user "Hello"
                       None 1 1)
           (fst first_manager)
  = Some {| id := "conv-1";
            messages := [{| msg_role := user; content := "Hello";
                            timestamp := Some 1%Z; metadata := None |}];
            isActive := true; startedAt := 0; lastActivityAt := 1;
            state_metadata := Some [] |}.
Proof.
  split; [reflexivity|].
  rewrite (@addMessage_refines (snd first_manager) (fst first_manager)
             (ConversationManager.createNewConversation "conv-1" 0)
             user "Hello" None None 1 1 false eq_refl eq_refl).
  reflexivity.
Defined.

(** *** Defensive copies *)

(** C9, counterexample.  [manager.getState().messages.length = 0] empties
    the history that [getMessages()] shows afterwards. *)
Lemma getState_shares_the_history : ~ defensive_copies.
Proof.
  intros H.
  pose (m := fst example_manager). pose (h := snd example_manager).
  pose (h' := h ++ [OState "conv-1" 0 true 0 1 (Some 1)]).
  assert (reachable h' 4 0) as R.
  { eapply reach_step with (b := 0); [reflexivity | | apply reach_here].
    left. reflexivity. }
  pose proof (H h m GetState _ 4 h' eq_refl eq_refl 0 (OArray [3])
                (OArray []) R eq_refl eq_refl) as C.
  vm_compute in C. discriminate C.
Qed.

(** C9, amended.  Each getter allocates one new object and leaves the
    store otherwise as it is: [getState] a state object with the fields of
    [this.state], [getMessages] an array with the elements of
    [this.state.messages], [getLastMessages] an array with its last
    elements.  Whatever the caller does to that new object itself, the
    internal state stays as it was; the messages, the array reached from
    a returned state and the metadata are the manager's own objects. *)
Theorem getters_return_shallow_copies :
  forall (h : store) (m : ConversationManager) (g : getter)
         (v : ConversationState),
    internal h m = Some v ->
    exists r h',
      call g h m = Some (r, h') /\
      lookup h r = None /\
      internal h' m = Some v /\
      (forall new, internal (write h' r new) m = Some v) /\
      match g with
      | GetState =>
          lookup h' r = lookup h (this_state m) /\
          read_state h' r = Some v
      | GetMessages =>
          exists elements,
            state_messages h m = Some elements /\
            lookup h' r = Some (OArray elements) /\
            read_messages h' elements = Some (messages v)
      | GetLastMessages count =>
          exists elements,
            state_messages h m = Some elements /\
            lookup h' r = Some (OArray (js_slice (- count) elements)) /\
            read_messages h' (js_slice (- count) elements)
            = Some (js_slice (- count) (messages v))
      end.
Proof.
  intros h m g v Hv.
  destruct (internal_messages h m Hv)
    as (sid & msgs & active & started & last & meta & elements
        & Hst & Harr & Hsm & Hrd).
  assert (Hnew : forall o, lookup h (length h) = None /\
            internal (h ++ [o]) m = Some v /\
            (forall new, internal (write (h ++ [o]) (length h) new) m
                         = Some v)).
  { intros o. split; [apply nth_error_None; lia|].
    split; [now apply read_state_app|].
    intros new. rewrite write_fresh. now apply read_state_app. }
  destruct g as [| |count]; simpl; unfold getState, getMessages,
    getLastMessages, alloc; rewrite ?Hst, ?Hsm.
  - eexists _, _. split; [reflexivity|].
    destruct (Hnew (OState sid msgs active started last meta))
      as (N1 & N2 & N3).
    repeat split; auto.
    + now rewrite lookup_fresh.
    + unfold internal, read_state in N2.
      rewrite (@lookup_app h _ _ _ Hst) in N2.
      unfold read_state. now rewrite lookup_fresh.
  - eexists _, _. split; [reflexivity|].
    destruct (Hnew (OArray elements)) as (N1 & N2 & N3).
    repeat split; auto.
    exists elements. repeat split.
    + apply lookup_fresh.
    + now apply read_messages_app.
  - eexists _, _. split; [reflexivity|].
    destruct (Hnew (OArray (js_slice (- count) elements))) as (N1 & N2 & N3).
    repeat split; auto.
    exists elements. repeat split.
    + apply lookup_fresh.
    + apply read_messages_app. unfold js_slice.
      rewrite (read_messages_length h elements Hrd).
      now apply read_messages_suffix.
Qed.

Lemma getters_return_shallow_copies_witness :
  internal (snd example_manager) (fst example_manager)
  = Some {| id := "conv-1";
            messages := [{| msg_role := user; content := "Hello";
                            timestamp := Some 1%Z; metadata := None |}];
            isActive := true; startedAt := 0; lastActivityAt := 1;
            state_metadata := Some [] |} /\
  exists r h',
    call GetMessages (snd example_manager) (fst example_manager)
    = Some (r, h') /\
    forall new,
      internal (write h' r new) (fst example_manager)
      = internal (snd example_manager) (fst example_manager).
Proof.
  split; [reflexivity|].
  destruct (getters_return_shallow_copies
              (snd example_manager) (fst example_manager) GetMessages
              eq_refl)
    as (r & h' & E & _ & _ & Hw & _).
  exists r, h'. split; [exact E | exact Hw].
Defined.

End StoreFacts.

(** ** Properties of VoxAgent *)

Module VoxAgentFacts.

Import Types VoxAgent.

(** *** The reconnection policy *)

Lemma timers_app (g1 g2 : list effect) :
  timers (g1 ++ g2) = timers g1 ++ timers g2.
Proof.
  induction g1 as [|x g1 IH]; [reflexivity|].
  destruct x; simpl; now rewrite ?IH.
Qed.

Lemma timers_manager (g : list ConversationManager.effect) :
  timers (map Manager g) = [].
Proof. induction g; simpl; auto. Qed.

(** One call of [handleError] on an agent with an "error" listener. *)
Lemma handleError_listened (a : VoxAgent) (err context : string) :
  errorListeners a <> 0 ->
  let r := handleError a err context in
  thrown r = None /\
  isConnected (agent r) = isConnected a /\
  maxReconnectAttempts (agent r) = maxReconnectAttempts a /\
  reconnectDelay (agent r) = reconnectDelay a /\
  errorListeners (agent r) = errorListeners a /\
  (if isConnected a && (reconnectAttempts a <? maxReconnectAttempts a)%Z
   then timers (trace r) = [(reconnectDelay a * (reconnectAttempts a + 1))%Z]
        /\ reconnectAttempts (agent r) = (reconnectAttempts a + 1)%Z
   else timers (trace r) = [] /\ agent r = a).
Proof.
  intros Hl. unfold handleError.
  destruct (errorListeners a) as [|n] eqn:E; [congruence|].
  destruct (isConnected a && _) eqn:C; simpl; rewrite ?E;
    repeat split; destruct (hasOnError a); reflexivity.
Qed.

(** One call of [handleError] on an agent without any "error" listener:
    the emitter throws, and nothing else happens. *)
Lemma handleError_unlistened (a : VoxAgent) (err context : string) :
  errorListeners a = 0 ->
  handleError a err context
  = {| agent := a;
       trace := [Log LError ("Error in " ++ context ++ ":")%string];
       thrown := Some err |}.
Proof. intros Hl. unfold handleError. now rewrite Hl. Qed.

(** A failed [connect()] throws the provider's error, and sets the timers
    [handleError] sets. *)
Lemma connect_fails (a : VoxAgent) (p : provider_outcome) (newId : string)
  (now : Z) :
  p <> Connected ->
  exists err,
    (p = InitializeFails err \/ p = ConnectFails err) /\
    thrown (connect a p newId now) = Some err /\
    agent (connect a p newId now) = agent (handleError a err "connect") /\
    timers (trace (connect a p newId now))
    = timers (trace (handleError a err "connect")).
Proof.
  intros Hp. destruct p as [err|err|]; [| |congruence];
    exists err; simpl; auto.
Qed.

Lemma fail_listened (a : VoxAgent) (f : failure) :
  errorListeners a <> 0 -> isConnected a = true -> is_failure f = true ->
  let r := fail a f in
  isConnected (agent r) = true /\
  maxReconnectAttempts (agent r) = maxReconnectAttempts a /\
  reconnectDelay (agent r) = reconnectDelay a /\
  errorListeners (agent r) = errorListeners a /\
  (if (reconnectAttempts a <? maxReconnectAttempts a)%Z
   then timers (trace r) = [(reconnectDelay a * (reconnectAttempts a + 1))%Z]
        /\ reconnectAttempts (agent r) = (reconnectAttempts a + 1)%Z
   else timers (trace r) = []
        /\ reconnectAttempts (agent r) = reconnectAttempts a).
Proof.
  intros Hl Hc Hf.
  assert (forall err context,
            let r := handleError a err context in
            isConnected (agent r) = true /\
            maxReconnectAttempts (agent r) = maxReconnectAttempts a /\
            reconnectDelay (agent r) = reconnectDelay a /\
            errorListeners (agent r) = errorListeners a /\
            (if (reconnectAttempts a <? maxReconnectAttempts a)%Z
             then timers (trace r)
                  = [(reconnectDelay a * (reconnectAttempts a + 1))%Z]
                  /\ reconnectAttempts (agent r) = (reconnectAttempts a + 1)%Z
             else timers (trace r) = []
                  /\ reconnectAttempts (agent r) = reconnectAttempts a)) as H.
  { intros err context.
    destruct (handleError_listened a err context Hl)
      as (_ & H1 & H2 & H3 & H4 & H5).
    rewrite Hc in H1, H5. simpl in H5. repeat split; auto.
    destruct (_ <? _)%Z; [exact H5|].
    destruct H5 as [H5 H6]. split; [exact H5 | now rewrite H6]. }
  destruct f as [err context | p newId now]; simpl.
  - apply H.
  - destruct p as [err|err|]; [| |discriminate Hf]; simpl;
      rewrite timers_app, app_nil_r; apply H.
Qed.

Lemma fails_listened (fs : list failure) :
  forall a : VoxAgent,
    errorListeners a <> 0 -> isConnected a = true ->
    forallb is_failure fs = true ->
    (0 <= reconnectAttempts a <= maxReconnectAttempts a)%Z ->
    let k := Nat.min (length fs)
               (Z.to_nat (maxReconnectAttempts a - reconnectAttempts a)) in
    timers (snd (fails a fs))
    = delays (reconnectDelay a) (reconnectAttempts a) k /\
    reconnectAttempts (fst (fails a fs))
    = (reconnectAttempts a + Z.of_nat k)%Z.
Proof.
  induction fs as [|f rest IH]; intros a Hl Hc Hf Hr; simpl.
  - split; [reflexivity | lia].
  - simpl in Hf. apply andb_prop in Hf. destruct Hf as [Hf Hrest].
    destruct (fail_listened a f Hl Hc Hf) as (H1 & H2 & H3 & H4 & H5).
    specialize (IH (agent (fail a f))).
    rewrite H2, H3, H4 in IH.
    destruct (fails (agent (fail a f)) rest) as [a' g] eqn:E.
    simpl in *. rewrite timers_app.
    destruct (Z.ltb_spec (reconnectAttempts a) (maxReconnectAttempts a))
      as [Hlt|Hge]; destruct H5 as [H5 H6]; rewrite H5, H6 in *.
    + destruct (IH Hl H1 Hrest ltac:(lia)) as [IH1 IH2].
      rewrite IH1, IH2.
      replace (Z.to_nat (maxReconnectAttempts a - reconnectAttempts a))
        with (S (Z.to_nat (maxReconnectAttempts a
                           - (reconnectAttempts a + 1)))) by lia.
      simpl. split; [reflexivity | lia].
    + destruct (IH Hl H1 Hrest ltac:(lia)) as [IH1 IH2].
      rewrite IH1, IH2.
      replace (Z.to_nat (maxReconnectAttempts a - reconnectAttempts a))
        with 0 by lia.
      rewrite !Nat.min_0_r. simpl. split; [reflexivity | lia].
Qed.

(** X3.  With a listener for "error" on the agent, the policy of C8
    holds.  An error handled while connected sets exactly one timer, after
    [reconnectDelay] times the attempt number, as long as the counter is
    below the ceiling, and none once it has reached it; along a run of
    failures the delays are [reconnectDelay * 1], [reconnectDelay * 2], ...
    and after as many failures as the ceiling no further timer is set.  A
    failure of the first [connect()] sets no timer and is thrown to the
    caller. *)
Lemma reconnection_policy :
  forall (a : VoxAgent) (fs : list failure),
    errorListeners a <> 0 -> isConnected a = true ->
    reconnectAttempts a = 0%Z -> (0 <= maxReconnectAttempts a)%Z ->
    forallb is_failure fs = true ->
    timers (snd (fails a fs))
    = delays (reconnectDelay a) 0
             (Nat.min (length fs) (Z.to_nat (maxReconnectAttempts a))) /\
    (Z.to_nat (maxReconnectAttempts a) <= length fs ->
     forall f, is_failure f = true ->
               timers (trace (fail (fst (fails a fs)) f)) = []) /\
    (forall (b : VoxAgent) (p : provider_outcome) (newId : string) (now : Z),
       isConnected b = false -> p <> Connected ->
       timers (trace (connect b p newId now)) = [] /\
       exists err, thrown (connect b p newId now) = Some err /\
                   (p = InitializeFails err \/ p = ConnectFails err)).
Proof.
  intros a fs Hl Hc H0 Hmax Hf.
  destruct (fails_listened fs a Hl Hc Hf ltac:(lia)) as [H1 H2].
  rewrite H0, Z.sub_0_r in *. split; [exact H1|]. split.
  - intros Hlen f Hff.
    assert (errorListeners (fst (fails a fs)) <> 0
            /\ isConnected (fst (fails a fs)) = true
            /\ maxReconnectAttempts (fst (fails a fs))
               = maxReconnectAttempts a) as (Hl' & Hc' & Hm').
    { clear H1 H2 H0 Hlen Hmax. revert a Hl Hc.
      induction fs as [|x rest IH]; intros a Hl Hc; simpl; [auto|].
      simpl in Hf. apply andb_prop in Hf. destruct Hf as [Hx Hrest].
      destruct (fail_listened a x Hl Hc Hx) as (G1 & G2 & G3 & G4 & _).
      specialize (IH Hrest (agent (fail a x))).
      destruct (fails (agent (fail a x)) rest) as [a' g]. simpl in *.
      rewrite <- G2. apply IH; [congruence | exact G1]. }
    destruct (fail_listened _ f Hl' Hc' Hff) as (_ & _ & _ & _ & H5).
    rewrite H2, Hm' in H5.
    destruct (Z.ltb_spec (0 + Z.of_nat (Nat.min (length fs)
                (Z.to_nat (maxReconnectAttempts a))))
                (maxReconnectAttempts a)) as [Hlt|_]; [lia|].
    apply H5.
  - intros b p newId now Hb Hp.
    destruct (connect_fails b newId now Hp) as (err & Hcase & Ht & _ & Htm).
    split; [|now exists err].
    rewrite Htm. unfold handleError.
    destruct (errorListeners b); [reflexivity|].
    rewrite Hb. simpl. destruct (hasOnError b); reflexivity.
Qed.

Lemma reconnection_policy_witness :
  errorListeners (connected_agent 1) <> 0 /\
  isConnected (connected_agent 1) = true /\
  reconnectAttempts (connected_agent 1) = 0%Z /\
  timers (snd (fails (connected_agent 1) six_failures))
  = [1000; 2000; 3000; 4000; 5000]%Z.
Proof.
  split; [discriminate|]. split; [reflexivity|]. split; [reflexivity|].
  rewrite (proj1 (reconnection_policy (connected_agent 1) six_failures
                    ltac:(discriminate) eq_refl eq_refl
                    ltac:(simpl; lia) eq_refl)).
  reflexivity.
Defined.

(** C8, on the code.  The agent of the README, connected, retry counter 0
    below the ceiling 5, with [onError] configured but no listener for
    "error": an error of the provider makes [handleError] throw at
    [this.emit('error', ...)]; [onError] is not called, the counter stays
    at 0 and no timer is set, where one reconnection after 1000 ms was to
    be scheduled.  With one listener the timer is set. *)
Theorem handleError_without_listener_schedules_nothing :
  let a := connected_agent 0 in
  let r := handleError a "socket closed" "provider" in
  isConnected a = true /\
  reconnectAttempts a = 0%Z /\ maxReconnectAttempts a = 5%Z /\
  thrown r = Some "socket closed"%string /\
  trace r = [Log LError "Error in provider:"] /\
  timers (trace r) = [] /\
  agent r = a /\
  timers (trace (handleError (connected_agent 1) "socket closed" "provider"))
  = [1000%Z].
Proof. vm_compute. repeat split. Qed.

End VoxAgentFacts.

(** ** Properties of MetricsPlugin *)

Module MetricsPluginFacts.

Import Types MetricsPlugin.

Lemma tokens_bounds (s : string) :
  (Z.of_nat (String.length s) <= 4 * tokens s
   <= Z.of_nat (String.length s) + 3)%Z.
Proof.
  change (tokens s) with (- (- Z.of_nat (String.length s) / 4))%Z.
  generalize (Z.of_nat (String.length s)). intros n.
  Z.to_euclidean_division_equations. lia.
Qed.

Lemma characters_cons (m : ConversationMessage)
  (ms : list ConversationMessage) :
  characters (m :: ms)
  = (Z.of_nat (String.length (content m)) + characters ms)%Z.
Proof. reflexivity. Qed.

(** What a run of calls adds to the counters. *)
Lemma calls_add (hs : list hook) :
  forall p : MetricsPlugin,
    let m := metrics p in
    let m' := metrics (fold_left call hs p) in
    let ms := messages_of hs in
    let users := with_role user ms in
    let assistants := with_role assistant ms in
    (turnCount m' = turnCount m + Z.of_nat (length ms) /\
     userTurns m' = userTurns m + Z.of_nat (length users) /\
     assistantTurns m' = assistantTurns m + Z.of_nat (length assistants) /\
     Z.of_nat (length ms)
     = Z.of_nat (length users) + Z.of_nat (length assistants)
       + Z.of_nat (length (with_role system ms))
       + Z.of_nat (length (with_role function ms)) /\
     characters users <= 4 * (estimatedInputTokens m' - estimatedInputTokens m)
     <= characters users + 3 * Z.of_nat (length users) /\
     characters assistants
     <= 4 * (estimatedOutputTokens m' - estimatedOutputTokens m)
     <= characters assistants + 3 * Z.of_nat (length assistants) /\
     leadCaptured m' = leadCaptured m || existsb is_OnLead hs /\
     startedAt m' = startedAt m /\ sessionId m' = sessionId m)%Z.
Proof.
  induction hs as [|h hs IH]; intros p.
  - cbn [fold_left messages_of flat_map with_role filter length characters
         fold_right existsb]. cbn zeta.
    rewrite orb_false_r. repeat split; try reflexivity; lia.
  - cbn [fold_left]. specialize (IH (call p h)). cbn zeta in *.
    destruct IH as (T & U & A & N & [I1 I2] & [O1 O2] & L & S & D).
    rewrite T, U, A, L, S, D. clear T U A L S D.
    revert I1 I2 O1 O2.
    generalize (estimatedInputTokens (metrics (fold_left call hs (call p h)))).
    generalize (estimatedOutputTokens (metrics (fold_left call hs (call p h)))).
    intros out inp I1 I2 O1 O2.
    destruct h as [message|lead]; cbn [call messages_of flat_map app existsb
                                        is_OnLead orb] in *.
    + fold (messages_of hs). unfold with_role in *. cbn [filter].
      pose proof (tokens_bounds (content message)) as [B1 B2].
      unfold onMessage in *.
      destruct (msg_role message);
        cbn [role_eqb metrics turnCount userTurns assistantTurns leadCaptured
             estimatedInputTokens estimatedOutputTokens startedAt sessionId
             length] in *;
        rewrite ?characters_cons, ?Nat2Z.inj_succ;
        repeat split; try reflexivity; lia.
    + fold (messages_of hs). unfold onLead in *.
      cbn [metrics turnCount userTurns assistantTurns leadCaptured
           estimatedInputTokens estimatedOutputTokens startedAt sessionId]
        in *.
      rewrite orb_true_r. repeat split; try reflexivity; lia.
Qed.

(** From construction on, whatever messages and leads the plugin is told
    of: [turnCount] is the number of messages, of any role; [userTurns] and
    [assistantTurns] count the user and assistant messages, so that their
    sum falls short of [turnCount] by the number of system and function
    messages; each token estimate is at least a quarter of the characters
    of the messages it covers, and exceeds it by less than one token per
    message; [leadCaptured] tells whether [onLead] was called; the id and
    the start of the session do not change. *)
Theorem metrics_count_what_the_plugin_is_told :
  forall (c : PartialConfig) (now1 now2 : Z) (hs : list hook),
    let m := getMetrics (fold_left call hs (constructor c now1 now2)) in
    let ms := messages_of hs in
    let users := with_role user ms in
    let assistants := with_role assistant ms in
    (turnCount m = Z.of_nat (length ms) /\
     userTurns m = Z.of_nat (length users) /\
     assistantTurns m = Z.of_nat (length assistants) /\
     turnCount m
     = userTurns m + assistantTurns m
       + Z.of_nat (length (with_role system ms))
       + Z.of_nat (length (with_role function ms)) /\
     characters users <= 4 * estimatedInputTokens m
     <= characters users + 3 * userTurns m /\
     characters assistants <= 4 * estimatedOutputTokens m
     <= characters assistants + 3 * assistantTurns m /\
     leadCaptured m = existsb is_OnLead hs /\
     startedAt m = now2 /\
     sessionId m = ("sess-" ++ decimal_of_Z now1)%string)%Z.
Proof.
  intros c now1 now2 hs.
  destruct (calls_add hs (constructor c now1 now2))
    as (T & U & A & N & [I1 I2] & [O1 O2] & L & S & D).
  cbn zeta in *. unfold getMetrics.
  cbn [constructor metrics createMetrics turnCount userTurns assistantTurns
       leadCaptured estimatedInputTokens estimatedOutputTokens startedAt
       sessionId orb] in *.
  rewrite T, U, A, L, S, D. repeat split; try reflexivity; lia.
Qed.

End MetricsPluginFacts.

(** ** Properties of LeadWebhookPlugin *)

Module LeadWebhookPluginFacts.

Import Types LeadWebhookPlugin.

Lemma has_In (set : list string) (k : string) :
  has set k = true <-> In k set.
Proof.
  unfold has. rewrite existsb_exists. split.
  - intros (x & Hx & E). apply String.eqb_eq in E. now subst.
  - intros H. exists k. split; [exact H | apply String.eqb_refl].
Qed.

Lemma NoDup_snoc (s : list string) (k : string) :
  NoDup s -> ~ In k s -> NoDup (s ++ [k]).
Proof.
  induction s as [|x s IH]; cbn; intros N K.
  - constructor; [intros [] | constructor].
  - inversion N; subst. constructor.
    + rewrite in_app_iff. intros [H|[H|[]]]; [contradiction|].
      subst. apply K. now left.
    + apply IH; [assumption|]. intros H. apply K. now right.
Qed.

Lemma has_app (s1 s2 : list string) (k : string) :
  has (s1 ++ s2) k = has s1 k || has s2 k.
Proof. unfold has. apply existsb_app. Qed.

Lemma onLeads_spec (calls : list (LeadInfo * list fetch_outcome)) :
  forall p : LeadWebhookPlugin,
    NoDup (seen p) ->
    let r := onLeads p calls in
    let keys := map (fun c => key (fst c)) calls in
    config (fst r) = config p /\
    length (snd r) = length calls /\
    NoDup (seen (fst r)) /\
    (forall k, In k (seen (fst r)) <-> In k (seen p) \/ In k keys) /\
    forall i lead outcomes,
      nth_error calls i = Some (lead, outcomes) ->
      nth_error (snd r) i
      = Some (if has (seen p ++ firstn i keys) (key lead) then []
              else sendWebhook (config p) lead 1 outcomes).
Proof.
  induction calls as [|[lead outcomes] calls IH]; intros p N.
  - cbn. repeat split; auto; try tauto. intros [|i]; discriminate.
  - cbn [onLeads map fst]. unfold onLead.
    destruct (has (seen p) (key lead)) eqn:H.
    + specialize (IH p N). cbn zeta in IH.
      destruct (onLeads p calls) as [p2 gs]. cbn [fst snd] in *.
      destruct IH as (C & L & N2 & S & G).
      split; [exact C|]. split; [cbn; now rewrite L|]. split; [exact N2|].
      split.
      * intros k. rewrite S. cbn. apply has_In in H.
        split; [tauto|]. intros [K|[<-|K]]; auto.
      * intros [|i] l o E; cbn in E.
        -- injection E as <- <-. cbn. rewrite app_nil_r. now rewrite H.
        -- cbn [nth_error firstn]. rewrite (G i l o E).
           f_equal. rewrite !has_app. cbn.
           destruct (String.eqb (key l) (key lead)) eqn:K; [|reflexivity].
           apply String.eqb_eq in K. rewrite K, H. reflexivity.
    + assert (N1 : NoDup (seen p ++ [key lead])).
      { apply NoDup_snoc; [exact N|].
        intros K. apply has_In in K. rewrite K in H. discriminate. }
      specialize (IH {| config := config p; seen := seen p ++ [key lead] |} N1).
      cbn zeta in IH.
      destruct (onLeads _ calls) as [p2 gs]. cbn [fst snd config seen] in *.
      destruct IH as (C & L & N2 & S & G).
      split; [exact C|]. split; [cbn; now rewrite L|]. split; [exact N2|].
      split.
      * intros k. rewrite S, in_app_iff. cbn. tauto.
      * intros [|i] l o E; cbn in E.
        -- injection E as <- <-. cbn. rewrite app_nil_r. now rewrite H.
        -- cbn [nth_error firstn]. rewrite (G i l o E).
           now rewrite <- app_assoc.
Qed.

(** *** The key of a lead *)

Lemma key_split (s1 s2 p1 p2 : string) :
  no_colon s1 = true -> no_colon s2 = true ->
  (s1 ++ ":" ++ p1 = s2 ++ ":" ++ p2)%string -> s1 = s2 /\ p1 = p2.
Proof.
  revert s2. induction s1 as [|c s1 IH]; intros [|c2 s2] N1 N2 E; cbn in *.
  - injection E as ->. auto.
  - injection E as <- _. discriminate.
  - injection E as -> _. discriminate.
  - injection E as -> E.
    apply andb_prop in N1, N2. destruct N1 as [_ N1], N2 as [_ N2].
    destruct (IH s2 N1 N2 E) as (-> & ->). auto.
Qed.

Lemma class_no_colon (p : ascii -> bool) (l : list ascii) :
  p ":"%char = false -> forallb p l = true ->
  forallb (fun c => negb (Ascii.eqb c ":")) l = true.
Proof.
  intros P H. rewrite forallb_forall in *. intros c Hc.
  destruct (Ascii.eqb_spec c ":"%char) as [->|]; [|reflexivity].
  specialize (H _ Hc). congruence.
Qed.

(** A match of the email pattern holds no ":". *)
Lemma email_match_no_colon (text first : string) (others : list string) :
  Regex.js_match_global LeadExtractor.email_pattern text
  = Some (first :: others) ->
  no_colon first = true.
Proof.
  intros M.
  destruct (RegexFacts.js_match_global_first _ _ M) as (res & Hexec & Hfirst).
  destruct (RegexFacts.exec_sound _ _ _ Hexec) as (w & Hw & Hm & _).
  destruct (LeadExtractorFacts.email_match_shape Hw)
    as (l & d & t & -> & _ & Al & _ & Ad & _ & At_).
  unfold no_colon. rewrite <- Hfirst, Hm, list_ascii_of_string_of_list_ascii.
  rewrite forallb_app. cbn [forallb]. rewrite forallb_app. cbn [forallb].
  rewrite (class_no_colon LeadExtractor.email_local l eq_refl Al),
    (class_no_colon LeadExtractor.email_domain d eq_refl Ad),
    (class_no_colon LeadExtractor.email_tld t eq_refl At_).
  reflexivity.
Qed.

(** From construction on, whatever leads the plugin is told of: a lead is
    posted when no earlier lead had the same key, the text
    [`${lead.email ?? ''}:${lead.phone ?? ''}`], and otherwise nothing at
    all is done for it; the keys recorded are those of the leads seen,
    each once.  For two leads whose emails hold no ":" (as every match of
    the email pattern), the keys are equal exactly when the emails and the
    phones are, an absent field being the same as an empty one.  With a
    ":" in an email or a phone, leads that differ in both can share a key:
    email "a" with phone "b:c", and email "a:b" with phone "c"; the second
    one is then not posted. *)
Theorem webhook_posts_once_per_key :
  forall (c : PartialConfig) (calls : list (LeadInfo * list fetch_outcome)),
    let r := onLeads (constructor c) calls in
    let keys := map (fun c => key (fst c)) calls in
    (length (snd r) = length calls /\
     NoDup (seen (fst r)) /\
     (forall k, In k (seen (fst r)) <-> In k keys) /\
     forall i lead outcomes,
       nth_error calls i = Some (lead, outcomes) ->
       nth_error (snd r) i
       = Some (if has (firstn i keys) (key lead) then []
               else sendWebhook (config (constructor c)) lead 1 outcomes)) /\
    (forall l1 l2 : LeadInfo,
       no_colon (LeadExtractor.value (email l1)) = true ->
       no_colon (LeadExtractor.value (email l2)) = true ->
       (key l1 = key l2 <->
        LeadExtractor.value (email l1) = LeadExtractor.value (email l2) /\
        LeadExtractor.value (phone l1) = LeadExtractor.value (phone l2))) /\
    (forall (text first : string) (others : list string),
       Regex.js_match_global LeadExtractor.email_pattern text
       = Some (first :: others) ->
       no_colon first = true) /\
    key (contact None None)
    = key (contact (Some ""%string) (Some ""%string)) /\
    let first := contact (Some "a"%string) (Some "b:c"%string) in
    let second := contact (Some "a:b"%string) (Some "c"%string) in
    key first = key second /\
    forall outcomes outcomes',
      snd (onLeads (constructor c) [(first, outcomes); (second, outcomes')])
      = [sendWebhook (config (constructor c)) first 1 outcomes; []].
Proof.
  intros c calls.
  destruct (@onLeads_spec calls (constructor c)) as (_ & L & N & S & G);
    [constructor|].
  cbn zeta in *. split; [|split; [|split; [|split; [|split]]]].
  - split; [exact L|]. split; [exact N|]. split; [|exact G].
    intros k. rewrite S. cbn. tauto.
  - intros l1 l2 N1 N2. unfold key. split.
    + now apply key_split.
    + now intros (-> & ->).
  - exact email_match_no_colon.
  - reflexivity.
  - reflexivity.
  - reflexivity.
Qed.

(** *** Retries *)

Lemma requests_cons_log (l : level) (s : string) (g : list effect) :
  requests (Log l s :: g) = requests g.
Proof. reflexivity. Qed.

Lemma sendWebhook_all_fail (cfg : LeadWebhookConfig) (lead : LeadInfo) :
  forall (outcomes : list fetch_outcome) (attempt : Z),
    forallb is_failure outcomes = true ->
    (Z.max 0 (retries cfg - attempt) < Z.of_nat (length outcomes))%Z ->
    let g := sendWebhook cfg lead attempt outcomes in
    let n := Z.to_nat (retries cfg - attempt) in
    requests g = repeat lead (S n) /\ timeouts g = backoff attempt n.
Proof.
  induction outcomes as [|o outcomes IH]; intros attempt F L; [cbn in L; lia|].
  cbn in F. apply andb_prop in F. destruct F as [Fo F].
  cbn [sendWebhook].
  assert (E : match o with
              | Responded true _ =>
                  [Log LInfo ("Lead posted (attempt " ++ decimal_of_Z attempt
                              ++ ")")%string]
              | _ =>
                  Log LError ("Webhook failed (attempt "
                              ++ decimal_of_Z attempt ++ "):")%string ::
                  (if (attempt <? retries cfg)%Z
                   then SetTimeout (1000 * 2 ^ (attempt - 1))%Z
                        :: sendWebhook cfg lead (attempt + 1) outcomes
                   else [])
              end
              = Log LError ("Webhook failed (attempt "
                            ++ decimal_of_Z attempt ++ "):")%string ::
                (if (attempt <? retries cfg)%Z
                 then SetTimeout (1000 * 2 ^ (attempt - 1))%Z
                      :: sendWebhook cfg lead (attempt + 1) outcomes
                 else [])).
  { destruct o as [[] ?|?]; [discriminate | reflexivity | reflexivity]. }
  rewrite E. clear E. cbn zeta.
  destruct (attempt <? retries cfg)%Z eqn:A.
  - apply Z.ltb_lt in A.
    destruct (IH (attempt + 1)%Z F) as (R & T).
    { cbn [length] in L. lia. }
    cbn zeta in R, T. cbn [requests timeouts].
    replace (Z.to_nat (retries cfg - attempt))
      with (S (Z.to_nat (retries cfg - (attempt + 1)))) by lia.
    cbn [repeat backoff]. now rewrite R, T.
  - apply Z.ltb_ge in A.
    replace (Z.to_nat (retries cfg - attempt)) with 0 by lia.
    split; reflexivity.
Qed.

Lemma sendWebhook_succeeds (cfg : LeadWebhookConfig) (lead : LeadInfo)
  (status : Z) (later : list fetch_outcome) :
  forall (failures : list fetch_outcome) (attempt : Z),
    forallb is_failure failures = true ->
    (Z.of_nat (length failures) <= retries cfg - attempt)%Z ->
    let g := sendWebhook cfg lead attempt
                         (failures ++ Responded true status :: later) in
    requests g = repeat lead (S (length failures)) /\
    timeouts g = backoff attempt (length failures).
Proof.
  induction failures as [|o failures IH]; intros attempt F L.
  - cbn. auto.
  - cbn in F. apply andb_prop in F. destruct F as [Fo F].
    cbn [app sendWebhook length] in *.
    assert (A : (attempt <? retries cfg)%Z = true) by (apply Z.ltb_lt; lia).
    destruct (IH (attempt + 1)%Z F) as (R & T); [lia|].
    cbn zeta in *. rewrite A.
    destruct o as [[] ?|?]; [discriminate | |];
      cbn [requests timeouts repeat backoff]; now rewrite R, T.
Qed.

(** The retries of [sendWebhook].  When every attempt fails, a lead is
    posted [retries] times in all (once when [retries] is 0 or less), the
    attempt after the [k]-th one being delayed by [1000 * 2^(k-1)] ms; the
    lead is not posted again afterwards.  When the attempt that follows
    [k] failures succeeds, [k] being less than [retries], the lead has been
    posted [k + 1] times, with the first [k] of these delays. *)
Theorem webhook_retry_schedule :
  forall (cfg : LeadWebhookConfig) (lead : LeadInfo)
         (failures later : list fetch_outcome) (status : Z),
    forallb is_failure failures = true ->
    ((Z.max 1 (retries cfg) <= Z.of_nat (length failures))%Z ->
     let g := sendWebhook cfg lead 1 failures in
     let attempts := Z.to_nat (Z.max 1 (retries cfg)) in
     requests g = repeat lead attempts /\
     timeouts g = backoff 1 (attempts - 1)) /\
    ((Z.of_nat (length failures) < retries cfg)%Z ->
     let g := sendWebhook cfg lead 1
                          (failures ++ Responded true status :: later) in
     requests g = repeat lead (S (length failures)) /\
     timeouts g = backoff 1 (length failures)).
Proof.
  intros cfg lead failures later status F. split.
  - intros L. destruct (@sendWebhook_all_fail cfg lead failures 1%Z F)
      as (R & T); [lia|].
    cbn zeta in *.
    replace (Z.to_nat (Z.max 1 (retries cfg)))
      with (S (Z.to_nat (retries cfg - 1))) by lia.
    rewrite R, T. split; [reflexivity | f_equal; lia].
  - intros L. apply sendWebhook_succeeds; [exact F | lia].
Qed.

Lemma webhook_retry_schedule_witness :
  let cfg := config (constructor {| p_url := "https://example.com/hook";
                                    p_secret := None; p_headers := None;
                                    p_retries := None |}) in
  let failures := [Rejected "ECONNREFUSED"; Responded false 500;
                   Responded false 503] in
  forallb is_failure failures = true /\
  timeouts (sendWebhook cfg LeadExtractor.lead_NewName 1 failures)
  = [1000; 2000]%Z /\
  length (requests (sendWebhook cfg LeadExtractor.lead_NewName 1 failures))
  = 3.
Proof.
  intros cfg failures.
  destruct (@webhook_retry_schedule cfg LeadExtractor.lead_NewName failures
              [] 200%Z eq_refl) as (H & _).
  destruct H as (R & T); [cbn; lia|]. cbn zeta in *.
  split; [reflexivity|]. rewrite R, T. split; reflexivity.
Defined.

End LeadWebhookPluginFacts.

(** ** Properties of the agent's event handlers *)

Module OrchestrationFacts.

Import Types Orchestration.

(** *** Reading traces *)

Lemma lead_events_app (g1 g2 : list effect) :
  lead_events (g1 ++ g2) = lead_events g1 ++ lead_events g2.
Proof.
  induction g1 as [|x g1 IH]; [reflexivity|].
  destruct x as [| |[]| | | | | | | |]; cbn; now rewrite ?IH.
Qed.

Lemma onLead_calls_app (g1 g2 : list effect) :
  onLead_calls (g1 ++ g2) = onLead_calls g1 ++ onLead_calls g2.
Proof.
  induction g1 as [|x g1 IH]; [reflexivity|].
  destruct x; cbn; now rewrite ?IH.
Qed.

Lemma plugin_leads_app (g1 g2 : list effect) :
  plugin_leads (g1 ++ g2) = plugin_leads g1 ++ plugin_leads g2.
Proof.
  induction g1 as [|x g1 IH]; [reflexivity|].
  destruct x; cbn; now rewrite ?IH.
Qed.

Lemma core_trace_app (g1 g2 : list effect) :
  core_trace (g1 ++ g2) = core_trace g1 ++ core_trace g2.
Proof.
  induction g1 as [|x g1 IH]; [reflexivity|].
  destruct x; cbn; now rewrite ?IH.
Qed.

(** What a run of notifications looks like through each reading. *)
Record quiet (g : list effect) : Prop := {
  no_lead_event : lead_events g = [];
  no_onLead_call : onLead_calls g = [];
  no_plugin_lead : plugin_leads g = [];
  no_core_effect : core_trace g = []
}.

Lemma notifyLead_read (a : Agent) (lead : LeadInfo) :
  lead_events (notifyLead a lead) = [lead] /\
  onLead_calls (notifyLead a lead) = (if hasOnLead a then [lead] else []) /\
  plugin_leads (notifyLead a lead) = [] /\
  core_trace (notifyLead a lead) = [].
Proof. unfold notifyLead. now destruct (hasOnLead a). Qed.

Lemma plugins_onLead_read (lead : LeadInfo) (ps : list Plugin) :
  let g := flat_map (fun p => if definesOnLead p
                              then [PluginOnLead (plugin_name p) lead]
                              else []) ps in
  lead_events g = [] /\ onLead_calls g = [] /\
  plugin_leads g
  = map (fun p => (plugin_name p, lead)) (filter definesOnLead ps) /\
  core_trace g = [].
Proof.
  induction ps as [|p ps (L & O & P & C)]; cbn; [auto|].
  destruct (definesOnLead p); cbn; rewrite ?P; auto.
Qed.

Lemma plugins_onMessage_quiet (message : ConversationMessage)
  (ps : list Plugin) :
  quiet (flat_map (fun p => if definesOnMessage p
                            then [PluginOnMessage (plugin_name p) message]
                            else []) ps).
Proof.
  induction ps as [|p ps [L O P C]]; [now split|].
  cbn. destruct (definesOnMessage p); now split.
Qed.

Lemma onExtractorLead_read (a : Agent) (lead : LeadInfo) :
  lead_events (onExtractorLead a lead) = [lead] /\
  onLead_calls (onExtractorLead a lead)
  = (if hasOnLead a then [lead] else []) /\
  plugin_leads (onExtractorLead a lead) = told a lead /\
  core_trace (onExtractorLead a lead) = [].
Proof.
  unfold onExtractorLead, told.
  destruct (notifyLead_read a lead) as (L1 & O1 & P1 & C1).
  destruct (plugins_onLead_read lead (plugins a)) as (L2 & O2 & P2 & C2).
  cbn zeta in *.
  rewrite lead_events_app, onLead_calls_app, plugin_leads_app, core_trace_app.
  rewrite L1, L2, O1, O2, P1, P2, C1, C2.
  now destruct (hasOnLead a).
Qed.

(** The listener of the lead extractor passes every "lead" event on. *)
Lemma forward_read (a : Agent) (g : list LeadExtractor.effect) :
  lead_events (forward a g) = LeadExtractor.emitted_leads g /\
  onLead_calls (forward a g)
  = (if hasOnLead a then LeadExtractor.emitted_leads g else []) /\
  plugin_leads (forward a g)
  = flat_map (told a) (LeadExtractor.emitted_leads g) /\
  core_trace (forward a g) = [].
Proof.
  induction g as [|x g (L & O & P & C)]; cbn [forward].
  - now destruct (hasOnLead a).
  - destruct x as [lead|l s]; cbn [lead_events onLead_calls plugin_leads
                                    core_trace LeadExtractor.emitted_leads app
                                    flat_map].
    + destruct (onExtractorLead_read a lead) as (L1 & O1 & P1 & C1).
      rewrite lead_events_app, onLead_calls_app, plugin_leads_app,
        core_trace_app, L, O, P, C, L1, O1, P1, C1.
      now destruct (hasOnLead a).
    + auto.
Qed.

(** *** The listener of the conversation manager *)

Lemma onManagerMessage_read (a : Agent) (message : ConversationMessage) :
  let r := onManagerMessage a message in
  let found := LeadExtractor.processMessage (leadExtractor a) message in
  let twice := match fst (fst found) with
               | Some lead => [lead; lead]
               | None => []
               end in
  core (fst r) = core a /\ plugins (fst r) = plugins a /\
  hasOnLead (fst r) = hasOnLead a /\
  enableLeadExtraction (fst r) = enableLeadExtraction a /\
  core_trace (snd r) = [] /\
  if enableLeadExtraction a
  then leadExtractor (fst r) = snd (fst found) /\
       lead_events (snd r) = twice /\
       onLead_calls (snd r) = (if hasOnLead a then twice else []) /\
       plugin_leads (snd r)
       = match fst (fst found) with
         | Some lead => told a lead
         | None => []
         end
  else fst r = a /\ quiet (snd r).
Proof.
  unfold onManagerMessage.
  destruct (plugins_onMessage_quiet message (plugins a)) as [L0 O0 P0 C0].
  destruct (enableLeadExtraction a) eqn:X; cbn [andb].
  - destruct (role_eqb (msg_role message) user) eqn:R.
    + pose proof (LeadExtractorFacts.processMessage_emits_what_it_returns
                    (leadExtractor a) message) as G.
      destruct (LeadExtractor.processMessage (leadExtractor a) message)
        as [[found e1] g]. cbn [fst snd] in *.
      destruct (forward_read a g) as (L1 & O1 & P1 & C1).
      rewrite !lead_events_app, !onLead_calls_app, !plugin_leads_app,
        !core_trace_app, L0, O0, P0, C0, L1, O1, P1, C1, G, !app_nil_r.
      destruct found as [lead|].
      * destruct (notifyLead_read a lead) as (L2 & O2 & P2 & C2).
        rewrite L2, O2, P2, C2. cbn. rewrite app_nil_r.
        repeat split; auto using app_nil_r. now destruct (hasOnLead a).
      * cbn. repeat split; auto. now destruct (hasOnLead a).
    + rewrite LeadExtractorFacts.processMessage_not_user
        by (intros E; rewrite E in R; discriminate).
      cbn. rewrite L0, O0, P0, C0.
      repeat split; auto; now destruct (hasOnLead a).
  - cbn. repeat split; auto.
Qed.

Lemma dispatch_no_messages (g : list ConversationManager.effect) :
  forall a : Agent,
    ConversationManager.emitted_messages g = [] ->
    dispatch a (map VoxAgent.Manager g)
    = (a, map (fun x => Core (VoxAgent.Manager x)) g).
Proof.
  induction g as [|x g IH]; intros a H; [reflexivity|].
  cbn [map dispatch].
  destruct x as [[]|l s|ms|]; cbn in H; try discriminate;
    rewrite (IH a H); reflexivity.
Qed.

Lemma map_core_quiet (g : list VoxAgent.effect) :
  lead_events (map Core g) = [] /\ onLead_calls (map Core g) = [] /\
  plugin_leads (map Core g) = [] /\ core_trace (map Core g) = g.
Proof.
  induction g as [|x g (L & O & P & C)]; cbn; [auto|]. now rewrite C.
Qed.

Lemma map_manager_quiet (g : list ConversationManager.effect) :
  let g' := map (fun x => Core (VoxAgent.Manager x)) g in
  lead_events g' = [] /\ onLead_calls g' = [] /\ plugin_leads g' = [] /\
  core_trace g' = map VoxAgent.Manager g.
Proof.
  cbn zeta. rewrite <- map_map with (g := Core). apply map_core_quiet.
Qed.

(** [addMessage] on an active conversation, seen from the agent: the
    listener runs once, for the message added. *)
Lemma manager_call_addMessage (a : Agent) (r : role) (text : string)
  (now1 now2 : Z) :
  isActive (ConversationManager.state (VoxAgent.conversationManager (core a)))
  = true ->
  let cm := VoxAgent.conversationManager (core a) in
  let call := ConversationManager.addMessage cm r text None now1 now2 in
  let message := {| msg_role := r; content := text; timestamp := Some now1;
                    metadata := None |} in
  let a0 := with_core a (set_manager (core a) (fst call)) in
  exists g,
    manager_call a call
    = (fst (onManagerMessage a0 message),
       Core (VoxAgent.Manager
               (ConversationManager.Emit (ConversationManager.EMessage message)))
       :: snd (onManagerMessage a0 message)
       ++ map (fun x => Core (VoxAgent.Manager x)) g) /\
    ConversationManager.emitted_messages g = [].
Proof.
  intros A cm call message a0. unfold manager_call. fold a0.
  destruct (@ConversationManagerFacts.addMessage_trace cm r text None now1 now2 A)
    as (g & E & M).
  fold call in E. rewrite E.
  assert (Em : (if ConversationManager.enableMetadata
                     (ConversationManager.config cm)
                then @None record else None) = None)
    by now destruct (ConversationManager.enableMetadata _).
  rewrite Em. fold message. cbn [map dispatch].
  destruct (onManagerMessage a0 message) as [a1 g1]. cbn [fst snd].
  exists g. rewrite (dispatch_no_messages g a1 M). auto.
Qed.

(** The listeners change neither the agent's core nor its configuration,
    and add nothing to what the core did. *)
Lemma dispatch_core (g : list VoxAgent.effect) :
  forall a : Agent,
    core (fst (dispatch a g)) = core a /\
    plugins (fst (dispatch a g)) = plugins a /\
    hasOnLead (fst (dispatch a g)) = hasOnLead a /\
    enableLeadExtraction (fst (dispatch a g)) = enableLeadExtraction a /\
    core_trace (snd (dispatch a g)) = g.
Proof.
  induction g as [|x g IH]; intros a; [cbn; auto|].
  cbn [dispatch].
  assert (S : forall p : Agent * list effect,
             core (fst p) = core a -> plugins (fst p) = plugins a ->
             hasOnLead (fst p) = hasOnLead a ->
             enableLeadExtraction (fst p) = enableLeadExtraction a ->
             core_trace (snd p) = [] ->
             let r := let '(a1, g1) := p in
                      let '(a2, g2) := dispatch a1 g in
                      (a2, Core x :: g1 ++ g2) in
             core (fst r) = core a /\ plugins (fst r) = plugins a /\
             hasOnLead (fst r) = hasOnLead a /\
             enableLeadExtraction (fst r) = enableLeadExtraction a /\
             core_trace (snd r) = x :: g).
  { intros [a1 g1] C P H X T. cbn [fst snd] in *.
    destruct (IH a1) as (C2 & P2 & H2 & X2 & T2).
    destruct (dispatch a1 g) as [a2 g2]. cbn [fst snd core_trace] in *.
    rewrite core_trace_app, T, T2. repeat split; congruence. }
  destruct x as [| | | |[[]| | |]|]; try (apply (S (a, [])); reflexivity).
  match goal with
  | |- context [onManagerMessage a ?m] =>
      destruct (onManagerMessage_read a m) as (C & P & H & X & T & _);
      now apply (S (onManagerMessage a m))
  end.
Qed.

Lemma onManagerMessage_not_user (a : Agent) (message : ConversationMessage) :
  msg_role message <> user ->
  leadExtractor (fst (onManagerMessage a message)) = leadExtractor a /\
  lead_events (snd (onManagerMessage a message)) = [] /\
  onLead_calls (snd (onManagerMessage a message)) = [] /\
  plugin_leads (snd (onManagerMessage a message)) = [].
Proof.
  intros R.
  destruct (onManagerMessage_read a message) as (_ & _ & _ & _ & _ & H).
  rewrite (@LeadExtractorFacts.processMessage_not_user (leadExtractor a) message R) in H.
  cbn [fst snd] in H. destruct (enableLeadExtraction a).
  - destruct H as (E & L & O & P). rewrite E, L, O, P.
    now destruct (hasOnLead a).
  - destruct H as (E & [L O P _]). now rewrite E.
Qed.

(** Messages that are not the user's leave the lead extractor alone. *)
Lemma dispatch_not_user (g : list VoxAgent.effect) :
  forall a : Agent,
    (forall m, In (VoxAgent.Manager
                     (ConversationManager.Emit (ConversationManager.EMessage m)))
                  g -> msg_role m <> user) ->
    leadExtractor (fst (dispatch a g)) = leadExtractor a /\
    lead_events (snd (dispatch a g)) = [] /\
    onLead_calls (snd (dispatch a g)) = [] /\
    plugin_leads (snd (dispatch a g)) = [].
Proof.
  induction g as [|x g IH]; intros a H; [cbn; auto|].
  cbn [dispatch].
  assert (S : forall p : Agent * list effect,
             leadExtractor (fst p) = leadExtractor a ->
             lead_events (snd p) = [] -> onLead_calls (snd p) = [] ->
             plugin_leads (snd p) = [] ->
             let r := let '(a1, g1) := p in
                      let '(a2, g2) := dispatch a1 g in
                      (a2, Core x :: g1 ++ g2) in
             leadExtractor (fst r) = leadExtractor a /\
             lead_events (snd r) = [] /\ onLead_calls (snd r) = [] /\
             plugin_leads (snd r) = []).
  { intros [a1 g1] E L O P. cbn [fst snd] in *.
    destruct (IH a1) as (E2 & L2 & O2 & P2);
      [intros m I; apply H; now right|].
    destruct (dispatch a1 g) as [a2 g2].
    cbn [fst snd lead_events onLead_calls plugin_leads] in *.
    rewrite lead_events_app, onLead_calls_app, plugin_leads_app,
      L, L2, O, O2, P, P2.
    repeat split; congruence. }
  destruct x as [| | | |[[]| | |]|]; try (apply (S (a, [])); reflexivity).
  match goal with
  | |- context [onManagerMessage a ?m] =>
      destruct (@onManagerMessage_not_user a m) as (E & L & O & P);
        [apply H; now left|];
      now apply (S (onManagerMessage a m))
  end.
Qed.

Lemma In_emitted_messages (m : ConversationMessage)
  (g : list ConversationManager.effect) :
  In (ConversationManager.Emit (ConversationManager.EMessage m)) g ->
  In m (ConversationManager.emitted_messages g).
Proof.
  induction g as [|x g IH]; [auto|].
  intros [->|I]; [now left|].
  destruct x as [[]| | |]; cbn; auto.
Qed.

(** *** [sendText] *)

(** On a connected agent with lead extraction, in an active conversation,
    [sendText(text)] runs the lead extractor on the new user message.  When
    that finds a lead with minimum information, the agent's "lead" event
    and [config.onLead] report the same lead twice, once from the listener
    of the extractor's event and once from the listener of the "message"
    event, while each plugin's [onLead] hook is called once. *)
Theorem sendText_reports_a_lead_twice (a : Agent) (text : string)
  (now1 now2 : Z) (p : call_outcome) :
  VoxAgent.isConnected (core a) = true ->
  isActive (ConversationManager.state (VoxAgent.conversationManager (core a)))
  = true ->
  enableLeadExtraction a = true ->
  let message := {| msg_role := user; content := text; timestamp := Some now1;
                    metadata := None |} in
  let found := LeadExtractor.processMessage (leadExtractor a) message in
  let twice := match fst (fst found) with
               | Some lead => [lead; lead]
               | None => []
               end in
  let r := sendText a text now1 now2 p in
  leadExtractor (agent r) = snd (fst found) /\
  lead_events (trace r) = twice /\
  onLead_calls (trace r) = (if hasOnLead a then twice else []) /\
  plugin_leads (trace r) = match fst (fst found) with
                           | Some lead => told a lead
                           | None => []
                           end.
Proof.
  intros C A X message found twice r.
  unfold r, sendText. rewrite C. cbn [negb].
  destruct (@manager_call_addMessage a user text now1 now2 A)
    as (g & E & _).
  cbn zeta in E. rewrite E. fold message.
  set (a0 := with_core a _).
  destruct (onManagerMessage_read a0 message) as (_ & _ & _ & _ & _ & H).
  change (enableLeadExtraction a0) with (enableLeadExtraction a) in H.
  rewrite X in H. destruct H as (H1 & H2 & H3 & H4).
  cbn [agent trace].
  destruct (map_core_quiet (map VoxAgent.Manager g)) as (L & O & P & _).
  rewrite map_map in L, O, P.
  cbn [app lead_events onLead_calls plugin_leads].
  rewrite !lead_events_app, !onLead_calls_app, !plugin_leads_app,
    H2, H3, H4, L, O, P.
  cbn [lead_events onLead_calls plugin_leads]. rewrite !app_nil_r.
  repeat split. exact H1.
Qed.

Lemma sendText_reports_a_lead_twice_witness :
  let r := sendText example_agent "Email me at bob@example.com" 2000 2000
             Resolved in
  map email (lead_events (trace r))
  = [Some "bob@example.com"; Some "bob@example.com"]%string /\
  map email (onLead_calls (trace r))
  = [Some "bob@example.com"; Some "bob@example.com"]%string /\
  map fst (plugin_leads (trace r)) = ["metrics"%string].
Proof.
  destruct (@sendText_reports_a_lead_twice
              example_agent "Email me at bob@example.com" 2000 2000 Resolved
              eq_refl eq_refl eq_refl) as (_ & L & O & P).
  cbv zeta in *. rewrite L, O, P. vm_compute. repeat split.
Defined.

(** A call of [sendText] on a connected agent records the user message
    before it calls the provider.  When the provider fails, the error goes
    to the caller as it is: [handleError] is not run, so no reconnection
    timer is set and the retry counter stays, the agent stays connected,
    and the message stays in the history. *)
Theorem sendText_failure_is_not_handled (a : Agent) (text : string)
  (now1 now2 : Z) (p : call_outcome) :
  VoxAgent.isConnected (core a) = true ->
  let r := sendText a text now1 now2 p in
  let call := ConversationManager.addMessage
                (VoxAgent.conversationManager (core a))
                user text None now1 now2 in
  thrown r = match p with Resolved => None | Fails err => Some err end /\
  VoxAgent.conversationManager (core (agent r)) = fst call /\
  VoxAgent.isConnected (core (agent r)) = true /\
  VoxAgent.reconnectAttempts (core (agent r))
  = VoxAgent.reconnectAttempts (core a) /\
  VoxAgent.timers (core_trace (trace r)) = [] /\
  exists g, trace r = g ++ [ProviderSendText text].
Proof.
  intros C r call. unfold r, sendText. rewrite C. cbn [negb].
  fold call. unfold manager_call.
  destruct (dispatch_core (map VoxAgent.Manager (snd call))
              (with_core a (set_manager (core a) (fst call))))
    as (K & _ & _ & _ & T).
  destruct (dispatch _ _) as [a1 g1]. cbn [fst snd agent trace thrown] in *.
  rewrite K, core_trace_app, T. cbn [core_trace]. rewrite app_nil_r.
  cbn [with_core core set_manager VoxAgent.conversationManager
       VoxAgent.isConnected VoxAgent.reconnectAttempts].
  repeat split; auto.
  - apply VoxAgentFacts.timers_manager.
  - now exists g1.
Qed.

Lemma sendText_failure_is_not_handled_witness :
  let r := sendText example_agent "Hello" 2000 2000 (Fails "socket closed") in
  thrown r = Some "socket closed"%string /\
  VoxAgent.timers (core_trace (trace r)) = [] /\
  map content (ConversationManager.getMessages
                 (VoxAgent.conversationManager (core (agent r))))
  = ["You are a helpful assistant."; "Hello"]%string.
Proof.
  destruct (@sendText_failure_is_not_handled
              example_agent "Hello" 2000 2000 (Fails "socket closed") eq_refl)
    as (T & M & _ & _ & S & _).
  cbv zeta in *. rewrite T, S, M. vm_compute. repeat split.
Defined.

(** *** [disconnect] *)

(** [disconnect()] on an agent with lead extraction replays the whole
    conversation through the lead extractor.  The agent's "lead" event
    reports every lead the extractor emits during the replay, and then the
    final lead once more: the final lead ends the reports twice in a row.
    The [onLead] hooks of the plugins are called for the extractor's events
    only.  This holds whether the provider's disconnect succeeds or not. *)
Theorem disconnect_reports_the_replay (a : Agent) (p : call_outcome) :
  enableLeadExtraction a = true ->
  let found := LeadExtractor.processConversation
                 (leadExtractor a)
                 (ConversationManager.getState
                    (VoxAgent.conversationManager (core a))) in
  let final := match fst (fst found) with
               | Some lead => [lead]
               | None => []
               end in
  let r := disconnect a p in
  leadExtractor (agent r) = snd (fst found) /\
  lead_events (trace r) = LeadExtractor.emitted_leads (snd found) ++ final /\
  (exists earlier, lead_events (trace r) = earlier ++ final ++ final) /\
  onLead_calls (trace r) = (if hasOnLead a then lead_events (trace r) else []) /\
  plugin_leads (trace r)
  = flat_map (told a) (LeadExtractor.emitted_leads (snd found)).
Proof.
  intros X found final r.
  destruct (LeadExtractorFacts.processConversation_emits_what_it_returns
              (leadExtractor a)
              (ConversationManager.getState
                 (VoxAgent.conversationManager (core a)))) as (earlier & G).
  fold found in G. fold final in G.
  assert (N : lead_events (match fst (fst found) with
                           | Some l => notifyLead a l
                           | None => []
                           end) = final /\
              onLead_calls (match fst (fst found) with
                            | Some l => notifyLead a l
                            | None => []
                            end) = (if hasOnLead a then final else []) /\
              plugin_leads (match fst (fst found) with
                            | Some l => notifyLead a l
                            | None => []
                            end) = []).
  { unfold final. destruct (fst (fst found)) as [l|];
      [unfold notifyLead|]; now destruct (hasOnLead a). }
  destruct N as (N1 & N2 & N3).
  destruct (forward_read a (snd found)) as (L & O & P & _).
  assert (R : forall tail : list effect,
             lead_events tail = [] -> onLead_calls tail = [] ->
             plugin_leads tail = [] ->
             let g := (forward a (snd found)
                       ++ match fst (fst found) with
                          | Some l => notifyLead a l
                          | None => []
                          end) ++ tail in
             lead_events g = LeadExtractor.emitted_leads (snd found) ++ final /\
             (exists earlier, lead_events g = earlier ++ final ++ final) /\
             onLead_calls g = (if hasOnLead a then lead_events g else []) /\
             plugin_leads g
             = flat_map (told a) (LeadExtractor.emitted_leads (snd found))).
  { intros tail T1 T2 T3. cbn zeta.
    rewrite !lead_events_app, !onLead_calls_app, !plugin_leads_app,
      L, O, P, N1, N2, N3, T1, T2, T3, !app_nil_r.
    repeat split.
    - exists earlier. rewrite G at 1. now rewrite <- app_assoc.
    - now destruct (hasOnLead a). }
  unfold r, disconnect. rewrite X. fold found.
  destruct found as [[finalLead e1] g]. cbn [fst snd] in *.
  destruct p as [|err].
  - destruct (ConversationManager.end_ _) as [[s cm] g2].
    cbn [agent trace]. split; [reflexivity|].
    apply R.
    + destruct (map_core_quiet (map VoxAgent.Manager g2)) as (Q & _).
      rewrite map_map in Q. cbn. rewrite lead_events_app, Q.
      now destruct (VoxAgent.hasOnConnect _).
    + destruct (map_core_quiet (map VoxAgent.Manager g2)) as (_ & Q & _).
      rewrite map_map in Q. cbn. rewrite onLead_calls_app, Q.
      now destruct (VoxAgent.hasOnConnect _).
    + destruct (map_core_quiet (map VoxAgent.Manager g2)) as (_ & _ & Q & _).
      rewrite map_map in Q. cbn. rewrite plugin_leads_app, Q.
      now destruct (VoxAgent.hasOnConnect _).
  - cbn [agent trace]. split; [reflexivity|].
    apply R; cbn; apply map_core_quiet.
Qed.

Lemma disconnect_reports_the_replay_witness :
  let r := disconnect example_agent_with_lead Resolved in
  map email (lead_events (trace r))
  = [Some "bob@example.com"; Some "bob@example.com";
     Some "bob@example.com"]%string /\
  map fst (plugin_leads (trace r)) = ["metrics"; "metrics"]%string.
Proof.
  destruct (@disconnect_reports_the_replay example_agent_with_lead Resolved
              eq_refl) as (_ & L & _ & _ & P).
  cbv zeta in *. rewrite L, P. vm_compute. repeat split.
Defined.

(** [disconnect()] on an agent with a listener for "error".  When the
    provider's disconnect succeeds, the agent is no longer connected, the
    conversation is ended with its history kept, and nothing is thrown.
    When it fails, the error is thrown, the agent stays connected and the
    conversation manager is untouched; if the agent was connected and the
    retry counter is below its ceiling, [handleError] sets a timer to
    connect again after [reconnectDelay] times the new counter value. *)
Theorem disconnect_outcomes (a : Agent) (err : string) :
  VoxAgent.errorListeners (core a) <> 0 ->
  let cm := VoxAgent.conversationManager (core a) in
  let ok := disconnect a Resolved in
  let ko := disconnect a (Fails err) in
  (thrown ok = None /\
   VoxAgent.isConnected (core (agent ok)) = false /\
   isActive (ConversationManager.state
               (VoxAgent.conversationManager (core (agent ok)))) = false /\
   messages (ConversationManager.state
               (VoxAgent.conversationManager (core (agent ok))))
   = messages (ConversationManager.state cm) /\
   VoxAgent.timers (core_trace (trace ok)) = []) /\
  (thrown ko = Some err /\
   VoxAgent.isConnected (core (agent ko)) = VoxAgent.isConnected (core a) /\
   VoxAgent.conversationManager (core (agent ko)) = cm /\
   if VoxAgent.isConnected (core a)
      && (VoxAgent.reconnectAttempts (core a)
          <? VoxAgent.maxReconnectAttempts (core a))%Z
   then VoxAgent.timers (core_trace (trace ko))
        = [(VoxAgent.reconnectDelay (core a)
            * (VoxAgent.reconnectAttempts (core a) + 1))%Z] /\
        VoxAgent.reconnectAttempts (core (agent ko))
        = (VoxAgent.reconnectAttempts (core a) + 1)%Z
   else VoxAgent.timers (core_trace (trace ko)) = [] /\
        VoxAgent.reconnectAttempts (core (agent ko))
        = VoxAgent.reconnectAttempts (core a)).
Proof.
  intros Hl cm ok ko.
  assert (Q : forall (a1 : Agent) (g1 : list effect),
             (a1, g1)
             = (if enableLeadExtraction a
                then
                  let '(finalLead, e1, g) :=
                    LeadExtractor.processConversation
                      (leadExtractor a)
                      (ConversationManager.getState
                         (VoxAgent.conversationManager (core a))) in
                  (with_extractor a e1,
                   forward a g
                   ++ match finalLead with
                      | Some l => notifyLead a l
                      | None => []
                      end)
                else (a, [])) ->
             core a1 = core a /\ core_trace g1 = []).
  { intros a1 g1 E. destruct (enableLeadExtraction a).
    - destruct (LeadExtractor.processConversation _ _) as [[finalLead e1] g].
      inversion E; subst. split; [reflexivity|].
      rewrite core_trace_app.
      destruct (forward_read a g) as (_ & _ & _ & ->).
      destruct finalLead as [l|]; [|reflexivity].
      unfold notifyLead. now destruct (hasOnLead a).
    - inversion E; subst. now split. }
  unfold ok, ko, disconnect.
  destruct (if enableLeadExtraction a then _ else _) as [a1 g1].
  destruct (Q a1 g1 eq_refl) as (K & T). clear Q.
  split.
  - rewrite K. fold cm. unfold ConversationManager.end_.
    destruct (ConversationManagerFacts.clearSilenceTimer_state
                (ConversationManager.set_state cm
                   {| id := id (ConversationManager.state cm);
                      messages := messages (ConversationManager.state cm);
                      isActive := false;
                      startedAt := startedAt (ConversationManager.state cm);
                      lastActivityAt :=
                        lastActivityAt (ConversationManager.state cm);
                      state_metadata :=
                        state_metadata (ConversationManager.state cm) |}))
      as (S & _).
    cbv zeta.
    destruct (ConversationManager.clearSilenceTimer _) as [m2 g2].
    cbn [fst snd agent trace thrown with_core core set_isConnected
         set_manager VoxAgent.isConnected VoxAgent.conversationManager] in *.
    rewrite S. cbn [isActive messages ConversationManager.set_state
                    ConversationManager.state].
    repeat split.
    rewrite !core_trace_app, T.
    match goal with
    | |- context [map (fun x => Core (VoxAgent.Manager x)) ?l] =>
        destruct (map_manager_quiet l) as (_ & _ & _ & M)
    end.
    cbn zeta in M. rewrite M.
    cbn [app core_trace]. rewrite VoxAgentFacts.timers_app,
      VoxAgentFacts.timers_manager.
    now destruct (VoxAgent.hasOnConnect _).
  - cbn [agent trace thrown with_core core].
    rewrite K in *.
    destruct (@VoxAgentFacts.handleError_listened (core a) err "disconnect" Hl)
      as (_ & C & _ & _ & _ & H).
    cbn zeta in *.
    rewrite !core_trace_app, T.
    destruct (map_core_quiet
                (VoxAgent.trace
                   (VoxAgent.handleError (core a) err "disconnect")))
      as (_ & _ & _ & M).
    rewrite M. cbn [app core_trace].
    repeat split; [exact C| |].
    + destruct (VoxAgent.isConnected (core a)
                && (VoxAgent.reconnectAttempts (core a)
                    <? VoxAgent.maxReconnectAttempts (core a))%Z).
      * destruct H as (_ & H).
        unfold VoxAgent.handleError in *.
        destruct (VoxAgent.errorListeners (core a)); [now elim Hl|].
        destruct (_ && _); reflexivity.
      * destruct H as (_ & ->). reflexivity.
    + destruct (VoxAgent.isConnected (core a)
                && (VoxAgent.reconnectAttempts (core a)
                    <? VoxAgent.maxReconnectAttempts (core a))%Z).
      * exact H.
      * destruct H as (H1 & ->). now split.
Qed.

Lemma disconnect_outcomes_witness :
  let r := disconnect example_agent (Fails "socket hang up") in
  thrown r = Some "socket hang up"%string /\
  VoxAgent.isConnected (core (agent r)) = true /\
  VoxAgent.timers (core_trace (trace r)) = [1000%Z].
Proof.
  destruct (@disconnect_outcomes example_agent "socket hang up"
              ltac:(discriminate)) as (_ & T & C & _ & S).
  cbv zeta in *. split; [exact T|]. split; [rewrite C; reflexivity|].
  exact (proj1 S).
Defined.

(** *** [connect] *)

(** What a successful [connect()] leaves. *)
Lemma connect_connected (a : Agent) (newId : string) (now : Z) :
  (1 <= ConversationManager.maxMessages
          (ConversationManager.config
             (VoxAgent.conversationManager (core a))))%Z ->
  let r := connect a VoxAgent.Connected newId now in
  let prompt := VoxAgent.systemPrompt (core a) in
  thrown r = None /\
  VoxAgent.isConnected (core (agent r)) = true /\
  ConversationManager.getMessages (VoxAgent.conversationManager (core (agent r)))
  = (if truthy prompt
     then [{| msg_role := system; content := LeadExtractor.value prompt;
              timestamp := Some now; metadata := None |}]
     else []) /\
  leadExtractor (agent r) = leadExtractor a /\
  lead_events (trace r) = [].
Proof.
  intros Hmax r prompt.
  set (cm := VoxAgent.conversationManager (core a)) in *.
  unfold r, connect.
  change (VoxAgent.connect (core a) VoxAgent.Connected newId now)
    with (VoxAgent.connected (core a) newId now).
  assert (Hd : forall m,
             In (VoxAgent.Manager
                   (ConversationManager.Emit (ConversationManager.EMessage m)))
                (VoxAgent.trace (VoxAgent.connected (core a) newId now)) ->
             msg_role m <> user).
  { intros m. unfold VoxAgent.connected, ConversationManager.start.
    fold cm. cbv zeta.
    match goal with
    | |- context [ConversationManager.resetSilenceTimer ?x] =>
        destruct (ConversationManagerFacts.resetSilenceTimer_spec x)
          as (b & g & E & He); rewrite E
    end.
    set (cm1 := {| ConversationManager.state := _ |}).
    assert (A1 : isActive (ConversationManager.state cm1) = true)
      by reflexivity.
    destruct (@ConversationManagerFacts.addMessage_trace cm1 system
                (LeadExtractor.value (VoxAgent.systemPrompt (core a)))
                None now now A1) as (g2 & E2 & He2).
    assert (G2 : forall p : ConversationManager.ConversationManager
                            * list ConversationManager.effect,
               (forall x, In (ConversationManager.Emit
                                (ConversationManager.EMessage x)) (snd p) ->
                          msg_role x <> user) ->
               In (VoxAgent.Manager
                     (ConversationManager.Emit
                        (ConversationManager.EMessage m)))
                  (VoxAgent.trace
                     (let '(cm2, g2) := p in
                      {| VoxAgent.agent :=
                           {| VoxAgent.isConnected := true;
                              VoxAgent.reconnectAttempts := 0;
                              VoxAgent.maxReconnectAttempts :=
                                VoxAgent.maxReconnectAttempts (core a);
                              VoxAgent.reconnectDelay :=
                                VoxAgent.reconnectDelay (core a);
                              VoxAgent.systemPrompt :=
                                VoxAgent.systemPrompt (core a);
                              VoxAgent.hasOnError :=
                                VoxAgent.hasOnError (core a);
                              VoxAgent.hasOnConnect :=
                                VoxAgent.hasOnConnect (core a);
                              VoxAgent.errorListeners :=
                                VoxAgent.errorListeners (core a);
                              VoxAgent.conversationManager := cm2;
                              VoxAgent.conversation :=
                                ConversationManager.getState cm1 |};
                         VoxAgent.trace :=
                           [VoxAgent.Log LInfo "Initializing AI provider...";
                            VoxAgent.Log LInfo "Connecting to AI provider..."]
                           ++ map VoxAgent.Manager
                                (([ConversationManager.Log LInfo
                                     ("Started new conversation: " ++ newId)
                                     %string;
                                   ConversationManager.Emit
                                     (ConversationManager.EStarted
                                        (ConversationManager.state cm1))]
                                  ++ g) ++ g2)
                           ++ (if VoxAgent.hasOnConnect (core a)
                               then [VoxAgent.OnConnect true] else [])
                           ++ [VoxAgent.Emit (VoxAgent.EConnect true);
                               VoxAgent.Log LInfo "Connected to AI provider"];
                         VoxAgent.thrown := None |})) ->
               msg_role m <> user).
    { intros [cm2 g3] Hg. cbn [VoxAgent.trace snd] in *.
      intros I. cbn [app] in I.
      destruct I as [I|[I|I]]; try discriminate.
      apply in_app_or in I. destruct I as [I|I].
      - apply in_map_iff in I. destruct I as (x & Ex & I).
        injection Ex as ->.
        destruct I as [I|[I|I]]; try discriminate.
        apply in_app_or in I. destruct I as [I|I].
        + apply In_emitted_messages in I. rewrite He in I. destruct I.
        + now apply Hg.
      - apply in_app_or in I. destruct I as [I|I].
        + destruct (VoxAgent.hasOnConnect _); [|destruct I].
          destruct I as [I|[]]. discriminate.
        + destruct I as [I|[I|[]]]; discriminate. }
    apply G2. destruct (truthy _).
    - rewrite E2. intros x [I|I].
      + injection I as <-. discriminate.
      + apply In_emitted_messages in I. rewrite He2 in I. destruct I.
    - intros x []. }
  set (c := VoxAgent.connected (core a) newId now) in *.
  destruct (@dispatch_not_user (VoxAgent.trace c)
              (with_core a (VoxAgent.agent c)) Hd) as (E & L & _).
  destruct (dispatch_core (VoxAgent.trace c) (with_core a (VoxAgent.agent c)))
    as (K & _).
  destruct (dispatch _ _) as [a1 g1].
  cbn [fst snd agent trace thrown with_core core leadExtractor] in *.
  assert (Hc : VoxAgent.thrown c = None /\
               VoxAgent.isConnected (VoxAgent.agent c) = true /\
               ConversationManager.getMessages
                 (VoxAgent.conversationManager (VoxAgent.agent c))
               = (if truthy prompt
                  then [{| msg_role := system;
                           content := LeadExtractor.value prompt;
                           timestamp := Some now; metadata := None |}]
                  else [])).
  { unfold c, VoxAgent.connected, ConversationManager.start.
    fold cm. fold prompt. cbv zeta.
    match goal with
    | |- context [ConversationManager.resetSilenceTimer ?x] =>
        destruct (ConversationManagerFacts.resetSilenceTimer_spec x)
          as (b & g & Er & He); rewrite Er
    end.
    set (cm1 := {| ConversationManager.state := _ |}).
    destruct (truthy prompt).
    - assert (A1 : isActive (ConversationManager.state cm1) = true)
        by reflexivity.
      pose proof (@ConversationManagerFacts.addCall_active cm1
                    {| ConversationManager.c_role := system;
                       ConversationManager.c_content :=
                         LeadExtractor.value prompt;
                       ConversationManager.c_metadata := None;
                       ConversationManager.c_now1 := now;
                       ConversationManager.c_now2 := now |} A1)
        as (M & _).
      unfold ConversationManager.addCall in M.
      cbn [ConversationManager.c_role ConversationManager.c_content
           ConversationManager.c_metadata ConversationManager.c_now1
           ConversationManager.c_now2] in M.
      destruct (ConversationManager.addMessage cm1 system _ None now now)
        as [cm2 g2].
      cbn [fst VoxAgent.thrown VoxAgent.agent VoxAgent.isConnected
           VoxAgent.conversationManager] in *.
      repeat split. unfold ConversationManager.getMessages. rewrite M.
      rewrite ConversationManagerFacts.trim_positive by exact Hmax.
      unfold ConversationManager.message_of.
      cbn [ConversationManager.c_role ConversationManager.c_content
           ConversationManager.c_metadata ConversationManager.c_now1
           ConversationManager.state ConversationManager.config cm1
           ConversationManager.set_state ConversationManager.createNewConversation
           messages app].
      replace (if ConversationManager.enableMetadata _ then @None record
               else None) with (@None record)
        by now destruct (ConversationManager.enableMetadata _).
      unfold lastn. cbn [length].
      replace (1 - Z.to_nat _) with 0 by lia. reflexivity.
    - repeat split. }
  destruct Hc as (Hc1 & Hc2 & Hc3).
  rewrite K. repeat split; auto.
Qed.

(** A successful [connect()] starts a new conversation, whose history is
    the system prompt alone (or empty without one), but does not reset the
    lead extractor, and reports no lead.  A program that calls
    [getCurrentLead()], then [connect()], then [getCurrentLead()] again
    gets the name, email, phone, company and notes of the earlier
    conversation a second time, with the same scores for the name and the
    phone.  (The score of the email may differ between the two calls, as it
    does between any two calls of [getCurrentLead()].) *)
#[warnings="-inexact-float"]
Theorem connect_keeps_the_lead_fields (a : Agent) (newId : string) (now : Z) :
  (1 <= ConversationManager.maxMessages
          (ConversationManager.config
             (VoxAgent.conversationManager (core a))))%Z ->
  let before := getCurrentLead a in
  let r := connect (snd before) VoxAgent.Connected newId now in
  let after := getCurrentLead (agent r) in
  let prompt := VoxAgent.systemPrompt (core a) in
  thrown r = None /\
  VoxAgent.isConnected (core (agent r)) = true /\
  ConversationManager.getMessages (VoxAgent.conversationManager (core (agent r)))
  = (if truthy prompt
     then [{| msg_role := system; content := LeadExtractor.value prompt;
              timestamp := Some now; metadata := None |}]
     else []) /\
  leadExtractor (agent r) = leadExtractor (snd before) /\
  lead_events (trace r) = [] /\
  name (fst after) = name (fst before) /\
  email (fst after) = email (fst before) /\
  phone (fst after) = phone (fst before) /\
  company (fst after) = company (fst before) /\
  notes (fst after) = notes (fst before) /\
  c_name (confidence (fst after)) = c_name (confidence (fst before)) /\
  c_phone (confidence (fst after)) = c_phone (confidence (fst before)).
Proof.
  intros Hmax before r after prompt.
  assert (Hb : core (snd before) = core a /\
               leadExtractor (snd before)
               = snd (LeadExtractor.buildLeadInfo (leadExtractor a)) /\
               fst before = fst (LeadExtractor.buildLeadInfo (leadExtractor a))).
  { unfold before, getCurrentLead, LeadExtractor.getCurrentLead.
    now destruct (LeadExtractor.buildLeadInfo (leadExtractor a)). }
  destruct Hb as (Hc & He & Hl).
  destruct (@connect_connected (snd before) newId now) as (T & C & M & E & L).
  { now rewrite Hc. }
  cbn zeta in T, C, M, E, L. fold r in T, C, M, E, L.
  rewrite Hc in M. fold prompt in M.
  assert (Ha : fst after
               = fst (LeadExtractor.buildLeadInfo
                        (snd (LeadExtractor.buildLeadInfo (leadExtractor a))))).
  { unfold after, getCurrentLead, LeadExtractor.getCurrentLead.
    rewrite E, He.
    now destruct (LeadExtractor.buildLeadInfo
                    (snd (LeadExtractor.buildLeadInfo (leadExtractor a)))). }
  destruct (LeadExtractorFacts.buildLeadInfo_currentLead (leadExtractor a))
    as (K & _).
  destruct (LeadExtractorFacts.buildLeadInfo_fields (leadExtractor a))
    as (F1 & F2 & F3 & F4 & F5).
  destruct (LeadExtractorFacts.buildLeadInfo_fields
              (snd (LeadExtractor.buildLeadInfo (leadExtractor a))))
    as (G1 & G2 & G3 & G4 & G5).
  destruct (LeadExtractorFacts.buildLeadInfo_confidence (leadExtractor a))
    as (P1 & P2 & _).
  destruct (LeadExtractorFacts.buildLeadInfo_confidence
              (snd (LeadExtractor.buildLeadInfo (leadExtractor a))))
    as (Q1 & Q2 & _).
  cbn zeta in *. rewrite K in G1, G2, G3, G4, G5.
  rewrite Ha, Hl, P1, P2, Q1, Q2, F1, F2, F3, F4, F5, G1, G2, G3, G4, G5.
  repeat split; auto.
Qed.

#[warnings="-inexact-float"]
Lemma connect_keeps_the_lead_fields_witness :
  let before := getCurrentLead example_agent_with_lead in
  let r := connect (snd before) VoxAgent.Connected "conv-2" 5000 in
  let after := getCurrentLead (agent r) in
  map content (ConversationManager.getMessages
                 (VoxAgent.conversationManager (core (agent r))))
  = ["You are a helpful assistant."%string] /\
  email (fst before) = Some "bob@example.com"%string /\
  email (fst after) = Some "bob@example.com"%string /\
  c_email (confidence (fst before)) = Some 0.5%float /\
  c_email (confidence (fst after)) = Some 1%float.
Proof.
  destruct (@connect_keeps_the_lead_fields example_agent_with_lead "conv-2"
              5000 ltac:(vm_compute; discriminate))
    as (_ & _ & M & _ & _ & _ & G & _).
  cbv zeta in *. rewrite M, G. vm_compute. repeat split.
Defined.

End OrchestrationFacts.
